(** * AI-Resume-Analyzer: text chunking and structured-content reconstruction

    A shallow embedding of the chunkers ([splitTextIntoChunks] of the backend
    and of the document worker, [splitTextAsyncChunks] of the optimized
    document processor) and of [TextFormatter.parseStructuredContent] with
    the helpers it calls, followed by the properties of the specification
    that were checked against them. *)

From Stdlib Require Import ZArith List Bool Lia String Ascii.
From Stdlib Require Import Permutation Sorted QArith Lqa.
Import ListNotations.
Open Scope Z_scope.

(** ** JavaScript strings and the built-ins the sources call *)

Module JS.

(** A string is a sequence of UTF-16 code units. *)
Definition char := Z.
Definition jsstring := list char.

Definition ch (a : ascii) : char := Z.of_N (N_of_ascii a).

(** String literals of this file are UTF-8 byte sequences; [lit] decodes
    them (one to three bytes per code unit, which covers the bullet U+2022
    used by the formatter). *)
Fixpoint bytes (s : string) : list Z :=
  match s with
  | EmptyString => []
  | String a r => ch a :: bytes r
  end.

Fixpoint utf8 (bs : list Z) : jsstring :=
  match bs with
  | [] => []
  | b0 :: r =>
    if b0 <? 128 then b0 :: utf8 r
    else if b0 <? 224 then
      match r with
      | b1 :: r1 => ((b0 mod 32) * 64 + b1 mod 64) :: utf8 r1
      | [] => []
      end
    else
      match r with
      | b1 :: b2 :: r2 =>
        ((b0 mod 16) * 4096 + (b1 mod 64) * 64 + b2 mod 64) :: utf8 r2
      | _ => []
      end
  end.

Definition lit (s : string) : jsstring := utf8 (bytes s).

Definition len {A : Type} (s : list A) : Z := Z.of_nat (List.length s).

Definition eqb (a b : jsstring) : bool :=
  if list_eq_dec Z.eq_dec a b then true else false.

(** WhiteSpace and LineTerminator code points, the set removed by
    [String.prototype.trim] and matched by the regular expression class \s. *)
Definition isLineTerminator (c : char) : bool :=
  (c =? 10) || (c =? 13) || (c =? 8232) || (c =? 8233).

Definition isWhiteSpace (c : char) : bool :=
  ((9 <=? c) && (c <=? 13)) || (c =? 32) || (c =? 160) || (c =? 5760)
  || ((8192 <=? c) && (c <=? 8202)) || (c =? 8232) || (c =? 8233)
  || (c =? 8239) || (c =? 8287) || (c =? 12288) || (c =? 65279).

Fixpoint trimStart (s : jsstring) : jsstring :=
  match s with
  | [] => []
  | c :: r => if isWhiteSpace c then trimStart r else s
  end.

Definition trimEnd (s : jsstring) : jsstring := rev (trimStart (rev s)).

Definition trim (s : jsstring) : jsstring := trimEnd (trimStart s).

(** [s.substring(a, b)]: both indices are clamped to [0, length] and
    swapped when out of order. *)
Definition slice (s : jsstring) (lo hi : Z) : jsstring :=
  firstn (Z.to_nat (hi - lo)) (skipn (Z.to_nat lo) s).

Definition substring (s : jsstring) (a b : Z) : jsstring :=
  let a' := Z.min (Z.max a 0) (len s) in
  let b' := Z.min (Z.max b 0) (len s) in
  slice s (Z.min a' b') (Z.max a' b').

(** [s.lastIndexOf(c, fromIndex)] for a one-character search string: the
    greatest index [k <= min(max(fromIndex, 0), length - 1)] holding [c],
    or -1. *)
Fixpoint lastIndexScan (c : char) (s : jsstring) (i bound best : Z) : Z :=
  match s with
  | [] => best
  | x :: r =>
    if i <=? bound
    then lastIndexScan c r (i + 1) bound (if x =? c then i else best)
    else best
  end.

Definition lastIndexOf (c : char) (s : jsstring) (fromIndex : Z) : Z :=
  lastIndexScan c s 0 (Z.min (Z.max fromIndex 0) (len s - 1)) (-1).

(** Truthiness of a string: [!text] holds exactly for the empty string. *)
Definition truthy (s : jsstring) : bool :=
  match s with [] => false | _ => true end.

(** [s.split(c)] for a one-character separator, and [a.join(sep)]. *)
Fixpoint splitOnFrom (c : char) (s : jsstring) (cur : list char)
    : list jsstring :=
  match s with
  | [] => [rev cur]
  | x :: r =>
    if x =? c then rev cur :: splitOnFrom c r []
    else splitOnFrom c r (x :: cur)
  end.

Definition splitOn (c : char) (s : jsstring) : list jsstring :=
  splitOnFrom c s [].

Fixpoint join (sep : jsstring) (l : list jsstring) : jsstring :=
  match l with
  | [] => []
  | [a] => a
  | a :: r => a ++ sep ++ join sep r
  end.

(** The values a caller can pass where a string is expected.  Numbers are
    integers here ([NaN], which is falsy, is not represented). *)
Inductive jsval : Type :=
| JNull
| JUndefined
| JBoolean (b : bool)
| JNumber (n : Z)
| JString (s : jsstring).

Definition truthyVal (v : jsval) : bool :=
  match v with
  | JNull | JUndefined => false
  | JBoolean b => b
  | JNumber n => negb (n =? 0)
  | JString s => truthy s
  end.

End JS.

Import JS.

(** ** The chunkers *)

(** What one call computes: the returned array and, as a ghost counter, how
    many times the body of the [while] loop ran. *)
Record run : Type := mkRun { chunks : list jsstring; iterations : nat }.

(** [chunkSize] and [overlap] are integers: the defaults are 700 and 200 and
    the callers pass the results of [parseInt] or the defaults.  Positions
    are integers too, so all of them are in [Z]. *)

(** [chunkSize * 0.5] is the only non-integer quantity of the chunkers.  For
    integers [p], [start] and [chunkSize] the test
    [p > start + chunkSize * 0.5] is the integer test
    [2 * start + chunkSize < 2 * p], which is how [pastMidpoint] states it. *)
Definition pastMidpoint (p start chunkSize : Z) : bool :=
  2 * start + chunkSize <? 2 * p.

(** The final [chunks.filter(chunk => chunk.length > 0)]. *)
Definition filterNonEmpty (l : list jsstring) : list jsstring :=
  filter (fun c => 0 <? len c) l.

(** *** Backend: [splitTextIntoChunks], src/utils/memoryManager.js 400-441 *)

Module MemoryManager.

(** Lines 409-428: the end of the chunk that starts at [start]. *)
Definition chunkEnd (text : jsstring) (chunkSize start : Z) : Z :=
  let end_ := start + chunkSize in
  if end_ <? len text then
    let sentenceEnd := lastIndexOf (ch ".") text end_ in
    let questionEnd := lastIndexOf (ch "?") text end_ in
    let exclamationEnd := lastIndexOf (ch "!") text end_ in
    let lastSentenceEnd :=
      Z.max (Z.max sentenceEnd questionEnd) exclamationEnd in
    if pastMidpoint lastSentenceEnd start chunkSize then lastSentenceEnd + 1
    else
      let lastSpace := lastIndexOf (ch " ") text end_ in
      if pastMidpoint lastSpace start chunkSize then lastSpace else end_
  else end_.

(** Lines 408-438: the [while] loop.  [fuel] bounds the number of tests of
    the loop condition; [None] means the fuel ran out. *)
Fixpoint whileLoop (fuel : nat) (text : jsstring) (chunkSize overlap : Z)
    (start : Z) (acc : list jsstring) (n : nat) : option run :=
  match fuel with
  | O => None
  | S fuel' =>
    if start <? len text then
      let end_ := chunkEnd text chunkSize start in
      let chunk := trim (substring text start end_) in
      let acc' := if truthy chunk then acc ++ [chunk] else acc in
      let start' := Z.max (start + 1) (end_ - overlap) in
      if len text <=? start' then Some (mkRun acc' (S n))
      else whileLoop fuel' text chunkSize overlap start' acc' (S n)
    else Some (mkRun acc n)
  end.

Definition splitTextIntoChunksRun (text : jsstring) (chunkSize overlap : Z)
    : option run :=
  if negb (truthy text) || (len text <=? chunkSize)
  then Some (mkRun [text] 0)
  else
    match whileLoop (S (List.length text)) text chunkSize overlap 0 [] 0 with
    | Some r => Some (mkRun (filterNonEmpty (chunks r)) (iterations r))
    | None => None
    end.

Definition splitTextIntoChunks (text : jsstring) (chunkSize overlap : Z)
    : option (list jsstring) :=
  option_map chunks (splitTextIntoChunksRun text chunkSize overlap).

End MemoryManager.

(** *** Worker: [DocumentWorkerProcessor.splitTextIntoChunks], lines 91-137 *)

Module DocumentWorkerProcessor.

(** Lines 100-120. *)
Definition chunkEnd (text : jsstring) (chunkSize start : Z) : Z :=
  let end_ := start + chunkSize in
  if end_ <? len text then
    let sentenceEnd := lastIndexOf (ch ".") text end_ in
    let questionEnd := lastIndexOf (ch "?") text end_ in
    let exclamationEnd := lastIndexOf (ch "!") text end_ in
    let lastSentenceEnd :=
      Z.max (Z.max sentenceEnd questionEnd) exclamationEnd in
    if pastMidpoint lastSentenceEnd start chunkSize then lastSentenceEnd + 1
    else
      let lastSpace := lastIndexOf (ch " ") text end_ in
      if pastMidpoint lastSpace start chunkSize then lastSpace else end_
  else end_.

(** Lines 99-134. *)
Fixpoint whileLoop (fuel : nat) (text : jsstring) (chunkSize overlap : Z)
    (start : Z) (acc : list jsstring) (n : nat) : option run :=
  match fuel with
  | O => None
  | S fuel' =>
    if start <? len text then
      let end_ := chunkEnd text chunkSize start in
      let chunk := trim (substring text start end_) in
      let acc' := if truthy chunk then acc ++ [chunk] else acc in
      let start' := Z.max (start + 1) (end_ - overlap) in
      if len text <=? start' then Some (mkRun acc' (S n))
      else whileLoop fuel' text chunkSize overlap start' acc' (S n)
    else Some (mkRun acc n)
  end.

Definition splitTextIntoChunksRun (text : jsstring) (chunkSize overlap : Z)
    : option run :=
  if negb (truthy text) || (len text <=? chunkSize)
  then Some (mkRun [text] 0)
  else
    match whileLoop (S (List.length text)) text chunkSize overlap 0 [] 0 with
    | Some r => Some (mkRun (filterNonEmpty (chunks r)) (iterations r))
    | None => None
    end.

Definition splitTextIntoChunks (text : jsstring) (chunkSize overlap : Z)
    : option (list jsstring) :=
  option_map chunks (splitTextIntoChunksRun text chunkSize overlap).

End DocumentWorkerProcessor.

(** *** Browser: [OptimizedDocumentProcessor.splitTextAsyncChunks],
    src/services/optimizedDocumentProcessor.js 435-486.

    The function is [async]: every fifth chunk it reports progress and
    awaits a timer.  Neither touches [chunks] or [start], so the value the
    promise resolves to is the one computed here.  There is no short-circuit
    for short texts. *)

Module OptimizedDocumentProcessor.

(** Lines 442-459. *)
Definition chunkEnd (text : jsstring) (chunkSize start : Z) : Z :=
  let end_ := start + chunkSize in
  if end_ <? len text then
    let sentenceEnd := lastIndexOf (ch ".") text end_ in
    let questionEnd := lastIndexOf (ch "?") text end_ in
    let exclamationEnd := lastIndexOf (ch "!") text end_ in
    let lastSentenceEnd :=
      Z.max (Z.max sentenceEnd questionEnd) exclamationEnd in
    if pastMidpoint lastSentenceEnd start chunkSize then lastSentenceEnd + 1
    else
      let lastSpace := lastIndexOf (ch " ") text end_ in
      if pastMidpoint lastSpace start chunkSize then lastSpace else end_
  else end_.

(** Lines 441-483. *)
Fixpoint whileLoop (fuel : nat) (text : jsstring) (chunkSize overlap : Z)
    (start : Z) (acc : list jsstring) (n : nat) : option run :=
  match fuel with
  | O => None
  | S fuel' =>
    if start <? len text then
      let end_ := chunkEnd text chunkSize start in
      let chunk := trim (substring text start end_) in
      let acc' := if truthy chunk then acc ++ [chunk] else acc in
      let start' := Z.max (start + 1) (end_ - overlap) in
      if len text <=? start' then Some (mkRun acc' (S n))
      else whileLoop fuel' text chunkSize overlap start' acc' (S n)
    else Some (mkRun acc n)
  end.

Definition splitTextAsyncChunksRun (text : jsstring) (chunkSize overlap : Z)
    : option run :=
  match whileLoop (S (List.length text)) text chunkSize overlap 0 [] 0 with
  | Some r => Some (mkRun (filterNonEmpty (chunks r)) (iterations r))
  | None => None
  end.

Definition splitTextAsyncChunks (text : jsstring) (chunkSize overlap : Z)
    : option (list jsstring) :=
  option_map chunks (splitTextAsyncChunksRun text chunkSize overlap).

End OptimizedDocumentProcessor.

(** ** Regular expressions

    A backtracking matcher for the fragment of ECMAScript regular
    expressions the formatter uses: character classes, sequence, ordered
    alternation, greedy bounded repetition, capture groups, the assertions
    ^, $ and \b, and a one-character look-behind.  Alternatives are tried
    left to right and a repetition tries one more iteration before it tries
    to stop, as the ECMAScript matcher does. *)

Module Regex.

Inductive re : Type :=
| Eps
| Class (p : char -> bool)
| Seq (a b : re)
| Alt (a b : re)
| Rep (lo : nat) (hi : option nat) (a : re)
| Group (n : nat) (a : re)
| Bol (multiline : bool)
| Eol (multiline : bool)
| WordBoundary
| LookBehind (p : char -> bool).

(** A position in the subject: the text before it, nearest character first,
    and the text after it. *)
Definition cursor : Type := (list char * list char)%type.
Definition captures : Type := list (nat * jsstring).
Definition result : Type := option (cursor * captures).
Definition cont : Type := cursor -> captures -> result.

Definition remaining (x : cursor) : nat := List.length (snd x).

(** The text between two positions, the second one at or after the first. *)
Definition between (x y : cursor) : jsstring :=
  firstn (remaining x - remaining y) (snd x).

Definition isWordChar (c : char) : bool :=
  ((ch "a" <=? c) && (c <=? ch "z")) || ((ch "A" <=? c) && (c <=? ch "Z"))
  || ((ch "0" <=? c) && (c <=? ch "9")) || (c =? ch "_").

Definition headIs (p : char -> bool) (l : list char) : bool :=
  match l with [] => false | c :: _ => p c end.

(** RepeatMatcher: [ma] matches one iteration.  Once the minimum is
    reached, an iteration that consumes nothing is rejected.  The fuel is
    the minimum plus the number of characters left, plus one. *)
Fixpoint repeat_ (ma : cont -> cursor -> captures -> result) (fuel : nat)
    (lo : nat) (hi : option nat) (k : cont) (x : cursor) (c : captures)
    : result :=
  match fuel with
  | O => None
  | S fuel' =>
    match hi with
    | Some O => k x c
    | _ =>
      let more :=
        ma (fun y c' =>
              if Nat.eqb lo 0 && Nat.eqb (remaining y) (remaining x) then None
              else repeat_ ma fuel' (Nat.pred lo) (option_map Nat.pred hi)
                           k y c')
           x c in
      if Nat.eqb lo 0 then
        match more with
        | Some r => Some r
        | None => k x c
        end
      else more
    end
  end.

Fixpoint matcher (r : re) (k : cont) (x : cursor) (c : captures) : result :=
  match r with
  | Eps => k x c
  | Class p =>
    match snd x with
    | a :: rest => if p a then k (a :: fst x, rest) c else None
    | [] => None
    end
  | Seq a b => matcher a (fun y c' => matcher b k y c') x c
  | Alt a b =>
    match matcher a k x c with
    | Some res => Some res
    | None => matcher b k x c
    end
  | Rep lo hi a => repeat_ (matcher a) (lo + remaining x + 1) lo hi k x c
  | Group n a => matcher a (fun y c' => k y ((n, between x y) :: c')) x c
  | Bol multiline =>
    match fst x with
    | [] => k x c
    | a :: _ => if multiline && isLineTerminator a then k x c else None
    end
  | Eol multiline =>
    match snd x with
    | [] => k x c
    | a :: _ => if multiline && isLineTerminator a then k x c else None
    end
  | WordBoundary =>
    if xorb (headIs isWordChar (fst x)) (headIs isWordChar (snd x))
    then k x c else None
  | LookBehind p => if headIs p (fst x) then k x c else None
  end.

(** One match attempt at a given position. *)
Definition matchAt (r : re) (x : cursor) : result :=
  matcher r (fun y c => Some (y, c)) x [].

(** RegExpBuiltinExec: the first position at or after the cursor where the
    pattern matches; the end of the subject is tried too. *)
Fixpoint exec (r : re) (bef aft : list char)
    : option (cursor * cursor * captures) :=
  match matchAt r (bef, aft) with
  | Some (y, c) => Some ((bef, aft), y, c)
  | None =>
    match aft with
    | [] => None
    | a :: rest => exec r (a :: bef) rest
    end
  end.

(** [re.test(s)], and [s.match(re)] used as a condition, for a pattern
    without the g flag. *)
Definition test (r : re) (s : jsstring) : bool :=
  match exec r [] s with Some _ => true | None => false end.

(** Replacement templates: literal text and group references. *)
Inductive piece : Type :=
| Text (s : jsstring)
| Ref (n : nat).

Fixpoint lookupGroup (n : nat) (c : captures) : jsstring :=
  match c with
  | [] => []
  | (m, s) :: r => if Nat.eqb m n then s else lookupGroup n r
  end.

Definition expand (t : list piece) (c : captures) : jsstring :=
  flat_map (fun p => match p with
                     | Text s => s
                     | Ref n => lookupGroup n c
                     end) t.

(** [s.replace(re, t)] without the g flag: the first match only. *)
Definition replaceFirst (r : re) (t : list piece) (s : jsstring) : jsstring :=
  match exec r [] s with
  | None => s
  | Some (x, y, c) => rev (fst x) ++ expand t c ++ snd y
  end.

(** [s.replace(re, t)] with the g flag: matches are collected left to right;
    after an empty match the search resumes one character further. *)
Fixpoint replaceLoop (fuel : nat) (r : re) (t : list piece)
    (bef aft : list char) (out : jsstring) : jsstring :=
  match fuel with
  | O => out ++ aft
  | S fuel' =>
    match exec r bef aft with
    | None => out ++ aft
    | Some (x, y, c) =>
      let out' := out ++ between (bef, aft) x ++ expand t c in
      if Nat.eqb (remaining y) (remaining x) then
        match snd y with
        | [] => out'
        | a :: rest => replaceLoop fuel' r t (a :: fst y) rest (out' ++ [a])
        end
      else replaceLoop fuel' r t (fst y) (snd y) out'
    end
  end.

Definition replaceAll (r : re) (t : list piece) (s : jsstring) : jsstring :=
  replaceLoop (S (List.length s)) r t [] s [].

(** [s.split(re)] for a pattern without capture groups: at each position
    [q] the pattern is tried at [q] only; a match that ends where the
    current piece starts is skipped. *)
Fixpoint splitLoop (fuel : nat) (r : re) (bef aft : list char)
    (cur : list char) (out : list jsstring) : list jsstring :=
  match fuel with
  | O => out ++ [rev cur ++ aft]
  | S fuel' =>
    match aft with
    | [] => out ++ [rev cur]
    | a :: rest =>
      match matchAt r (bef, aft) with
      | None => splitLoop fuel' r (a :: bef) rest (a :: cur) out
      | Some (y, _) =>
        if Nat.eqb (remaining y) (List.length aft) && negb (truthy cur)
        then splitLoop fuel' r (a :: bef) rest (a :: cur) out
        else splitLoop fuel' r (fst y) (snd y) [] (out ++ [rev cur])
      end
    end
  end.

Definition split (r : re) (s : jsstring) : list jsstring :=
  match s with
  | [] => match matchAt r ([], []) with Some _ => [] | None => [[]] end
  | _ => splitLoop (2 * List.length s + 2) r [] s [] []
  end.

(** *** Building patterns *)

Fixpoint seq (l : list re) : re :=
  match l with
  | [] => Eps
  | [a] => a
  | a :: r => Seq a (seq r)
  end.

Fixpoint alt (l : list re) : re :=
  match l with
  | [] => Eps
  | [a] => a
  | a :: r => Alt a (alt r)
  end.

Definition star (a : re) : re := Rep 0 None a.
Definition plus (a : re) : re := Rep 1 None a.
Definition opt (a : re) : re := Rep 0 (Some 1%nat) a.
Definition atLeast (n : nat) (a : re) : re := Rep n None a.
Definition fromTo (n m : nat) (a : re) : re := Rep n (Some m) a.

Definition one (a : ascii) : char -> bool := fun x => x =? ch a.
Definition code (n : Z) : char -> bool := fun x => x =? n.
Definition range (a b : ascii) : char -> bool :=
  fun x => (ch a <=? x) && (x <=? ch b).
Definition anyOf (ps : list (char -> bool)) : char -> bool :=
  fun x => existsb (fun p => p x) ps.
Definition noneOf (ps : list (char -> bool)) : char -> bool :=
  fun x => negb (existsb (fun p => p x) ps).
Definition digit : char -> bool := range "0" "9".
Definition space : char -> bool := isWhiteSpace.
(** The dot: any character but a line terminator. *)
Definition dot : char -> bool := fun x => negb (isLineTerminator x).

(** The i flag, for classes whose cased members are ASCII letters: a
    character matches when it or its other-case form is in the class. *)
Definition toUpper (x : char) : char :=
  if (ch "a" <=? x) && (x <=? ch "z") then x - 32 else x.
Definition toLower (x : char) : char :=
  if (ch "A" <=? x) && (x <=? ch "Z") then x + 32 else x.
Definition ci (p : char -> bool) : char -> bool :=
  fun x => p x || p (toUpper x) || p (toLower x).

(** A literal word, case-sensitive and under the i flag. *)
Definition word (s : string) : re :=
  seq (map (fun a => Class (code a)) (lit s)).
Definition wordi (s : string) : re :=
  seq (map (fun a => Class (ci (code a))) (lit s)).

End Regex.

(** ** TextFormatter (the formatter utility class) *)

Module TextFormatter.

Import Regex.

Inductive Priority : Type := high | medium | low.

Inductive Category : Type :=
| experience | technical | education | achievement | leadership | general.

Inductive ItemType : Type := bullet | listItem | description.

Record Item : Type := mkItem
  { itemType : ItemType;
    content : jsstring;
    priority : Priority;
    category : option Category }.

(** A section object: [{type: 'section', title, items}]. *)
Record DocSection : Type :=
  mkSection { title : jsstring; items : list Item }.

(** The object [parseStructuredContent] returns: [{type: 'text', content}],
    [{type: 'sections', content}] or [{type: 'enhanced_list', content}],
    the last one an object from category name to items, keys in insertion
    order. *)
Inductive Document : Type :=
| TextDoc (content : jsval)
| SectionsDoc (content : list DocSection)
| EnhancedListDoc (content : list (Category * list Item)).

(** *** Character classes shared by the patterns *)

Definition quote : char -> bool := code 34.
Definition bulletChar : char := 8226.
Definition bulletMark : char -> bool :=
  anyOf [one "-"; code bulletChar; one "*"].
Definition upper : char -> bool := range "A" "Z".
Definition lower : char -> bool := range "a" "z".
Definition letter : char -> bool := anyOf [lower; upper].
Definition upperOrSpace : char -> bool := anyOf [upper; space].
Definition lowerOrSpace : char -> bool := anyOf [lower; space].
Definition headerTail : char -> bool :=
  anyOf [upper; space; one "&"; one "-"; one "'"].
Definition blank : char -> bool := anyOf [one " "; code 9].
Definition dotOrParen : char -> bool := anyOf [one "."; one ")"].
Definition ws : re := Class space.

(** *** formatAnalysisText, lines 11-44 *)

(* line 17, flags gm *)
Definition markdownHeader : re :=
  seq [Bol true; fromTo 1 6 (Class (one "#")); plus ws].
(* line 20, flag g: two stars, a group of non-stars, two stars *)
Definition boldSpan : re :=
  seq [Class (one "*"); Class (one "*");
       Group 1 (plus (Class (noneOf [one "*"])));
       Class (one "*"); Class (one "*")].
(* line 21, flag g *)
Definition italicSpan : re :=
  seq [Class (one "*"); Group 1 (plus (Class (noneOf [one "*"])));
       Class (one "*")].
(* line 22, flag g *)
Definition codeSpan : re :=
  seq [Class (one "`"); Group 1 (plus (Class (noneOf [one "`"])));
       Class (one "`")].
(* line 25, flag g *)
Definition wideBlank : re := atLeast 3 (Class blank).
(* line 28, flag g *)
Definition manyNewlines : re := atLeast 3 (Class (code 10)).
(* line 31, flags gm *)
Definition bulletStyle : re :=
  seq [Bol true; star ws; Class bulletMark; plus ws].
(* line 32, flags gm *)
Definition numberStyle : re :=
  seq [Bol true; star ws; Group 1 (plus (Class digit)); Class dotOrParen;
       plus ws].
(* line 35, flags gm *)
Definition edgeBlank : re :=
  Alt (seq [Bol true; plus (Class blank)]) (seq [plus (Class blank); Eol true]).
(* line 38, flag g *)
Definition doubleSpace : re := seq [Class (one " "); plus (Class (one " "))].

Definition formatAnalysisText (text : jsstring) : jsstring :=
  if negb (truthy text) then []
  else
    let formatted := text in
    let formatted := replaceAll markdownHeader [] formatted in
    let formatted := replaceAll boldSpan [Ref 1] formatted in
    let formatted := replaceAll italicSpan [Ref 1] formatted in
    let formatted := replaceAll codeSpan [Ref 1] formatted in
    let formatted := replaceAll wideBlank [Text (lit " ")] formatted in
    let formatted :=
      replaceAll manyNewlines [Text [10; 10]] formatted in
    let formatted :=
      replaceAll bulletStyle [Text [bulletChar; 32]] formatted in
    let formatted :=
      replaceAll numberStyle [Ref 1; Text (lit ". ")] formatted in
    let formatted := replaceAll edgeBlank [] formatted in
    let formatted := replaceAll doubleSpace [Text (lit " ")] formatted in
    trim formatted.

(** *** filterUnwantedContent, lines 1033-1090 *)

Definition projectVerb : re :=
  alt [seq [wordi "Develope"; opt (Class (ci (one "d")))];
       seq [wordi "Create"; opt (Class (ci (one "d")))];
       seq [wordi "Buil"; opt (Class (ci (one "t")))];
       seq [wordi "Designe"; opt (Class (ci (one "d")))]].

(** The ten exclusion patterns of [dynamicPatterns], in order. *)
Definition dynamicPatterns : list re :=
  [ (* line 1041, flags gmi *)
    seq [Bol true; opt (Class quote); atLeast 3 (Class (ci upperOrSpace));
         alt [wordi "FOR"; wordi "TO"; wordi "OF"; wordi "WITH"; wordi "IN";
              wordi "USING"; wordi "BY"];
         plus ws; atLeast 3 (Class (ci upperOrSpace)); opt (Class quote);
         star ws; Eol true];
    (* line 1044, flags gmi *)
    seq [Bol true; opt (Class quote);
         atLeast 2 (seq [plus (Class (ci upper)); star ws]);
         projectVerb; plus ws; fromTo 5 50 (Class (ci lowerOrSpace));
         star ws; opt (Class quote); star ws; Eol true];
    (* line 1047, flag g *)
    seq [WordBoundary; plus (Class letter);
         fromTo 1 3 (seq [plus ws; Class letter]);
         plus ws; plus (Class letter); WordBoundary];
    (* line 1050, flags gmi *)
    seq [Bol true; star ws;
         alt [seq [wordi "LLM"; star (Class digit)]; wordi "API"; wordi "SDK";
              wordi "ML"; wordi "AI"; wordi "NLP"; wordi "SQL"];
         star ws; fromTo 0 10 (Class (ci lowerOrSpace)); star ws; Eol true];
    (* line 1053, flags gmi *)
    seq [Bol true; opt (Class quote); projectVerb; plus ws;
         opt (alt [wordi "a"; wordi "an"; wordi "the"]); plus ws;
         fromTo 5 30 (Class (noneOf [one "."])); star ws; opt (Class quote);
         star ws; Eol true];
    (* line 1056, flags gmi *)
    seq [star (Class dot);
         alt [wordi "This single"; wordi "powerful statement";
              wordi "reveals a candidate"];
         star (Class dot); Eol true];
    (* line 1057, flags gmi *)
    seq [star (Class dot);
         alt [wordi "Here's a structured breakdown";
              wordi "structured analysis"];
         star (Class dot); Eol true];
    (* line 1058, flags gmi *)
    seq [star (Class dot); wordi "demonstrates hands-on experience with";
         star (Class dot); Eol true];
    (* line 1061, flags gm *)
    seq [Bol true; Class quote; fromTo 5 50 (Class (noneOf [quote]));
         Class quote; star ws; Eol true];
    (* line 1064, flags gmi *)
    seq [Bol true; star ws;
         atLeast 2 (seq [atLeast 2 (Class (ci upper)); star ws]);
         fromTo 0 20 (Class (ci lowerOrSpace)); star ws; Eol true] ].

(* line 1077, no flag *)
Definition bulletLead : re := seq [Bol false; Class bulletMark; plus ws].
(* line 1078, no flag *)
Definition allCapsLine : re :=
  seq [Bol false; atLeast 3 (Class upperOrSpace); Eol false].
(* line 1085, flags gm *)
Definition emptyLine : re := seq [Bol true; star ws; Eol true].

Definition meaningfulLine (line : jsstring) : bool :=
  let trimmed := trim line in
  if negb (truthy trimmed) then false
  else if (len trimmed <? 15) && negb (test bulletLead trimmed) then false
  else if test allCapsLine trimmed then false
  else true.

Definition filterUnwantedContent (text : jsstring) : jsstring :=
  if negb (truthy text) then []
  else
    let filtered :=
      fold_left (fun filtered pattern => replaceAll pattern [] filtered)
                dynamicPatterns text in
    let lines := splitOn 10 filtered in
    let meaningfulLines := filter meaningfulLine lines in
    let filtered := join [10] meaningfulLines in
    let filtered := replaceAll emptyLine [] filtered in
    let filtered := replaceAll manyNewlines [Text [10; 10]] filtered in
    trim filtered.

(** *** assessContentPriority and categorizeContent, lines 329-350 *)

Definition keyword (alternatives : list re) : re :=
  seq [WordBoundary; alt alternatives; WordBoundary].

Definition optS (w : string) : re := seq [wordi w; opt (Class (ci (one "s")))].

(* line 330, flag i *)
Definition highPriorityKeywords : re :=
  keyword (map wordi
    ["achieved"; "increased"; "improved"; "reduced"; "led"; "managed";
     "developed"; "created"; "designed"; "implemented"; "optimized";
     "streamlined"; "delivered"; "executed"; "launched"; "built"]%string).
(* line 331, flag i *)
Definition mediumPriorityKeywords : re :=
  keyword (map wordi
    ["experience"; "skills"; "knowledge"; "proficient"; "familiar"; "worked";
     "assisted"; "participated"; "collaborated"; "supported"]%string).

Definition assessContentPriority (content : jsstring) : Priority :=
  if test highPriorityKeywords content then high
  else if test mediumPriorityKeywords content then medium
  else low.

(* lines 344-348, flag i *)
Definition experienceWords : re :=
  keyword [optS "year"; wordi "experience"; wordi "background"].
Definition technicalWords : re :=
  keyword [optS "skill"; wordi "technology"; wordi "programming";
           wordi "software"; optS "tool"].
Definition educationWords : re :=
  keyword (map wordi
    ["education"; "degree"; "certification"; "training"; "course"]%string).
Definition achievementWords : re :=
  keyword (map wordi
    ["achieved"; "accomplished"; "delivered"; "increased";
     "improved"]%string).
Definition leadershipWords : re :=
  keyword (map wordi
    ["leadership"; "managed"; "led"; "team"; "project"]%string).

Definition categorizeContent (content : jsstring) : Category :=
  if test experienceWords content then experience
  else if test technicalWords content then technical
  else if test educationWords content then education
  else if test achievementWords content then achievement
  else if test leadershipWords content then leadership
  else general.

(** *** convertToBulletPoints, lines 94-157 *)

(* line 100 *)
Definition blankLineGap : re := seq [Class (code 10); star ws; Class (code 10)].
(* lines 108 and 135: already a bullet, a numbered item or a header *)
Definition headerShape : re :=
  seq [Class upper; atLeast 3 (Class headerTail);
       Alt (Class (one ":")) (Eol false)].
Definition alreadyStructured : re :=
  seq [Bol false;
       alt [Class bulletMark; seq [plus (Class digit); Class dotOrParen];
            headerShape]].
(* lines 115, 141 and 218: white space that follows a sentence terminator *)
Definition sentenceGap : re :=
  seq [LookBehind (anyOf [one "."; one "!"; one "?"]); plus ws].
(* line 122 *)
Definition startsWithBullet : re := seq [Bol false; Class bulletMark].

Definition nonEmpty (s : jsstring) : bool := 0 <? len s.

Definition trimmedLines (text : jsstring) : list jsstring :=
  filter nonEmpty (map trim (splitOn 10 text)).

Definition longSentences (line : jsstring) : list jsstring :=
  filter (fun s => 10 <? len (trim s)) (split sentenceGap line).

Definition bulleted (s : jsstring) : jsstring := [bulletChar; 32] ++ s.

Definition bulletSentences (sentences : list jsstring) : jsstring :=
  join [10] (map (fun sentence => bulleted (trim sentence)) sentences).

(** The callback of lines 106-127; [index] and [count] are the position of
    the line in its segment and the number of lines of the segment. *)
Definition convertSegmentLine (count : Z) (index : Z) (line : jsstring)
    : jsstring :=
  if test alreadyStructured line then line
  else
    let sentences := longSentences line in
    if (30 <? len line) && (index =? 0) && (count =? 1)
       && (1 <? len sentences)
    then bulletSentences sentences
    else if (15 <? len line) && negb (test startsWithBullet line)
    then bulleted line
    else line.

Fixpoint mapIndexed {A B : Type} (f : Z -> A -> B) (i : Z) (l : list A)
    : list B :=
  match l with
  | [] => []
  | a :: r => f i a :: mapIndexed f (i + 1) r
  end.

(** The callback of lines 133-153. *)
Definition convertLine (line : jsstring) : jsstring :=
  if test alreadyStructured line then line
  else
    let sentences := longSentences line in
    if (80 <? len line) && (1 <? len sentences)
    then bulletSentences sentences
    else if 15 <? len line then bulleted line
    else line.

Definition convertToBulletPoints (text : jsstring) : jsstring :=
  if negb (truthy text) then []
  else
    let segments :=
      filter (fun segment => 0 <? len (trim segment))
             (split blankLineGap text) in
    if 1 <? len segments then
      join [10; 10]
        (map (fun segment =>
                let lines := trimmedLines segment in
                join [10] (mapIndexed (convertSegmentLine (len lines)) 0 lines))
             segments)
    else
      let lines := trimmedLines text in
      join [10] (map convertLine lines).

(** *** parseAsBulletList, lines 164-180 *)

(* line 167 *)
Definition bulletPrefix : re := seq [Bol false; Class bulletMark; star ws].

Definition parseAsBulletList (lines : list jsstring) : Document :=
  let items :=
    map (fun line =>
           let content := trim (replaceFirst bulletPrefix [] line) in
           mkItem bullet content (assessContentPriority content)
                  (Some (categorizeContent content)))
        lines in
  EnhancedListDoc [(general, items)].

(** *** parseStructuredSections, lines 187-247 *)

(* line 192 *)
Definition sectionHeader : re :=
  seq [Bol false; opt (seq [plus (Class digit); Class (one "."); star ws]);
       headerShape].
(* lines 193 and 206 *)
Definition bulletOrNumber : re :=
  seq [Bol false;
       Alt (Class bulletMark) (seq [plus (Class digit); Class dotOrParen]);
       plus ws].
(* line 202 *)
Definition numberPrefix : re :=
  seq [Bol false; plus (Class digit); Class (one "."); star ws].
Definition trailingColon : re := seq [Class (one ":"); Eol false].
(* line 214 *)
Definition bulletsAndSpaces : re :=
  seq [Bol false; star (Class (anyOf [bulletMark; space]))].

Definition pushItems (s : DocSection) (new : list Item) : DocSection :=
  mkSection (title s) (items s ++ new).

(** The body of the [forEach] of lines 191-234, on the pair of the finished
    sections and the current one. *)
Definition sectionStep (state : list DocSection * option DocSection)
    (line : jsstring) : list DocSection * option DocSection :=
  let (sections, currentSection) := state in
  let isHeader := test sectionHeader line in
  let isBullet := test bulletOrNumber line in
  if isHeader then
    (match currentSection with
     | Some s => sections ++ [s]
     | None => sections
     end,
     Some (mkSection
             (trim (replaceFirst trailingColon []
                      (replaceFirst numberPrefix [] line)))
             []))
  else
    match currentSection with
    | None => state
    | Some s =>
      if isBullet then
        let content := trim (replaceFirst bulletOrNumber [] line) in
        (sections,
         Some (pushItems s
                 [mkItem bullet content (assessContentPriority content) None]))
      else if 15 <? len line then
        let bulletContent := trim (replaceFirst bulletsAndSpaces [] line) in
        if 100 <? len bulletContent then
          (sections,
           Some (pushItems s
                   (map (fun sentence =>
                           mkItem bullet (trim sentence)
                                  (assessContentPriority sentence) None)
                        (longSentences bulletContent))))
        else
          (sections,
           Some (pushItems s
                   [mkItem bullet bulletContent
                           (assessContentPriority bulletContent) None]))
      else state
    end.

Definition forceBullet (i : Item) : Item :=
  mkItem bullet (content i) (priority i) (category i).

Definition parseStructuredSections (lines : list jsstring) : Document :=
  let (sections, currentSection) := fold_left sectionStep lines ([], None) in
  let sections :=
    match currentSection with
    | Some s => sections ++ [s]
    | None => sections
    end in
  SectionsDoc
    (map (fun s => mkSection (title s) (map forceBullet (items s))) sections).

(** *** groupSimilarContent, lines 357-375 *)

Definition Category_eqb (a b : Category) : bool :=
  match a, b with
  | experience, experience | technical, technical | education, education
  | achievement, achievement | leadership, leadership | general, general =>
    true
  | _, _ => false
  end.

(** [groups[category].push(item)], creating the key on first use. *)
Fixpoint pushGroup (k : Category) (i : Item)
    (groups : list (Category * list Item)) : list (Category * list Item) :=
  match groups with
  | [] => [(k, [i])]
  | (k', l) :: r =>
    if Category_eqb k k' then (k', l ++ [i]) :: r
    else (k', l) :: pushGroup k i r
  end.

Definition priorityOrder (p : Priority) : Z :=
  match p with high => 3 | medium => 2 | low => 1 end.

(** [Array.prototype.sort] is stable; the comparator of lines 368-371 puts
    [a] before [b] when the rank of [a] is greater. *)
Fixpoint insertByPriority (i : Item) (sorted : list Item) : list Item :=
  match sorted with
  | [] => [i]
  | j :: r =>
    if priorityOrder (priority j) <? priorityOrder (priority i)
    then i :: sorted
    else j :: insertByPriority i r
  end.

Definition sortByPriority (l : list Item) : list Item :=
  fold_left (fun sorted i => insertByPriority i sorted) l [].

Definition groupSimilarContent (l : list Item)
    : list (Category * list Item) :=
  let groups :=
    fold_left (fun groups item =>
                 let category :=
                   match category item with
                   | Some c => c
                   | None => general
                   end in
                 pushGroup category item groups)
              l [] in
  map (fun g => (fst g, sortByPriority (snd g))) groups.

(** *** parseListContent, lines 255-286 *)

Definition parseListContent (lines : list jsstring) (listPattern : re)
    : Document :=
  let processedItems :=
    flat_map (fun line =>
                if test listPattern line then
                  let content := trim (replaceFirst listPattern [] line) in
                  let priority := assessContentPriority content in
                  [mkItem listItem content priority
                          (Some (categorizeContent content))]
                else if 10 <? len line then
                  [mkItem description line (assessContentPriority line) None]
                else [])
             lines in
  EnhancedListDoc (groupSimilarContent processedItems).

(** *** parseStructuredContent, lines 51-87 *)

(* line 67, flag i *)
Definition listPattern : re :=
  seq [Bol false;
       alt [Class (ci bulletMark);
            seq [plus (Class digit); Class (ci dotOrParen)];
            seq [Class (ci lower); Class (ci dotOrParen)]];
       plus ws].
(* line 68 *)
Definition headerPattern : re := seq [Bol false; headerShape].
(* line 69 *)
Definition numberedHeaderPattern : re :=
  seq [Bol false; plus (Class digit); Class (one "."); star ws; Class upper;
       atLeast 3 (Class headerTail)].

Definition noContent : jsval := JString (lit "No content available").
Definition notProcessed : jsval :=
  JString (lit "Content could not be processed").

(** Lines 55-64: the cleaned, bulletized, trimmed, non-empty lines; [None]
    when cleaning leaves nothing. *)
Definition structuredLines (text : jsstring) : option (list jsstring) :=
  let cleanedText := filterUnwantedContent (formatAnalysisText text) in
  if negb (truthy cleanedText) || (len (trim cleanedText) =? 0) then None
  else
    let bulletizedText := convertToBulletPoints cleanedText in
    Some (trimmedLines bulletizedText).

Definition listLines (lines : list jsstring) : list jsstring :=
  filter (test listPattern) lines.
Definition headerLines (lines : list jsstring) : list jsstring :=
  filter (fun line => test headerPattern line
                      || test numberedHeaderPattern line) lines.
Definition hasHeaders (lines : list jsstring) : bool :=
  0 <? len (headerLines lines).
Definition hasList (lines : list jsstring) : bool :=
  1 <? len (listLines lines).

Definition parseStructuredContent (text : jsval) : Document :=
  match text with
  | JString s =>
    if negb (truthy s) then TextDoc noContent
    else
      match structuredLines s with
      | None => TextDoc notProcessed
      | Some lines =>
        if hasHeaders lines then parseStructuredSections lines
        else if hasList lines || (2 <? len lines)
        then parseListContent lines listPattern
        else parseAsBulletList lines
      end
  | _ => TextDoc (if truthyVal text then text else noContent)
  end.

End TextFormatter.

(** ** Vocabulary of the properties *)

(** The code unit at index [p], if any. *)
Definition charAt (s : jsstring) (p : Z) : option char :=
  if p <? 0 then None else nth_error s (Z.to_nat p).

Definition isTerminator (c : char) : bool :=
  (c =? ch ".") || (c =? ch "?") || (c =? ch "!").

Definition terminatorAt (text : jsstring) (p : Z) : Prop :=
  exists c, charAt text p = Some c /\ isTerminator c = true.


(** Index [p] holds a character that is not white space. *)
Definition visibleAt (text : jsstring) (p : Z) : Prop :=
  exists c, charAt text p = Some c /\ isWhiteSpace c = false.


(** A chunk together with the index of [text] it was cut from. *)
Definition placement : Type := (Z * jsstring)%type.

Definition placedIn (text : jsstring) (pl : placement) : Prop :=
  0 <= fst pl /\ slice text (fst pl) (fst pl + len (snd pl)) = snd pl.

Definition covers (pl : placement) (p : Z) : Prop :=
  fst pl <= p < fst pl + len (snd pl).

Definition ascending (l : list Z) : Prop :=
  forall i j x y, (i <= j)%nat ->
    nth_error l i = Some x -> nth_error l j = Some y -> x <= y.

(** The text from index [u] on. *)
Definition suffix (text : jsstring) (u : Z) : jsstring :=
  skipn (Z.to_nat u) text.

(** The characters of a string that are not white space, in order. *)
Definition visible (s : jsstring) : jsstring :=
  filter (fun c => negb (isWhiteSpace c)) s.

(** Concatenation after removing the overlaps: from each placed chunk the
    part before index [upto], which the chunks before it already gave, is
    dropped. *)
Fixpoint deoverlap (upto : Z) (pl : list placement) : jsstring :=
  match pl with
  | [] => []
  | (o, c) :: r =>
    skipn (Z.to_nat (upto - o)) c ++ deoverlap (Z.max upto (o + len c)) r
  end.

(** The least advance of the cursor in one iteration, and rounded-up
    division. *)
Definition stride (chunkSize overlap : Z) : Z :=
  Z.max 1 (chunkSize / 2 + 1 - overlap).

Definition ceilDiv (a b : Z) : Z := (a + b - 1) / b.

(** The text ["a a a ... a "] with [n] letters, as ["a ".repeat(n)]. *)
Fixpoint zigzag (n : nat) : jsstring :=
  match n with
  | O => []
  | S m => ch "a" :: ch " " :: zigzag m
  end.

(** The greatest index of a sentence terminator at or before [e], as
    [Math.max(sentenceEnd, questionEnd, exclamationEnd)] computes it. *)
Definition lastSentenceEndOf (text : jsstring) (e : Z) : Z :=
  Z.max (Z.max (lastIndexOf (ch ".") text e) (lastIndexOf (ch "?") text e))
        (lastIndexOf (ch "!") text e).

Definition blanks (a : jsstring) : Prop :=
  Forall (fun c => isWhiteSpace c = true) a.

(** A chunk that is not empty and has no white space at either end. *)
Definition trimmedChunk (c : jsstring) : Prop := 0 < len c /\ trim c = c.

(** What holds of the chunks pushed so far when the cursor is at [start]. *)
Record covered_to (text : jsstring) (start : Z) (pl : list placement)
    : Prop := mkCovered
  { cov_placed : Forall (placedIn text) pl;
    cov_truthy : Forall (fun x => truthy (snd x) = true) pl;
    cov_order : ascending (map fst pl);
    cov_gap : forall x q, In x pl -> start <= q < fst x -> ~ visibleAt text q;
    cov_all : forall q, 0 <= q < start -> visibleAt text q ->
                exists x, In x pl /\ covers x q }.

(** *** Inputs of the examples *)

Definition lines3 (a b c : string) : jsstring :=
  lit a ++ [10] ++ lit b ++ [10] ++ lit c.

Definition sampleText : jsstring :=
  lit "Hello world. This is a test! Is it working? yes it is fine.".

Definition headerExample : jsstring :=
  lines3 "EXPERIENCE:" "- Built system X" "- Led team Y".


Definition gradesExample : jsstring :=
  lines3 "GPA: 3.8 of 4.0" "GPA: 3.9 of 4.0" "GPA: 3.7 of 4.0".

(** ** TextFormatter: the rating helpers (lines 773-977) *)

Module TextFormatterRating.

(** A score is a JavaScript number, or is missing: a missing field reads as
    [undefined], which the comparisons of these functions turn into NaN, so
    that [None] stands for both.  A finite number is a rational, and
    comparing it with the integer constants of the source is exact. *)
Definition number := option Q.

(** [x >= c], [x <= c] and [x === c] for a constant [c]. *)
Definition geq (x : number) (c : Q) : bool :=
  match x with
  | Some q => Qle_bool c q
  | None => false
  end.

Definition leq (x : number) (c : Q) : bool :=
  match x with
  | Some q => Qle_bool q c
  | None => false
  end.

Definition strictEq (x : number) (c : Q) : bool :=
  match x with
  | Some q => Qeq_bool q c
  | None => false
  end.

Record Rating := mkRating {
  contentQuality : number;
  structureOrganization : number;
  formattingDesign : number;
  impactLanguage : number;
  atsCompatibility : number;
  totalScore : number
}.

Record GradeInfo := mkGradeInfo {
  letter : jsstring;
  label : jsstring;
  gradeDescription : jsstring;
  color : jsstring;
  bgColor : jsstring;
  textColor : jsstring;
  borderColor : jsstring
}.

Definition getGradeInfo (totalScore : number) : GradeInfo :=
  if geq totalScore 9 then
    mkGradeInfo (lit "A+") (lit "Excellent")
      (lit "Job-ready with competitive advantage") (lit "emerald")
      (lit "bg-emerald-50") (lit "text-emerald-800")
      (lit "border-emerald-200")
  else if geq totalScore 7 then
    mkGradeInfo (lit "B+") (lit "Good")
      (lit "Strong foundation, minor polish needed") (lit "blue")
      (lit "bg-blue-50") (lit "text-blue-800") (lit "border-blue-200")
  else if geq totalScore 5 then
    mkGradeInfo (lit "C") (lit "Average")
      (lit "Needs improvement in several areas") (lit "yellow")
      (lit "bg-yellow-50") (lit "text-yellow-800")
      (lit "border-yellow-200")
  else if geq totalScore 3 then
    mkGradeInfo (lit "D") (lit "Weak")
      (lit "Requires major fixes and improvements") (lit "orange")
      (lit "bg-orange-50") (lit "text-orange-800")
      (lit "border-orange-200")
  else
    mkGradeInfo (lit "F") (lit "Poor") (lit "Needs complete rewrite")
      (lit "red") (lit "bg-red-50") (lit "text-red-800")
      (lit "border-red-200").

Record Insight := mkInsight {
  insightType : jsstring;
  insightText : jsstring
}.

Definition generateRatingInsights (rating : Rating) : list Insight :=
  let insights := [] in
  let insights :=
    insights
    ++ [if geq (contentQuality rating) 2 then
          mkInsight (lit "positive")
            (lit "Strong content with measurable achievements")
        else if strictEq (contentQuality rating) 1 then
          mkInsight (lit "warning")
            (lit "Content needs more quantified results")
        else
          mkInsight (lit "critical")
            (lit "Content lacks impact and specificity")] in
  let insights :=
    insights
    ++ [if geq (atsCompatibility rating) 2 then
          mkInsight (lit "positive") (lit "Excellent ATS compatibility")
        else if strictEq (atsCompatibility rating) 1 then
          mkInsight (lit "warning") (lit "Minor ATS optimization needed")
        else
          mkInsight (lit "critical") (lit "High risk of ATS rejection")] in
  insights
  ++ [if geq (totalScore rating) 8 then
        mkInsight (lit "success")
          (lit "Resume is market-ready and competitive")
      else if geq (totalScore rating) 6 then
        mkInsight (lit "info") (lit "Good foundation, focus on weak areas")
      else
        mkInsight (lit "warning")
          (lit "Significant improvements needed before job applications")].

(** The keys of the table of categories, and [rating[category.key]]. *)
Inductive Key : Type :=
| ContentQuality
| StructureOrganization
| FormattingDesign
| ImpactLanguage
| AtsCompatibility.

Definition get (rating : Rating) (key : Key) : number :=
  match key with
  | ContentQuality => contentQuality rating
  | StructureOrganization => structureOrganization rating
  | FormattingDesign => formattingDesign rating
  | ImpactLanguage => impactLanguage rating
  | AtsCompatibility => atsCompatibility rating
  end.

Definition categories : list (Key * jsstring) :=
  [ (ContentQuality, lit "Content Quality");
    (StructureOrganization, lit "Structure & Organization");
    (FormattingDesign, lit "Formatting & Design");
    (ImpactLanguage, lit "Impact & Language");
    (AtsCompatibility, lit "ATS Compatibility") ].

Definition identifyRatingStrengths (rating : Rating) : list jsstring :=
  fold_left (fun strengths category =>
               if geq (get rating (fst category)) 2
               then strengths ++ [snd category]
               else strengths)
            categories [].

Record Weakness := mkWeakness {
  area : jsstring;
  score : number;
  weaknessPriority : jsstring
}.

(** [a - b], and whether a comparator result is negative (NaN is not). *)
Definition minus (a b : number) : number :=
  match a, b with
  | Some x, Some y => Some (x - y)%Q
  | _, _ => None
  end.

Definition negative (x : number) : bool :=
  match x with
  | Some q => negb (Qle_bool 0 q)
  | None => false
  end.

(** [Array.prototype.sort] is stable: every element is put behind the
    elements that do not compare greater than it. *)
Fixpoint insertSorted {A : Type} (compare : A -> A -> number) (x : A)
    (sorted : list A) : list A :=
  match sorted with
  | [] => [x]
  | y :: r =>
    if negative (compare x y) then x :: y :: r
    else y :: insertSorted compare x r
  end.

Definition sort {A : Type} (compare : A -> A -> number) (l : list A)
    : list A :=
  fold_left (fun sorted x => insertSorted compare x sorted) l [].

Definition identifyRatingWeaknesses (rating : Rating) : list Weakness :=
  let weaknesses :=
    fold_left (fun weaknesses category =>
                 if leq (get rating (fst category)) 1
                 then weaknesses
                      ++ [mkWeakness (snd category)
                            (get rating (fst category))
                            (if strictEq (get rating (fst category)) 0
                             then lit "critical" else lit "important")]
                 else weaknesses)
              categories [] in
  sort (fun a b => minus (score a) (score b)) weaknesses.

Definition suggestNextSteps (rating : Rating) : list jsstring :=
  let steps := [] in
  let steps :=
    if leq (contentQuality rating) 1
    then
      steps
      ++ [lit "Add quantifiable achievements and specific results to your experience"]
    else steps in
  let steps :=
    if leq (impactLanguage rating) 1
    then steps ++ [lit "Replace passive language with strong action verbs"]
    else steps in
  let steps :=
    if leq (atsCompatibility rating) 1
    then steps
         ++ [lit "Optimize with industry-specific keywords and improve formatting"]
    else steps in
  let steps :=
    if leq (structureOrganization rating) 1
    then steps
         ++ [lit "Reorganize content with clear sections and logical flow"]
    else steps in
  let steps :=
    if leq (formattingDesign rating) 1
    then steps
         ++ [lit "Improve visual presentation and ensure consistent formatting"]
    else steps in
  if len steps =? 0
  then steps
       ++ [lit "Focus on minor polish and tailoring for specific job applications"]
  else steps.

End TextFormatterRating.

(** ** More built-ins of strings *)

Module JSStrings.

(** [s.startsWith(t)], [s.includes(t)] and [s.endsWith(t)]. *)
Fixpoint startsWith (s t : jsstring) : bool :=
  match t, s with
  | [], _ => true
  | _ :: _, [] => false
  | b :: t', a :: s' => (a =? b) && startsWith s' t'
  end.

Fixpoint includes (s t : jsstring) : bool :=
  startsWith s t
  || match s with
     | [] => false
     | _ :: s' => includes s' t
     end.

Definition endsWith (s t : jsstring) : bool := startsWith (rev s) (rev t).

End JSStrings.

(** ** The backend: extractBasicSections (memoryManager.js, lines 446-496)

    [String.prototype.toLowerCase] maps the whole of Unicode; the functions
    that call it are embedded over an arbitrary [toLowerCase]. *)

Module BackendSections.

Import Regex.

(** The keys of the [sections] object. *)
Inductive Field : Type :=
| Contact | Summary | Experience | Education | Skills | Other.

Definition Field_eqb (a b : Field) : bool :=
  match a, b with
  | Contact, Contact | Summary, Summary | Experience, Experience
  | Education, Education | Skills, Skills | Other, Other => true
  | _, _ => false
  end.

(** The [sections] object: a string for each key. *)
Definition Sections : Type := Field -> jsstring.

Definition emptySections : Sections := fun _ => [].

(** [sections[key] += text]. *)
Definition append (sections : Sections) (key : Field) (text : jsstring)
    : Sections :=
  fun k => if Field_eqb k key then sections k ++ text else sections k.

(** The patterns, in the order of [Object.entries]. *)
Definition sectionPatterns : list (Field * re) :=
  [ (Contact, alt [wordi "contact"; wordi "personal"; wordi "address";
                   wordi "phone"; wordi "email"]);
    (Summary, alt [wordi "summary"; wordi "objective"; wordi "profile";
                   wordi "about"]);
    (Experience, alt [wordi "experience"; wordi "work"; wordi "employment";
                      wordi "career"; wordi "professional"]);
    (Education, alt [wordi "education"; wordi "academic"; wordi "degree";
                     wordi "university"; wordi "college"]);
    (Skills, alt [wordi "skills"; wordi "technical"; wordi "competencies";
                  wordi "expertise"; wordi "technologies"]) ].

(** /\n\s*\n/ and /[@.]/ *)
Definition paragraphBreak : re :=
  seq [Class (code 10); star (Class space); Class (code 10)].

Definition atOrDot : re := Class (anyOf [one "@"; one "."]).

Definition paragraphsOf (text : jsstring) : list jsstring :=
  filter (fun p => truthy (trim p)) (split paragraphBreak text).

Section WithToLowerCase.

Variable toLowerCase : jsstring -> jsstring.

(** The [for ... of] loop of lines 474-481: the first section whose test
    succeeds. *)
Fixpoint assign (paragraph lowerParagraph : jsstring)
    (entries : list (Field * re)) : option Field :=
  match entries with
  | [] => None
  | (section, pattern) :: rest =>
    if test pattern lowerParagraph
       || (Field_eqb section Contact && test atOrDot paragraph)
    then Some section
    else assign paragraph lowerParagraph rest
  end.

Definition place (sections : Sections) (paragraph : jsstring) : Sections :=
  let lowerParagraph := toLowerCase paragraph in
  match assign paragraph lowerParagraph sectionPatterns with
  | Some section => append sections section (paragraph ++ [10; 10])
  | None => append sections Other (paragraph ++ [10; 10])
  end.

Definition extractBasicSections (text : jsstring) : Sections :=
  let sections := fold_left place (paragraphsOf text) emptySections in
  fun key => trim (sections key).

End WithToLowerCase.

End BackendSections.

(** ** TextFormatter.categorizeImprovements (lines 832-852) *)

Module TextFormatterImprovements.

Import JSStrings.

Record Improvements := mkImprovements {
  critical : list jsstring;
  important : list jsstring;
  minor : list jsstring
}.

Section WithToLowerCase.

Variable toLowerCase : jsstring -> jsstring.

Definition isCritical (improvement : jsstring) : bool :=
  let text := toLowerCase improvement in
  includes text (lit "missing") || includes text (lit "lacks")
  || includes text (lit "no quantifiable") || includes text (lit "weak").

Definition isImportant (improvement : jsstring) : bool :=
  let text := toLowerCase improvement in
  includes text (lit "improve") || includes text (lit "enhance")
  || includes text (lit "better") || includes text (lit "add").

Definition categorizeImprovements (improvements : list jsstring)
    : Improvements :=
  fold_left (fun categories improvement =>
               if isCritical improvement then
                 mkImprovements (critical categories ++ [improvement])
                                (important categories) (minor categories)
               else if isImportant improvement then
                 mkImprovements (critical categories)
                                (important categories ++ [improvement])
                                (minor categories)
               else
                 mkImprovements (critical categories)
                                (important categories)
                                (minor categories ++ [improvement]))
            improvements (mkImprovements [] [] []).

End WithToLowerCase.

End TextFormatterImprovements.

(** ** OptimizedDocumentProcessor: validateFile and getFileType
    (optimizedDocumentProcessor.js, lines 132-165 and 575-589) *)

Module FileValidation.

Import JSStrings.

(** The fields of a [File] the two functions read; [size] is a number of
    bytes. *)
Record File := mkFile {
  name : jsstring;
  size : Z;
  type : jsstring
}.

Record Validation := mkValidation {
  isValid : bool;
  errors : list jsstring;
  fileType : jsstring
}.

(** The decimal digits of a natural number. *)
Fixpoint digitsFrom (fuel : nat) (n : Z) (acc : jsstring) : jsstring :=
  match fuel with
  | O => acc
  | S fuel' =>
    let acc' := (48 + n mod 10) :: acc in
    if n <? 10 then acc' else digitsFrom fuel' (n / 10) acc'
  end.

Definition digits (n : Z) : jsstring := digitsFrom (S (Z.to_nat n)) n [].

(** [(size / 1024 / 1024).toFixed(2)] for a size of at least 0 and less
    than 2^53 bytes: the two divisions are exact, and [toFixed] rounds
    the quotient to hundredths, a half upwards. *)
Definition megabytes (size : Z) : jsstring :=
  let hundredths := (200 * size + 1048576) / 2097152 in
  digits (hundredths / 100) ++ [46]
  ++ [48 + hundredths / 10 mod 10; 48 + hundredths mod 10].

Definition maxSize : Z := 50 * 1024 * 1024.

Definition pdfMime : jsstring := lit "application/pdf".
Definition docxMime : jsstring :=
  lit "application/vnd.openxmlformats-officedocument.wordprocessingml.document".

Section WithToLowerCase.

Variable toLowerCase : jsstring -> jsstring.

Definition validateFile (file : File) : Validation :=
  let errors := [] in
  let errors :=
    if maxSize <? size file
    then errors
         ++ [lit "File size must be less than 50MB. Current size: "
             ++ megabytes (size file) ++ lit "MB"]
    else errors in
  let errors :=
    if size file =? 0 then errors ++ [lit "File cannot be empty"]
    else errors in
  let fileName := toLowerCase (name file) in
  let mimeType := toLowerCase (type file) in
  let isPDF := eqb mimeType pdfMime || endsWith fileName (lit ".pdf") in
  let isDOCX :=
    eqb mimeType docxMime || endsWith fileName (lit ".docx")
    || endsWith fileName (lit ".doc") in
  let errors :=
    if negb isPDF && negb isDOCX
    then errors
         ++ [lit "File must be a PDF (.pdf) or Word document (.docx, .doc)"]
    else errors in
  mkValidation (len errors =? 0) errors
    (if isPDF then lit "pdf" else if isDOCX then lit "docx"
     else lit "unknown").

Definition getFileType (file : File) : jsstring :=
  let fileName := toLowerCase (name file) in
  let mimeType := toLowerCase (type file) in
  if eqb mimeType pdfMime || endsWith fileName (lit ".pdf") then lit "pdf"
  else if eqb mimeType docxMime || endsWith fileName (lit ".docx")
          || endsWith fileName (lit ".doc")
  then lit "docx"
  else lit "unknown".

End WithToLowerCase.

End FileValidation.

(** ** TextFormatter.formatJobTitles (lines 614-651) *)

Module TextFormatterJobs.

Import Regex JSStrings.

(** /^(CURRENT|GROWTH|DIFFERENT|EMERGING)/i *)
Definition sectionWord : re :=
  seq [Bol false;
       Group 1 (alt [wordi "CURRENT"; wordi "GROWTH"; wordi "DIFFERENT";
                     wordi "EMERGING"])].

(** /^[0-9]+\.\s*/, /^[-•*]\s*/ and /^[:−]\s*/, the last one with the
    minus sign U+2212. *)
Definition leadingNumber : re :=
  seq [Bol false; plus (Class digit); Class (one "."); star (Class space)].

Definition leadingBullet : re :=
  seq [Bol false; Class (anyOf [one "-"; code 8226; one "*"]);
       star (Class space)].

Definition leadingColon : re :=
  seq [Bol false; Class (anyOf [one ":"; code 8722]); star (Class space)].

(** /^(positions?|roles?|jobs?)$/i *)
Definition metaWord : re :=
  seq [Bol false;
       Group 1 (alt [Seq (wordi "position") (opt (Class (ci (one "s"))));
                     Seq (wordi "role") (opt (Class (ci (one "s"))));
                     Seq (wordi "job") (opt (Class (ci (one "s"))))]);
       Eol false].

Definition cleanTitle (trimmed : jsstring) : jsstring :=
  trim (replaceFirst leadingColon []
          (replaceFirst leadingBullet []
             (replaceFirst leadingNumber [] trimmed))).

(** The argument is a string here; for [null] and [undefined] the guard of
    line 615 returns the empty array, as it does for the empty string. *)
Definition formatJobTitles (jobTitles : jsstring) : list jsstring :=
  if negb (truthy jobTitles) then []
  else
    let lines := splitOn 10 jobTitles in
    fold_left (fun titles line =>
                 let trimmed := trim line in
                 if test sectionWord trimmed then titles
                 else if negb (truthy trimmed)
                         || includes trimmed (lit "[")
                         || includes trimmed (lit "]")
                         || includes trimmed (lit "List")
                 then titles
                 else
                   let cleaned := cleanTitle trimmed in
                   if (3 <? len cleaned) && (len cleaned <? 100)
                      && negb (test metaWord cleaned)
                      && negb (includes cleaned (lit "etc"))
                      && negb (includes cleaned (lit "..."))
                   then titles ++ [cleaned]
                   else titles)
              lines [].

End TextFormatterJobs.

(** ** MemoryManager: the usage history and the recommended chunk size
    (memoryManager.js, lines 6-46 and 204-219) *)

Module MemoryMonitor.

(** [performance.memory], and what a call reads from its environment:
    the heap figures, if the browser has them, and [Date.now()]. *)
Record Heap := mkHeap {
  usedJSHeapSize : Z;
  totalJSHeapSize : Z;
  jsHeapSizeLimit : Z
}.

Record Env := mkEnv {
  memory : option Heap;
  now : Z
}.

(** [Math.round(bytes / 1024 / 1024)]: the divisions by a power of two are
    exact, and [Math.round] rounds a half upwards. *)
Definition roundMB (bytes : Z) : Z := (bytes + 524288) / 1048576.

(** [a.slice(-n)]: the last [n] elements. *)
Definition sliceLast {A : Type} (n : nat) (a : list A) : list A :=
  skipn (List.length a - n) a.

Section WithPercentage.

(** [Math.round((used / limit) * 100)] is a floating-point computation;
    the functions embedded here store it and do not look at it. *)
Variable Percentage : Type.
Variable percentage : Z -> Z -> Percentage.

Record MemInfo := mkMemInfo {
  used : Z;
  total : Z;
  limit : Z;
  usedMB : Z;
  totalMB : Z;
  limitMB : Z;
  usagePercentage : Percentage;
  timestamp : Z
}.

(** [{supported: false, message}] or [{supported: true, ...memInfo}]. *)
Inductive Usage : Type :=
| Unsupported (message : jsstring)
| Supported (memInfo : MemInfo).

(** The state is [this.memoryUsageHistory]. *)
Definition getMemoryUsage (env : Env) (memoryUsageHistory : list MemInfo)
    : Usage * list MemInfo :=
  match memory env with
  | None =>
    (Unsupported (lit "Memory API not supported in this browser"),
     memoryUsageHistory)
  | Some heap =>
    let memInfo :=
      mkMemInfo (usedJSHeapSize heap) (totalJSHeapSize heap)
        (jsHeapSizeLimit heap) (roundMB (usedJSHeapSize heap))
        (roundMB (totalJSHeapSize heap)) (roundMB (jsHeapSizeLimit heap))
        (percentage (usedJSHeapSize heap) (jsHeapSizeLimit heap))
        (now env) in
    let memoryUsageHistory := memoryUsageHistory ++ [memInfo] in
    let memoryUsageHistory :=
      if 50 <? len memoryUsageHistory
      then sliceLast 50 memoryUsageHistory
      else memoryUsageHistory in
    (Supported memInfo, memoryUsageHistory)
  end.

Definition getRecommendedChunkSize (env : Env)
    (memoryUsageHistory : list MemInfo) : Z * list MemInfo :=
  let (usage, memoryUsageHistory) := getMemoryUsage env memoryUsageHistory in
  match usage with
  | Unsupported _ => (700, memoryUsageHistory)
  | Supported usage =>
    let availableMB := limitMB usage - usedMB usage in
    (if 500 <? availableMB then 1000
     else if 200 <? availableMB then 700
     else if 100 <? availableMB then 500
     else 300,
     memoryUsageHistory)
  end.

End WithPercentage.

Arguments Unsupported {Percentage} message.
Arguments Supported {Percentage} memInfo.
Arguments usedMB {Percentage} m.
Arguments limitMB {Percentage} m.
Arguments getMemoryUsage {Percentage} percentage env memoryUsageHistory.
Arguments getRecommendedChunkSize {Percentage} percentage env
  memoryUsageHistory.

End MemoryMonitor.

(** ** TextFormatter.smartTextChunking (lines 659-727) *)

Module TextFormatterChunking.

Import Regex.

(** /(?<=[.!?])\s+/ *)
Definition afterSentence : re :=
  seq [LookBehind (anyOf [one "."; one "!"; one "?"]); plus (Class space)].

(** /,\s+(?:and|or|but|however|therefore|furthermore|moreover|additionally|
    specifically|particularly)\s+/i *)
Definition conjunctionGap : re :=
  seq [Class (one ","); plus (Class space);
       alt [wordi "and"; wordi "or"; wordi "but"; wordi "however";
            wordi "therefore"; wordi "furthermore"; wordi "moreover";
            wordi "additionally"; wordi "specifically";
            wordi "particularly"];
       plus (Class space)].

(** /,\s+/ and /\s+/ *)
Definition commaGap : re := seq [Class (one ","); plus (Class space)].
Definition blankRun : re := plus (Class space).

(** The two [parts.forEach((part, idx) => ...)] loops of lines 679-687 and
    693-701, on [chunks] and [currentChunk]. *)
Fixpoint placeParts (parts : list jsstring) (idx : Z)
    (chunks : list jsstring) (currentChunk : jsstring)
    : list jsstring * jsstring :=
  match parts with
  | [] => (chunks, currentChunk)
  | part :: rest =>
    if truthy (trim part) then
      if idx =? 0 then placeParts rest (idx + 1) chunks (trim part)
      else placeParts rest (idx + 1) (chunks ++ [trim currentChunk])
                      (trim part)
    else placeParts rest (idx + 1) chunks currentChunk
  end.

(** The [words.forEach] loop of lines 706-713, on [chunks] and
    [tempChunk]. *)
Fixpoint placeWords (words : list jsstring) (maxLength : Z)
    (chunks : list jsstring) (tempChunk : jsstring)
    : list jsstring * jsstring :=
  match words with
  | [] => (chunks, tempChunk)
  | word :: rest =>
    if len (tempChunk ++ [32] ++ word) <=? maxLength then
      placeWords rest maxLength chunks
        (tempChunk ++ (if truthy tempChunk then [32] else []) ++ word)
    else
      placeWords rest maxLength
        (if truthy tempChunk then chunks ++ [trim tempChunk] else chunks)
        word
  end.

(** The callback of [sentences.forEach], lines 666-719. *)
Definition placeSentence (maxLength : Z)
    (state : list jsstring * jsstring) (sentence : jsstring)
    : list jsstring * jsstring :=
  let (chunks, currentChunk) := state in
  let potentialChunk :=
    currentChunk ++ (if truthy currentChunk then [32] else [])
    ++ sentence in
  if len potentialChunk <=? maxLength then (chunks, potentialChunk)
  else if truthy currentChunk then
    (chunks ++ [trim currentChunk], sentence)
  else
    let parts := split conjunctionGap sentence in
    if 1 <? len parts then placeParts parts 0 chunks currentChunk
    else
      let commaParts := split commaGap sentence in
      if 1 <? len commaParts
      then placeParts commaParts 0 chunks currentChunk
      else placeWords (split blankRun sentence) maxLength chunks [].

Definition smartTextChunking (text : jsstring) (maxLength : Z)
    : list jsstring :=
  if negb (truthy text) || (len text <=? maxLength) then [text]
  else
    let sentences := split afterSentence text in
    let (chunks, currentChunk) :=
      fold_left (placeSentence maxLength) sentences ([], []) in
    let chunks :=
      if truthy currentChunk then chunks ++ [trim currentChunk]
      else chunks in
    filterNonEmpty chunks.

End TextFormatterChunking.

(** ** TextFormatter.formatJobRecommendations and
    formatJobCategoriesForDisplay (lines 1097-1188) *)

Module TextFormatterJobCategories.

Import Regex JSStrings.

(** [{name, jobs, description}] *)
Record JobCategory := mkJobCategory {
  name : jsstring;
  jobs : list jsstring;
  description : jsstring
}.

(** [{categories, total, formatted}]; the guard of line 1098 returns an
    object without [formatted]. *)
Record Recommendations := mkRecommendations {
  categories : list JobCategory;
  total : Z;
  formatted : option jsstring
}.

(** The three header patterns of lines 1107-1109, all under the i flag. *)
Definition namedHeader : re :=
  seq [Bol false;
       alt [wordi "CURRENT LEVEL"; wordi "GROWTH"; wordi "ADVANCEMENT";
            wordi "DIFFERENT INDUSTRIES"; wordi "EMERGING ROLES";
            wordi "SIMILAR ROLES"; wordi "SENIOR POSITIONS";
            wordi "ALTERNATIVE CAREERS"]].

Definition roleHeader : re :=
  seq [Bol false;
       atLeast 10 (Class (ci (anyOf [range "A" "Z"; space])));
       alt [Seq (wordi "POSITION") (opt (Class (ci (one "S"))));
            wordi "OPPORTUNITIES";
            Seq (wordi "ROLE") (opt (Class (ci (one "S"))))];
       Class (one ":")].

Definition capitalHeader : re :=
  seq [Bol false;
       atLeast 8 (Class (ci (anyOf [range "A" "Z"; space; one "&"; one "-";
                                    code 39])));
       Class (one ":"); Eol false].

Definition isCategoryHeader (line : jsstring) : bool :=
  test namedHeader line || test roleHeader line || test capitalHeader line.

(** /^[0-9]+\.\s*/ (written /^\d+\.\s*/ on lines 1124 and 1133),
    /^[-•*]\s*/ and /:$/ *)
Definition leadingNumber : re :=
  seq [Bol false; plus (Class digit); Class (one "."); star (Class space)].

Definition leadingBullet : re :=
  seq [Bol false; Class (anyOf [one "-"; code 8226; one "*"]);
       star (Class space)].

Definition finalColon : re := seq [Class (one ":"); Eol false].

Definition isJobTitle (line : jsstring) : bool :=
  test leadingBullet line || test leadingNumber line
  || (negb (includes line (lit "where"))
      && negb (includes line (lit "because")) && (len line <? 100)).

(** The array [categories] holds the category objects, and
    [currentCategory] refers to one of them: a reference is the index of
    the object in the array.  [mutate] changes the object a reference
    points to, where it lies in the array. *)
Definition mutate (ref : nat) (f : JobCategory -> JobCategory)
    (categories : list JobCategory) : list JobCategory :=
  match nth_error categories ref with
  | Some category =>
    firstn ref categories ++ [f category] ++ skipn (S ref) categories
  | None => categories
  end.

Definition pushJob (job : jsstring) (category : JobCategory) : JobCategory :=
  mkJobCategory (name category) (jobs category ++ [job])
                (description category).

Definition setDescription (line : jsstring) (category : JobCategory)
    : JobCategory :=
  mkJobCategory (name category) (jobs category) line.

(** The callback of [lines.forEach], lines 1104-1141. *)
Definition placeLine (state : list JobCategory * option nat)
    (line : jsstring) : list JobCategory * option nat :=
  let (categories, currentCategory) := state in
  if isCategoryHeader line then
    let category :=
      mkJobCategory
        (trim (replaceFirst finalColon []
                 (replaceFirst leadingNumber [] line)))
        [] [] in
    (categories ++ [category], Some (List.length categories))
  else
    match currentCategory with
    | None => state
    | Some ref =>
      if isJobTitle line then
        let cleanTitle :=
          trim (replaceFirst leadingNumber []
                  (replaceFirst leadingBullet [] line)) in
        if (3 <? len cleanTitle) && (len cleanTitle <? 80)
        then (mutate ref (pushJob cleanTitle) categories, currentCategory)
        else state
      else
        match nth_error categories ref with
        | Some current =>
          if (10 <? len line) && negb (truthy (description current))
          then (mutate ref (setDescription line) categories,
                currentCategory)
          else state
        | None => state
        end
    end.

Definition formatJobCategoriesForDisplay (categories : list JobCategory)
    : jsstring :=
  if len categories =? 0 then []
  else
    let formatted :=
      fst (fold_left
             (fun '(formatted, index) category =>
                let formatted :=
                  if 0 <? index then formatted ++ [10; 10] else formatted in
                let formatted := formatted ++ name category ++ [10] in
                let formatted :=
                  if truthy (description category)
                  then formatted ++ description category ++ [10; 10]
                  else formatted in
                (fold_left (fun formatted job =>
                              formatted ++ [8226; 32] ++ job ++ [10])
                           (jobs category) formatted,
                 index + 1))
             categories ([], 0)) in
    trim formatted.

Definition linesOf (jobTitles : jsstring) : list jsstring :=
  filter (fun line => 0 <? len line) (map trim (splitOn 10 jobTitles)).

(** The argument is a string here; [null] and [undefined] take the guard
    of line 1098, as the empty string does. *)
Definition formatJobRecommendations (jobTitles : jsstring)
    : Recommendations :=
  if negb (truthy jobTitles) then mkRecommendations [] 0 None
  else
    let lines := linesOf jobTitles in
    let (categories, _) := fold_left placeLine lines ([], None) in
    let validCategories :=
      filter (fun cat => 0 <? len (jobs cat)) categories in
    let totalJobs :=
      fold_left (fun sum cat => sum + len (jobs cat)) validCategories 0 in
    mkRecommendations validCategories totalJobs
      (Some (formatJobCategoriesForDisplay validCategories)).

End TextFormatterJobCategories.

(** ** Vocabulary of the further properties of the chunkers *)

(** The chunk a window [(start, end)] gives. *)
Definition windowChunk (text : jsstring) (w : Z * Z) : jsstring :=
  trim (substring text (fst w) (snd w)).

(** The windows the loop of the chunkers visits from [start] on. *)
Fixpoint windowsFrom (fuel : nat) (text : jsstring) (chunkSize overlap : Z)
    (start : Z) : list (Z * Z) :=
  match fuel with
  | O => []
  | S fuel' =>
    if start <? len text then
      let end_ := MemoryManager.chunkEnd text chunkSize start in
      let start' := Z.max (start + 1) (end_ - overlap) in
      (start, end_)
      :: (if len text <=? start' then []
          else windowsFrom fuel' text chunkSize overlap start')
    else []
  end.

(** Each window starts after the start of the one before it, at or before
    its end, and shares at most [overlap] characters with it. *)
Fixpoint linked (overlap : Z) (ws : list (Z * Z)) : Prop :=
  match ws with
  | w1 :: ((w2 :: _) as r) =>
    fst w1 < fst w2 <= snd w1 /\ snd w1 - fst w2 <= overlap
    /\ linked overlap r
  | _ => True
  end.

(** The number of characters of the text that lie in a window. *)
Definition heldBy (text : jsstring) (w : Z * Z) : Z :=
  Z.min (snd w) (len text) - fst w.

(** ** Vocabulary of the further properties of the formatter *)

Module FormatterVocabulary.

Import TextFormatter.

Definition Priority_eqb (a b : Priority) : bool :=
  match a, b with
  | high, high | medium, medium | low, low => true
  | _, _ => false
  end.

(** The group an item is filed under: [item.category || 'general']. *)
Definition categoryOf (i : Item) : Category :=
  match category i with
  | Some c => c
  | None => general
  end.

Definition withPriority (p : Priority) (l : list Item) : list Item :=
  filter (fun i => Priority_eqb (priority i) p) l.

Definition inCategory (k : Category) (l : list Item) : list Item :=
  filter (fun i => Category_eqb (categoryOf i) k) l.

(** High items first, then medium, then low, each in the order given. *)
Definition byPriority (l : list Item) : list Item :=
  withPriority high l ++ withPriority medium l ++ withPriority low l.

(** The distinct members of a list, in the order of their first
    occurrence. *)
Fixpoint distinct (l : list Category) : list Category :=
  match l with
  | [] => []
  | k :: r => k :: filter (fun k' => negb (Category_eqb k' k)) (distinct r)
  end.

Definition allItems (groups : list (Category * list Item)) : list Item :=
  List.concat (map snd groups).

(** The title line 202 gives the section a header line opens. *)
Definition headerTitle (line : jsstring) : jsstring :=
  trim (Regex.replaceFirst trailingColon []
          (Regex.replaceFirst numberPrefix [] line)).

Definition sectionsOf (d : Document) : list DocSection :=
  match d with
  | SectionsDoc l => l
  | _ => []
  end.

(** The groups of a table: one group [(k, f k)] for each key. *)
Definition table (f : Category -> list Item) (ks : list Category)
    : list (Category * list Item) :=
  map (fun k => (k, f k)) ks.

(** The groups [pushGroup] has built after the items [l]. *)
Definition grouped (l : list Item) : list (Category * list Item) :=
  table (fun k => inCategory k l) (distinct (map categoryOf l)).

(** One turn of the loop of lines 360-366. *)
Definition groupStep (groups : list (Category * list Item)) (item : Item)
    : list (Category * list Item) :=
  pushGroup (categoryOf item) item groups.

(** [b] may follow [a] in a group: its priority is not higher. *)
Definition notBelow (a b : Item) : Prop :=
  priorityOrder (priority b) <= priorityOrder (priority a).

(** The sections built so far, the open one last. *)
Definition openSections (state : list DocSection * option DocSection)
    : list DocSection :=
  fst state ++ match snd state with Some s => [s] | None => [] end.

(** The items of a section are bullets without a category. *)
Definition plainBullet (i : Item) : Prop :=
  itemType i = bullet /\ category i = None.

(** The three classes of a document, read off the value returned: the
    Sectioned one has type sections; the Enhanced list has type
    enhanced_list, no empty group, and items of type listItem or
    description; the Bullet fallback has type enhanced_list and the single
    group general, of items of type bullet. *)
Definition sectionedDoc (d : Document) : Prop :=
  exists sections, d = SectionsDoc sections.

Definition enhancedListDoc (d : Document) : Prop :=
  exists groups,
    d = EnhancedListDoc groups
    /\ Forall (fun g =>
                 snd g <> []
                 /\ Forall (fun i => itemType i = listItem
                                     \/ itemType i = description) (snd g))
              groups.

Definition bulletFallbackDoc (d : Document) : Prop :=
  exists items,
    d = EnhancedListDoc [(general, items)]
    /\ Forall (fun i => itemType i = bullet) items.

(** Some line matches one of the two header patterns of lines 68-69. *)
Definition someHeader (lines : list jsstring) : Prop :=
  Exists (fun line => Regex.test headerPattern line = true
                      \/ Regex.test numberedHeaderPattern line = true)
         lines.

(** The item [parseListContent] makes of a line it keeps. *)
Definition itemOfLine (pat : Regex.re) (line : jsstring) (i : Item) : Prop :=
  (Regex.test pat line = true
   /\ itemType i = listItem
   /\ content i = trim (Regex.replaceFirst pat [] line)
   /\ priority i = assessContentPriority (content i)
   /\ category i = Some (categorizeContent (content i)))
  \/ (Regex.test pat line = false /\ 10 < len line
      /\ itemType i = description /\ content i = line
      /\ priority i = assessContentPriority line
      /\ category i = None).

(** The lines [parseListContent] keeps: the list lines, and the other
    lines of more than ten characters. *)
Definition keptLines (pat : Regex.re) (lines : list jsstring)
    : list jsstring :=
  filter (fun line => Regex.test pat line || (10 <? len line)) lines.



(** A numbered header that goes on after its title. *)
Definition numberedHeaderExample : jsstring :=
  lines3 "1. SKILLS and tools used daily" "- Python for data pipelines"
         "- SQL for reporting".

Definition numberedHeaderLines : list jsstring :=
  [lit "1. SKILLS and tools used daily";
   bulleted (lit "Python for data pipelines");
   bulleted (lit "SQL for reporting")].

End FormatterVocabulary.

(** ** Vocabulary of the properties of the rating helpers *)

Module RatingVocabulary.

Import TextFormatterRating.

Definition Key_eqb (a b : Key) : bool :=
  match a, b with
  | ContentQuality, ContentQuality
  | StructureOrganization, StructureOrganization
  | FormattingDesign, FormattingDesign
  | ImpactLanguage, ImpactLanguage
  | AtsCompatibility, AtsCompatibility => true
  | _, _ => false
  end.

(** The name the table of categories gives a key. *)
Definition nameOf (key : Key) : jsstring :=
  match find (fun category => Key_eqb (fst category) key) categories with
  | Some category => snd category
  | None => []
  end.

(** The place of a grade letter on the scale F, D, C, B+, A+. *)
Definition gradeRank (letter : jsstring) : Z :=
  if eqb letter (lit "A+") then 4
  else if eqb letter (lit "B+") then 3
  else if eqb letter (lit "C") then 2
  else if eqb letter (lit "D") then 1
  else 0.

(** The scores of two weaknesses are numbers, in ascending order. *)
Definition ascendingScore (a b : Weakness) : Prop :=
  exists x y, score a = Some x /\ score b = Some y /\ (x <= y)%Q.

Definition fallbackStep : jsstring :=
  lit "Focus on minor polish and tailoring for specific job applications".

(** The entry lines 933-937 push for a category. *)
Definition weaknessOf (r : Rating) (c : Key * jsstring) : Weakness :=
  mkWeakness (snd c) (get r (fst c))
    (if strictEq (get r (fst c)) 0 then lit "critical" else lit "important").

(** The comparator of line 941. *)
Definition byScore (a b : Weakness) : number := minus (score a) (score b).

End RatingVocabulary.

(** ** Vocabulary of the properties of the backend sections *)

Module SectionsVocabulary.

Import BackendSections.

(** The section a paragraph is filed under. *)
Definition sectionOf (toLowerCase : jsstring -> jsstring)
    (paragraph : jsstring) : Field :=
  match assign paragraph (toLowerCase paragraph) sectionPatterns with
  | Some section => section
  | None => Other
  end.

(** Paragraphs, each followed by an empty line. *)
Definition blocks (paragraphs : list jsstring) : jsstring :=
  List.concat (map (fun p => p ++ [10; 10]) paragraphs).

(** Lower-casing of the ASCII letters, an instance of [toLowerCase]. *)
Definition asciiLowerCase (s : jsstring) : jsstring := map Regex.toLower s.

Definition punctuatedResume : jsstring :=
  lit "Built the billing system at Acme Corp." ++ [10; 10]
  ++ lit "Skills: Python, SQL and Go.".

End SectionsVocabulary.

(** ** Vocabulary of the properties of the file checks *)

Module ValidationVocabulary.

Import FileValidation.

Definition oversizedFile : File :=
  mkFile (lit "Resume.PDF") (60 * 1024 * 1024) (lit "application/pdf").

End ValidationVocabulary.

(** ** Vocabulary of the properties of the job titles *)

Module JobsVocabulary.

Import Regex.




End JobsVocabulary.

(** ** Vocabulary of the properties of the memory monitor *)

Module MonitorVocabulary.

Import MemoryMonitor.

Section WithPercentage.

Variable Percentage : Type.
Variable percentage : Z -> Z -> Percentage.

(** The history after a series of calls of [getMemoryUsage], from the
    empty history of the constructor. *)
Definition historyAfter (envs : list Env) : list (MemInfo Percentage) :=
  fold_left (fun history env => snd (getMemoryUsage percentage env history))
            envs [].

(** The measurements the calls made, the unsupported ones left out. *)
Definition measurements (envs : list Env) : list (MemInfo Percentage) :=
  flat_map (fun env =>
              match fst (getMemoryUsage percentage env []) with
              | Supported m => [m]
              | Unsupported _ => []
              end) envs.

End WithPercentage.

Arguments historyAfter {Percentage} percentage envs.
Arguments measurements {Percentage} percentage envs.

(** The megabytes still free in a heap. *)
Definition availableMB (heap : Heap) : Z :=
  roundMB (jsHeapSizeLimit heap) - roundMB (usedJSHeapSize heap).

Definition heapAt (env : Env) : Heap :=
  match memory env with
  | Some heap => heap
  | None => mkHeap 0 0 0
  end.

End MonitorVocabulary.

(** ** Vocabulary of the properties of smartTextChunking *)

Module ChunkingVocabulary.

(** A chunk without white space at either end. *)
Definition trimmed (c : jsstring) : Prop := trim c = c.

Definition longSentence : jsstring :=
  lit "The team shipped the new billing system, and it cut costs."
  ++ lit " Then they moved on!".

End ChunkingVocabulary.

(** ** Vocabulary of the properties of the job recommendations *)

Module RecommendationsVocabulary.

Import TextFormatterJobCategories.

(** What holds of every category object while the lines are read. *)
Definition wellFormed (category : JobCategory) : Prop :=
  trim (name category) = name category
  /\ Forall (fun job => trim job = job /\ 3 < len job < 80) (jobs category)
  /\ (description category = [] \/ 10 < len (description category)).

Definition allJobs (categories : list JobCategory) : list jsstring :=
  List.concat (map jobs categories).

Definition bareJobList : jsstring :=
  lit "- Data Engineer" ++ [10] ++ lit "- Backend Developer".

End RecommendationsVocabulary.

(** * Properties *)

(** ** Facts about the built-ins *)

Section BuiltinFacts.

Lemma len_nonneg {A} (s : list A) : 0 <= len s.
Proof. unfold len. lia. Qed.

Lemma len_app {A} (a b : list A) : len (a ++ b) = len a + len b.
Proof. unfold len. rewrite length_app. lia. Qed.

Lemma len_cons {A} (x : A) (s : list A) : len (x :: s) = 1 + len s.
Proof. unfold len. simpl List.length. lia. Qed.

Lemma charAt_cons_0 x s : charAt (x :: s) 0 = Some x.
Proof. reflexivity. Qed.

Lemma charAt_cons_succ x s p : 0 <= p -> charAt (x :: s) (p + 1) = charAt s p.
Proof.
  intros Hp. unfold charAt.
  destruct (p + 1 <? 0) eqn:E1; [lia|].
  destruct (p <? 0) eqn:E2; [lia|].
  replace (Z.to_nat (p + 1)) with (S (Z.to_nat p)) by lia. reflexivity.
Qed.

Lemma charAt_some_range s p c : charAt s p = Some c -> 0 <= p < len s.
Proof.
  unfold charAt, len. destruct (p <? 0) eqn:E; [discriminate|].
  intros H. assert (Z.to_nat p < List.length s)%nat.
  { apply nth_error_Some. congruence. }
  lia.
Qed.

Lemma charAt_in_range s p : 0 <= p < len s -> exists c, charAt s p = Some c.
Proof.
  unfold charAt, len. intros H. destruct (p <? 0) eqn:E; [lia|].
  destruct (nth_error s (Z.to_nat p)) eqn:N; [eauto|].
  apply nth_error_None in N. lia.
Qed.

Lemma charAt_app_l a b p : p < len a -> charAt (a ++ b) p = charAt a p.
Proof.
  unfold charAt, len. intros H. destruct (p <? 0) eqn:E; [reflexivity|].
  apply nth_error_app1. lia.
Qed.

Lemma charAt_app_r a b p :
  len a <= p -> charAt (a ++ b) p = charAt b (p - len a).
Proof.
  unfold charAt, len. intros H.
  destruct (p <? 0) eqn:E; [lia|].
  destruct (p - Z.of_nat (List.length a) <? 0) eqn:E2; [lia|].
  rewrite nth_error_app2 by lia. f_equal. lia.
Qed.

(** *** lastIndexOf *)

Lemma lastIndexScan_spec c : forall s i bound best,
  best < i ->
  let r := lastIndexScan c s i bound best in
  (r = best /\
   forall k, (k < List.length s)%nat -> i + Z.of_nat k <= bound ->
             nth_error s k <> Some c)
  \/ (exists k, (k < List.length s)%nat /\ r = i + Z.of_nat k /\ r <= bound /\
        nth_error s k = Some c /\
        forall k', (k < k' < List.length s)%nat -> i + Z.of_nat k' <= bound ->
                   nth_error s k' <> Some c).
Proof.
  induction s as [|x s IH]; intros i bound best Hb; simpl.
  - left. split; [reflexivity|]. intros k Hk. inversion Hk.
  - destruct (i <=? bound) eqn:Ei.
    + apply Z.leb_le in Ei.
      destruct (x =? c) eqn:Ex.
      * apply Z.eqb_eq in Ex. subst x.
        destruct (IH (i + 1) bound i ltac:(lia))
          as [[Hr Hno] | (k & Hk & Hr & Hle & Hc & Hno)].
        -- right. exists 0%nat. repeat split; try lia.
           intros [|k'] Hk' Hle; [lia|]. simpl.
           apply Hno; lia.
        -- right. exists (S k). repeat split; try lia; [exact Hc|].
           intros [|k'] Hk' Hle'; [lia|]. simpl. apply Hno; lia.
      * apply Z.eqb_neq in Ex.
        destruct (IH (i + 1) bound best ltac:(lia))
          as [[Hr Hno] | (k & Hk & Hr & Hle & Hc & Hno)].
        -- left. split; [exact Hr|].
           intros [|k'] Hk' Hle; simpl; [congruence|]. apply Hno; lia.
        -- right. exists (S k). repeat split; try lia; [exact Hc|].
           intros [|k'] Hk' Hle'; [lia|]. simpl. apply Hno; lia.
    + apply Z.leb_gt in Ei. left. split; [reflexivity|]. intros; lia.
Qed.

Lemma lastIndexOf_spec c s e :
  0 <= e < len s ->
  let r := lastIndexOf c s e in
  (r = -1 /\ forall p, 0 <= p <= e -> charAt s p <> Some c)
  \/ (0 <= r <= e /\ charAt s r = Some c /\
      forall p, r < p <= e -> charAt s p <> Some c).
Proof.
  intros He. unfold lastIndexOf.
  replace (Z.min (Z.max e 0) (len s - 1)) with e by lia.
  destruct (lastIndexScan_spec c s 0 e (-1) ltac:(lia))
    as [[Hr Hno] | (k & Hk & Hr & Hle & Hc & Hno)]; cbv zeta in *.
  - left. split; [exact Hr|]. intros p Hp. unfold charAt.
    destruct (p <? 0) eqn:E; [lia|]. apply Hno; unfold len in *; lia.
  - right. rewrite Hr. repeat split; try lia.
    + unfold charAt. destruct (0 + Z.of_nat k <? 0) eqn:E; [lia|].
      replace (Z.to_nat (0 + Z.of_nat k)) with k by lia. exact Hc.
    + intros p Hp. unfold charAt. destruct (p <? 0) eqn:E; [lia|].
      apply Hno; unfold len in *; lia.
Qed.

Lemma lastIndexOf_lower c s e : 0 <= e < len s -> -1 <= lastIndexOf c s e <= e.
Proof.
  intros He. destruct (lastIndexOf_spec c s e He) as [[H _]|[H _]]; lia.
Qed.

Lemma lastIndexOf_hit c s e :
  0 <= e < len s -> 0 <= lastIndexOf c s e ->
  charAt s (lastIndexOf c s e) = Some c.
Proof.
  intros He H0. destruct (lastIndexOf_spec c s e He) as [[H _]|[_ [H _]]];
    [lia|exact H].
Qed.

Lemma lastIndexOf_ge c s e p :
  0 <= e < len s -> 0 <= p <= e -> charAt s p = Some c ->
  p <= lastIndexOf c s e.
Proof.
  intros He Hp Hc. destruct (lastIndexOf_spec c s e He) as [[_ H]|[Hr [_ H]]].
  - exfalso. exact (H p Hp Hc).
  - destruct (Z_le_gt_dec p (lastIndexOf c s e)); [assumption|].
    exfalso. apply (H p); [lia|exact Hc].
Qed.

End BuiltinFacts.

(** ** The end of a chunk, termination and the iteration count *)

Ltac divlia := Z.to_euclidean_division_equations; lia.

Section ChunkEnd.

Variable text : jsstring.

Lemma isTerminator_cases c :
  isTerminator c = true -> c = ch "." \/ c = ch "?" \/ c = ch "!".
Proof.
  unfold isTerminator. intros H.
  apply orb_true_iff in H. destruct H as [H|H].
  - apply orb_true_iff in H. destruct H as [H|H]; apply Z.eqb_eq in H; auto.
  - apply Z.eqb_eq in H; auto.
Qed.

Lemma lastSentenceEnd_spec e :
  0 <= e < len text ->
  -1 <= lastSentenceEndOf text e <= e /\
  (0 <= lastSentenceEndOf text e ->
   terminatorAt text (lastSentenceEndOf text e)) /\
  (forall p, 0 <= p <= e -> terminatorAt text p ->
             p <= lastSentenceEndOf text e).
Proof.
  intros He. unfold lastSentenceEndOf.
  pose proof (lastIndexOf_lower (ch ".") text e He) as Hd.
  pose proof (lastIndexOf_lower (ch "?") text e He) as Hq.
  pose proof (lastIndexOf_lower (ch "!") text e He) as Hx.
  split; [lia|]. split.
  - intros H0.
    set (d := lastIndexOf (ch ".") text e) in *.
    set (q := lastIndexOf (ch "?") text e) in *.
    set (x := lastIndexOf (ch "!") text e) in *.
    destruct (Z.max_spec (Z.max d q) x) as [[_ E]|[_ E]]; rewrite E in *.
    + exists (ch "!"). split; [apply lastIndexOf_hit; assumption|reflexivity].
    + destruct (Z.max_spec d q) as [[_ E']|[_ E']]; rewrite E' in *.
      * exists (ch "?"). split; [apply lastIndexOf_hit; assumption|reflexivity].
      * exists (ch "."). split; [apply lastIndexOf_hit; assumption|reflexivity].
  - intros p Hp (c & Hc & Ht).
    destruct (isTerminator_cases c Ht) as [E|[E|E]]; subst c.
    + pose proof (lastIndexOf_ge _ _ _ _ He Hp Hc). lia.
    + pose proof (lastIndexOf_ge _ _ _ _ He Hp Hc). lia.
    + pose proof (lastIndexOf_ge _ _ _ _ He Hp Hc). lia.
Qed.

Lemma pastMidpoint_true p start cs :
  pastMidpoint p start cs = true <-> 2 * start + cs < 2 * p.
Proof. unfold pastMidpoint. apply Z.ltb_lt. Qed.

Lemma pastMidpoint_false p start cs :
  pastMidpoint p start cs = false <-> 2 * p <= 2 * start + cs.
Proof. unfold pastMidpoint. rewrite Z.ltb_ge. reflexivity. Qed.

(** The three outcomes of lines 409-428. *)
Lemma chunkEnd_cases cs start :
  start + cs < len text ->
  let e := MemoryManager.chunkEnd text cs start in
  let lse := lastSentenceEndOf text (start + cs) in
  let sp := lastIndexOf (ch " ") text (start + cs) in
  (pastMidpoint lse start cs = true /\ e = lse + 1)
  \/ (pastMidpoint lse start cs = false /\ pastMidpoint sp start cs = true
      /\ e = sp)
  \/ (pastMidpoint lse start cs = false /\ pastMidpoint sp start cs = false
      /\ e = start + cs).
Proof.
  intros Hlt. unfold MemoryManager.chunkEnd. cbv zeta.
  assert (E : (start + cs <? len text) = true) by (apply Z.ltb_lt; lia).
  rewrite E. fold (lastSentenceEndOf text (start + cs)).
  destruct (pastMidpoint (lastSentenceEndOf text (start + cs)) start cs);
    [auto|].
  destruct (pastMidpoint (lastIndexOf (ch " ") text (start + cs)) start cs);
    auto.
Qed.

Lemma chunkEnd_last cs start :
  len text <= start + cs -> MemoryManager.chunkEnd text cs start = start + cs.
Proof.
  intros H. unfold MemoryManager.chunkEnd. cbv zeta.
  assert (E : (start + cs <? len text) = false) by (apply Z.ltb_ge; lia).
  rewrite E. reflexivity.
Qed.

Lemma chunkEnd_bounds cs start :
  0 < cs -> 0 <= start ->
  let e := MemoryManager.chunkEnd text cs start in
  start + cs / 2 + 1 <= e <= start + cs + 1 /\
  (start + cs < len text -> e <= len text).
Proof.
  intros Hcs Hs. cbv zeta.
  destruct (Z_lt_le_dec (start + cs) (len text)) as [Hlt|Hge].
  - pose proof (lastSentenceEnd_spec (start + cs) ltac:(lia)) as [Hl _].
    pose proof (lastIndexOf_lower (ch " ") text (start + cs) ltac:(lia)) as Hsp.
    destruct (chunkEnd_cases cs start Hlt) as [[P E]|[(P & Q & E)|(P & Q & E)]];
      rewrite E; try apply pastMidpoint_true in P;
      try apply pastMidpoint_true in Q; divlia.
  - rewrite chunkEnd_last by assumption. divlia.
Qed.

End ChunkEnd.

(** The worker and the browser copies are the same functions. *)
Lemma worker_chunkEnd text cs start :
  DocumentWorkerProcessor.chunkEnd text cs start
  = MemoryManager.chunkEnd text cs start.
Proof. reflexivity. Qed.

Lemma worker_whileLoop fuel text cs ov start acc n :
  DocumentWorkerProcessor.whileLoop fuel text cs ov start acc n
  = MemoryManager.whileLoop fuel text cs ov start acc n.
Proof. reflexivity. Qed.

Lemma worker_run text cs ov :
  DocumentWorkerProcessor.splitTextIntoChunksRun text cs ov
  = MemoryManager.splitTextIntoChunksRun text cs ov.
Proof. reflexivity. Qed.

Lemma browser_whileLoop fuel text cs ov start acc n :
  OptimizedDocumentProcessor.whileLoop fuel text cs ov start acc n
  = MemoryManager.whileLoop fuel text cs ov start acc n.
Proof. reflexivity. Qed.

Section Termination.

Variables (text : jsstring) (cs ov : Z).

Lemma whileLoop_unfold fuel start acc n :
  MemoryManager.whileLoop (S fuel) text cs ov start acc n =
  if start <? len text then
    let end_ := MemoryManager.chunkEnd text cs start in
    let chunk := trim (substring text start end_) in
    let acc' := if truthy chunk then acc ++ [chunk] else acc in
    let start' := Z.max (start + 1) (end_ - ov) in
    if len text <=? start' then Some (mkRun acc' (S n))
    else MemoryManager.whileLoop fuel text cs ov start' acc' (S n)
  else Some (mkRun acc n).
Proof. reflexivity. Qed.

(** The loop returns as soon as the fuel exceeds the distance to the end:
    every iteration moves [start] forward by at least one. *)
Lemma whileLoop_terminates : forall fuel start acc n,
  (0 < fuel)%nat -> len text - start < Z.of_nat fuel ->
  exists r, MemoryManager.whileLoop fuel text cs ov start acc n = Some r.
Proof.
  induction fuel as [|fuel IH]; intros start acc n Hpos Hf; [lia|].
  rewrite whileLoop_unfold.
  destruct (start <? len text) eqn:Es; [|eauto].
  apply Z.ltb_lt in Es. cbv zeta.
  destruct (len text <=? _) eqn:El; [eauto|].
  apply Z.leb_gt in El. apply IH; lia.
Qed.

Lemma whileLoop_counts_up : forall fuel start acc n r,
  MemoryManager.whileLoop fuel text cs ov start acc n = Some r ->
  (n <= iterations r)%nat.
Proof.
  induction fuel as [|fuel IH]; intros start acc n r H; [discriminate|].
  rewrite whileLoop_unfold in H.
  destruct (start <? len text); [|inversion H; simpl; lia].
  cbv zeta in H. destruct (len text <=? _).
  - inversion H; simpl; lia.
  - apply IH in H. lia.
Qed.

Hypothesis Hcs : 0 < cs.

Lemma advance_at_least start :
  0 <= start ->
  start + stride cs ov
  <= Z.max (start + 1) (MemoryManager.chunkEnd text cs start - ov).
Proof.
  intros Hs. pose proof (chunkEnd_bounds text cs start Hcs Hs) as [H _].
  unfold stride. divlia.
Qed.

(** Before iteration number [n + 1] the cursor is at least [n] strides in. *)
Lemma whileLoop_iterations : forall fuel start acc n r,
  0 <= start -> Z.of_nat n * stride cs ov <= start ->
  MemoryManager.whileLoop fuel text cs ov start acc n = Some r ->
  iterations r = n \/ (Z.of_nat (iterations r) - 1) * stride cs ov < len text.
Proof.
  induction fuel as [|fuel IH]; intros start acc n r Hs Hn H; [discriminate|].
  rewrite whileLoop_unfold in H.
  destruct (start <? len text) eqn:Es; [|inversion H; auto].
  apply Z.ltb_lt in Es. cbv zeta in H.
  pose proof (advance_at_least start Hs) as Hadv.
  destruct (len text <=? _) eqn:El.
  - inversion H; subst r; simpl iterations. right.
    replace (Z.of_nat (S n) - 1) with (Z.of_nat n) by lia. lia.
  - apply IH in H; [|lia|].
    + destruct H as [H|H]; [|auto]. right. rewrite H.
      replace (Z.of_nat (S n) - 1) with (Z.of_nat n) by lia. lia.
    + replace (Z.of_nat (S n)) with (Z.of_nat n + 1) by lia.
      rewrite Z.mul_add_distr_r. lia.
Qed.

End Termination.

(** ** A family of texts with short advances *)

Section Zigzag.

Lemma len_zigzag n : len (zigzag n) = 2 * Z.of_nat n.
Proof.
  induction n as [|n IH]; [reflexivity|].
  simpl zigzag. rewrite !len_cons, IH. lia.
Qed.

Lemma charAt_zigzag : forall n p,
  0 <= p < 2 * Z.of_nat n ->
  charAt (zigzag n) p = Some (if Z.even p then ch "a" else ch " ").
Proof.
  induction n as [|n IH]; intros p Hp; [lia|].
  simpl zigzag.
  destruct (Z.eq_dec p 0) as [->|N0]; [reflexivity|].
  destruct (Z.eq_dec p 1) as [->|N1]; [reflexivity|].
  replace p with ((p - 2) + 1 + 1) at 1 by lia.
  rewrite !charAt_cons_succ by lia.
  rewrite IH by lia.
  replace (Z.even (p - 2)) with (Z.even p); [reflexivity|].
  replace p with (p - 2 + 2) at 1 by lia.
  rewrite Z.even_add. simpl. destruct (Z.even (p - 2)); reflexivity.
Qed.

Lemma zigzag_no_terminator n p : ~ terminatorAt (zigzag n) p.
Proof.
  intros (c & Hc & Ht).
  pose proof (charAt_some_range _ _ _ Hc) as Hr. rewrite len_zigzag in Hr.
  rewrite charAt_zigzag in Hc by lia.
  destruct (Z.even p); inversion Hc; subst c; discriminate.
Qed.

(** In ["a a a ..."] with [chunkSize = 4] the window that starts at an even
    index is cut at the space three characters further. *)
Lemma zigzag_chunkEnd n k :
  0 <= k -> 2 * k + 4 < 2 * Z.of_nat n ->
  MemoryManager.chunkEnd (zigzag n) 4 (2 * k) = 2 * k + 3.
Proof.
  intros Hk Hn.
  assert (Hlen : 2 * k + 4 < len (zigzag n)) by (rewrite len_zigzag; lia).
  assert (He : 0 <= 2 * k + 4 < len (zigzag n)) by lia.
  destruct (lastSentenceEnd_spec (zigzag n) (2 * k + 4) He) as (Hl & Ht & _).
  assert (Hlse : lastSentenceEndOf (zigzag n) (2 * k + 4) = -1).
  { destruct (Z_lt_le_dec (lastSentenceEndOf (zigzag n) (2 * k + 4)) 0);
      [lia|]. exfalso. eapply zigzag_no_terminator. apply Ht. assumption. }
  assert (Hsp : lastIndexOf (ch " ") (zigzag n) (2 * k + 4) = 2 * k + 3).
  { pose proof (lastIndexOf_lower (ch " ") (zigzag n) (2 * k + 4) He) as Hlo.
    assert (Hge : 2 * k + 3 <= lastIndexOf (ch " ") (zigzag n) (2 * k + 4)).
    { apply lastIndexOf_ge; [assumption|lia|].
      rewrite charAt_zigzag by lia.
      replace (2 * k + 3) with (1 + 2 * (k + 1)) by lia.
      rewrite Z.even_add_mul_2. reflexivity. }
    destruct (Z.eq_dec (lastIndexOf (ch " ") (zigzag n) (2 * k + 4))
                       (2 * k + 4)) as [E|N]; [|lia].
    exfalso.
    pose proof (lastIndexOf_hit (ch " ") (zigzag n) (2 * k + 4) He
                  ltac:(lia)) as Hh.
    rewrite E in Hh. rewrite charAt_zigzag in Hh by lia.
    replace (2 * k + 4) with (0 + 2 * (k + 2)) in Hh by lia.
    rewrite Z.even_add_mul_2 in Hh. discriminate. }
  destruct (chunkEnd_cases (zigzag n) 4 (2 * k) Hlen)
    as [[P E]|[(P & Q & E)|(P & Q & E)]].
  - rewrite Hlse in P. apply pastMidpoint_true in P. lia.
  - rewrite E. exact Hsp.
  - rewrite Hsp in Q. apply pastMidpoint_false in Q. lia.
Qed.

Lemma zigzag_iterations n (ov1 := 1) : forall j k fuel acc m r,
  0 <= k -> 2 * k + 4 + 2 * Z.of_nat j <= 2 * Z.of_nat n ->
  MemoryManager.whileLoop fuel (zigzag n) 4 ov1 (2 * k) acc m = Some r ->
  (m + j <= iterations r)%nat.
Proof.
  induction j as [|j IH]; intros k fuel acc m r Hk Hn H.
  - apply whileLoop_counts_up in H. lia.
  - destruct fuel as [|fuel]; [discriminate|].
    rewrite whileLoop_unfold in H.
    assert (Es : (2 * k <? len (zigzag n)) = true).
    { apply Z.ltb_lt. rewrite len_zigzag. lia. }
    rewrite Es in H. cbv zeta in H.
    rewrite zigzag_chunkEnd in H by lia.
    replace (Z.max (2 * k + 1) (2 * k + 3 - ov1)) with (2 * (k + 1)) in H
      by (unfold ov1; lia).
    assert (El : (len (zigzag n) <=? 2 * (k + 1)) = false).
    { apply Z.leb_gt. rewrite len_zigzag. lia. }
    rewrite El in H. apply IH in H; lia.
Qed.

End Zigzag.

Section Bound.

Lemma run_unfold_long text cs ov :
  truthy text = true -> cs < len text ->
  MemoryManager.splitTextIntoChunksRun text cs ov =
  match MemoryManager.whileLoop (S (List.length text)) text cs ov 0 [] 0 with
  | Some r => Some (mkRun (filterNonEmpty (chunks r)) (iterations r))
  | None => None
  end.
Proof.
  intros Ht Hl. unfold MemoryManager.splitTextIntoChunksRun.
  rewrite Ht. simpl negb. simpl orb.
  assert (E : (len text <=? cs) = false) by (apply Z.leb_gt; lia).
  rewrite E. reflexivity.
Qed.

Lemma run_unfold_short text cs ov :
  truthy text = false \/ len text <= cs ->
  MemoryManager.splitTextIntoChunksRun text cs ov = Some (mkRun [text] 0).
Proof.
  intros H. unfold MemoryManager.splitTextIntoChunksRun.
  destruct H as [H|H].
  - rewrite H. reflexivity.
  - assert (E : (len text <=? cs) = true) by (apply Z.leb_le; lia).
    rewrite E. rewrite orb_true_r. reflexivity.
Qed.

Lemma truthy_len (s : jsstring) : truthy s = true <-> 0 < len s.
Proof.
  destruct s; simpl; split; intros H; try discriminate; reflexivity.
Qed.

Lemma loop_from_start text cs ov :
  exists r, MemoryManager.whileLoop (S (List.length text)) text cs ov 0 [] 0
            = Some r.
Proof. apply whileLoop_terminates; cbv [len]; lia. Qed.

Lemma iterations_within (text : jsstring) cs ov (it : nat) :
  0 < cs ->
  it = 0%nat \/ (Z.of_nat it - 1) * stride cs ov < len text ->
  Z.of_nat it <= ceilDiv (len text) (stride cs ov) /\ Z.of_nat it <= len text.
Proof.
  intros Hcs H. pose proof (len_nonneg text) as Hl.
  assert (Hd : 1 <= stride cs ov) by (unfold stride; lia).
  unfold ceilDiv. destruct H as [->|H].
  - split; [|simpl; lia]. apply Z.div_pos; simpl; lia.
  - split.
    + apply Z.div_le_lower_bound; [lia|]. nia.
    + nia.
Qed.

End Bound.

(** ** Trimming and windows *)

Section Trim.

Lemma trimStart_split s : exists a, s = a ++ trimStart s /\ blanks a.
Proof.
  induction s as [|c s IH]; simpl.
  - exists []. split; [reflexivity|constructor].
  - destruct (isWhiteSpace c) eqn:E.
    + destruct IH as (a & Ha & Hb). exists (c :: a). split.
      * simpl. congruence.
      * constructor; assumption.
    + exists []. split; [reflexivity|constructor].
Qed.

Lemma trimStart_head s c r : trimStart s = c :: r -> isWhiteSpace c = false.
Proof.
  induction s as [|x s IH]; simpl; [discriminate|].
  destruct (isWhiteSpace x) eqn:E; [exact IH|].
  intros H. inversion H; subst. exact E.
Qed.

Lemma trimStart_fix s :
  (forall c r, s = c :: r -> isWhiteSpace c = false) -> trimStart s = s.
Proof.
  destruct s as [|c r]; intros H; [reflexivity|].
  simpl. rewrite (H c r eq_refl). reflexivity.
Qed.

Lemma trimStart_idem s : trimStart (trimStart s) = trimStart s.
Proof. apply trimStart_fix. intros c r. apply trimStart_head. Qed.

Lemma trimEnd_split s : exists b, s = trimEnd s ++ b /\ blanks b.
Proof.
  destruct (trimStart_split (rev s)) as (a & Ha & Hb).
  exists (rev a). split.
  - unfold trimEnd. rewrite <- rev_app_distr, <- Ha, rev_involutive.
    reflexivity.
  - apply Forall_rev. exact Hb.
Qed.

Lemma trimEnd_idem s : trimEnd (trimEnd s) = trimEnd s.
Proof. unfold trimEnd. rewrite rev_involutive, trimStart_idem. reflexivity. Qed.

Lemma trim_split s :
  exists a b, s = a ++ trim s ++ b /\ blanks a /\ blanks b.
Proof.
  destruct (trimStart_split s) as (a & Ha & Hba).
  destruct (trimEnd_split (trimStart s)) as (b & Hb & Hbb).
  exists a, b. unfold trim. repeat split; try assumption.
  rewrite <- Hb. exact Ha.
Qed.

Lemma trim_head s c r : trim s = c :: r -> isWhiteSpace c = false.
Proof.
  intros H. destruct (trimEnd_split (trimStart s)) as (b & Hb & _).
  fold (trim s) in Hb. rewrite H in Hb. simpl in Hb.
  eapply trimStart_head. exact Hb.
Qed.

Lemma trim_idem s : trim (trim s) = trim s.
Proof.
  unfold trim at 1. rewrite trimStart_fix.
  - unfold trim. apply trimEnd_idem.
  - intros c r. apply trim_head.
Qed.

End Trim.

Section Slices.

Lemma charAt_In s p c : charAt s p = Some c -> In c s.
Proof.
  unfold charAt. destruct (p <? 0); [discriminate|]. apply nth_error_In.
Qed.

Lemma slice_mid (u t v : jsstring) :
  slice (u ++ t ++ v) (len u) (len u + len t) = t.
Proof.
  unfold slice, len.
  replace (Z.to_nat (Z.of_nat (List.length u) + Z.of_nat (List.length t)
                     - Z.of_nat (List.length u))) with (List.length t) by lia.
  rewrite Nat2Z.id.
  rewrite skipn_app, skipn_all, Nat.sub_diag. simpl.
  rewrite firstn_app, firstn_all, Nat.sub_diag. simpl.
  apply app_nil_r.
Qed.

Lemma slice_decompose (text : jsstring) a b :
  0 <= a <= b -> b <= len text ->
  exists pre post,
    text = pre ++ slice text a b ++ post /\ len pre = a
    /\ len (slice text a b) = b - a.
Proof.
  intros Hab Hb. exists (firstn (Z.to_nat a) text), (skipn (Z.to_nat b) text).
  unfold slice, len in *.
  assert (Hl1 : List.length (firstn (Z.to_nat a) text) = Z.to_nat a).
  { apply firstn_length_le. lia. }
  assert (Hl2 : List.length (firstn (Z.to_nat (b - a))
                               (skipn (Z.to_nat a) text)) = Z.to_nat (b - a)).
  { apply firstn_length_le. rewrite length_skipn. lia. }
  split; [|split; lia].
  rewrite <- (firstn_skipn (Z.to_nat a) text) at 1. f_equal.
  rewrite <- (firstn_skipn (Z.to_nat (b - a)) (skipn (Z.to_nat a) text)) at 1.
  f_equal. rewrite skipn_skipn. f_equal. lia.
Qed.

Lemma substring_slice (text : jsstring) a b :
  0 <= a <= b -> a <= len text ->
  substring text a b = slice text a (Z.min b (len text)).
Proof.
  intros Hab Ha. unfold substring. cbv zeta. f_equal; lia.
Qed.

(** Trimming a window of [text] keeps a sub-window that holds every
    visible character of the window. *)
Lemma trim_window (text : jsstring) a b :
  0 <= a <= b -> b <= len text ->
  let t := trim (slice text a b) in
  exists o, a <= o /\ o + len t <= b /\
    slice text o (o + len t) = t /\
    (forall q, a <= q < b -> visibleAt text q -> o <= q < o + len t) /\
    (truthy t = true -> visibleAt text o).
Proof.
  intros Hab Hb t.
  destruct (slice_decompose text a b Hab Hb)
    as (pre & post & Htext & Hpre & Hw).
  destruct (trim_split (slice text a b)) as (x & y & Hxy & Hx & Hy).
  fold t in Hxy. rewrite Hxy in Htext, Hw.
  rewrite !len_app in Hw.
  pose proof (len_nonneg x). pose proof (len_nonneg y).
  pose proof (len_nonneg t).
  exists (a + len x).
  assert (Htext' : text = (pre ++ x) ++ t ++ (y ++ post)).
  { rewrite Htext at 1. rewrite <- !app_assoc. reflexivity. }
  assert (Hpx : len (pre ++ x) = a + len x) by (rewrite len_app; lia).
  split; [lia|]. split; [lia|]. split; [|split].
  - rewrite Htext' at 1. rewrite <- Hpx. apply slice_mid.
  - intros q Hq (c & Hc & Hv).
    destruct (Z_lt_le_dec q (a + len x)) as [Hlt|Hge].
    + exfalso. rewrite Htext' in Hc.
      rewrite charAt_app_l in Hc by lia.
      rewrite charAt_app_r in Hc by lia.
      apply charAt_In in Hc.
      unfold blanks in Hx. rewrite Forall_forall in Hx.
      rewrite (Hx c Hc) in Hv. discriminate.
    + split; [lia|].
      destruct (Z_lt_le_dec q (a + len x + len t)) as [Hlt'|Hge']; [lia|].
      exfalso. rewrite Htext' in Hc.
      rewrite charAt_app_r in Hc by lia.
      rewrite charAt_app_r in Hc by lia.
      rewrite charAt_app_l in Hc by lia.
      apply charAt_In in Hc.
      unfold blanks in Hy. rewrite Forall_forall in Hy.
      rewrite (Hy c Hc) in Hv. discriminate.
  - intros Ht. destruct t as [|c r] eqn:Et; [discriminate|].
    exists c. split.
    + rewrite Htext' at 1. rewrite charAt_app_r by lia.
      rewrite Hpx. replace (a + len x - (a + len x)) with 0 by lia.
      reflexivity.
    + apply (trim_head (slice text a b) c r). exact Et.
Qed.

End Slices.

(** ** Coverage *)

Section Coverage.

Variables (text : jsstring) (cs ov : Z).
Hypothesis Hcs : 0 < cs.
Hypothesis Hov : 0 <= ov.

Lemma slice_all (s : jsstring) : slice s 0 (len s) = s.
Proof.
  unfold slice, len. simpl skipn. rewrite Z.sub_0_r, Nat2Z.id.
  apply firstn_all.
Qed.

Lemma ascending_snoc l y :
  ascending l -> (forall x, In x l -> x <= y) -> ascending (l ++ [y]).
Proof.
  intros Hl Hy i j a b Hij Ha Hb.
  destruct (Nat.lt_ge_cases j (List.length l)) as [Hj|Hj].
  - rewrite nth_error_app1 in Ha by lia. rewrite nth_error_app1 in Hb by lia.
    exact (Hl i j a b Hij Ha Hb).
  - rewrite nth_error_app2 in Hb by lia.
    destruct (j - List.length l)%nat as [|k] eqn:Ek;
      [|destruct k; discriminate].
    simpl in Hb. inversion Hb; subst b.
    destruct (Nat.lt_ge_cases i (List.length l)) as [Hi|Hi].
    + rewrite nth_error_app1 in Ha by lia. apply Hy.
      eapply nth_error_In. exact Ha.
    + rewrite nth_error_app2 in Ha by lia.
      destruct (i - List.length l)%nat as [|k'] eqn:Ek';
        [|destruct k'; discriminate].
      simpl in Ha. inversion Ha. lia.
Qed.

Lemma visibleAt_range q : visibleAt text q -> 0 <= q < len text.
Proof. intros (c & Hc & _). eapply charAt_some_range. exact Hc. Qed.

Lemma covered_step start pl :
  0 <= start < len text -> covered_to text start pl ->
  let end_ := MemoryManager.chunkEnd text cs start in
  let chunk := trim (substring text start end_) in
  let start' := Z.max (start + 1) (end_ - ov) in
  exists pl',
    map snd pl' = (if truthy chunk then map snd pl ++ [chunk] else map snd pl)
    /\ covered_to text start' pl'.
Proof.
  intros Hs [Hp Ht Ho Hg Ha] end_ chunk start'.
  pose proof (chunkEnd_bounds text cs start Hcs ltac:(lia)) as [Hb _].
  fold end_ in Hb.
  assert (Hlt : start < end_) by divlia.
  assert (Hsub : substring text start end_
                 = slice text start (Z.min end_ (len text))).
  { apply substring_slice; lia. }
  destruct (trim_window text start (Z.min end_ (len text)) ltac:(lia)
              ltac:(lia)) as (o & Ho1 & Ho2 & Hsl & Hin & Hvis).
  rewrite <- Hsub in Hsl, Hin, Hvis, Ho2. fold chunk in Hsl, Hin, Hvis, Ho2.
  assert (Hnew : forall q, start <= q < start' -> visibleAt text q ->
                           o <= q < o + len chunk).
  { intros q Hq Hv. apply Hin; [|exact Hv].
    pose proof (visibleAt_range q Hv). unfold start' in Hq. lia. }
  destruct (truthy chunk) eqn:Etr.
  - exists (pl ++ [(o, chunk)]). split.
    + rewrite map_app. reflexivity.
    + constructor.
      * apply Forall_app. split; [exact Hp|]. constructor; [|constructor].
        split; simpl; [lia|exact Hsl].
      * apply Forall_app. split; [exact Ht|]. constructor; [|constructor].
        exact Etr.
      * rewrite map_app. simpl. apply ascending_snoc; [exact Ho|].
        intros x Hx. apply in_map_iff in Hx. destruct Hx as (y & <- & Hy).
        destruct (Z_le_gt_dec (fst y) o) as [Hle|Hgt]; [exact Hle|].
        exfalso. apply (Hg y o Hy); [lia|]. apply Hvis. reflexivity.
      * intros x q Hx Hq. apply in_app_or in Hx. destruct Hx as [Hx|Hx].
        -- apply (Hg x q Hx). unfold start' in Hq. lia.
        -- destruct Hx as [<-|[]]. simpl in Hq. intros Hv.
           destruct (Z_lt_le_dec q (Z.min end_ (len text))) as [Hq'|Hq'].
           ++ assert (Hq2 : start <= q < Z.min end_ (len text))
                by (unfold start' in Hq; lia).
              pose proof (Hin q Hq2 Hv). lia.
           ++ pose proof (len_nonneg chunk). lia.
      * intros q Hq Hv. destruct (Z_lt_le_dec q start) as [Hq'|Hq'].
        -- destruct (Ha q ltac:(lia) Hv) as (x & Hx & Hc).
           exists x. split; [apply in_or_app; left; exact Hx|exact Hc].
        -- exists (o, chunk).
           split; [apply in_or_app; right; left; reflexivity|].
           unfold covers. simpl. apply Hnew; [lia|exact Hv].
  - exists pl. split; [reflexivity|].
    assert (Hlen0 : len chunk = 0)
      by (destruct chunk; [reflexivity|discriminate]).
    constructor; try assumption.
    + intros x q Hx Hq. apply (Hg x q Hx). unfold start' in Hq. lia.
    + intros q Hq Hv. destruct (Z_lt_le_dec q start) as [Hq'|Hq'].
      * apply Ha; [lia|exact Hv].
      * pose proof (Hnew q ltac:(lia) Hv). lia.
Qed.

Lemma covered_loop : forall fuel start pl n r,
  0 <= start -> covered_to text start pl ->
  MemoryManager.whileLoop fuel text cs ov start (map snd pl) n = Some r ->
  exists pl', map snd pl' = chunks r /\ covered_to text (len text) pl'.
Proof.
  induction fuel as [|fuel IH]; intros start pl n r Hs Hc H; [discriminate|].
  rewrite whileLoop_unfold in H.
  assert (Hfinal : forall s l, len text <= s -> covered_to text s l ->
                               covered_to text (len text) l).
  { intros s l Hle [Hp Ht Ho Hg Ha]. constructor; try assumption.
    - intros x q _ Hq Hv. pose proof (visibleAt_range q Hv). lia.
    - intros q Hq. apply Ha. lia. }
  destruct (start <? len text) eqn:Es.
  - apply Z.ltb_lt in Es.
    destruct (covered_step start pl ltac:(lia) Hc) as (pl' & Hm & Hc').
    cbv zeta in H, Hm, Hc'. rewrite <- Hm in H.
    destruct (len text <=? _) eqn:El.
    + apply Z.leb_le in El. inversion H; subst r. simpl.
      exists pl'. split; [reflexivity|]. eapply Hfinal; eassumption.
    + eapply IH; [|exact Hc'|exact H]. lia.
  - apply Z.ltb_ge in Es. inversion H; subst r. simpl.
    exists pl. split; [reflexivity|]. eapply Hfinal; eassumption.
Qed.

Lemma filterNonEmpty_truthy (l : list jsstring) :
  Forall (fun c => truthy c = true) l -> filterNonEmpty l = l.
Proof.
  induction 1 as [|c l Hc _ IH]; [reflexivity|].
  unfold filterNonEmpty in *. simpl. rewrite IH.
  apply truthy_len in Hc. apply Z.ltb_lt in Hc. rewrite Hc. reflexivity.
Qed.

Lemma covered_run :
  exists pl : list placement,
    MemoryManager.splitTextIntoChunks text cs ov = Some (map snd pl) /\
    Forall (placedIn text) pl /\ ascending (map fst pl) /\
    forall p, visibleAt text p -> exists x, In x pl /\ covers x p.
Proof.
  unfold MemoryManager.splitTextIntoChunks.
  destruct (truthy text) eqn:Et;
    [destruct (Z_lt_le_dec cs (len text)) as [Hl|Hl]|].
  - rewrite run_unfold_long by assumption.
    destruct (loop_from_start text cs ov) as (r & Hr). rewrite Hr.
    assert (H0 : covered_to text 0 []).
    { constructor; try constructor.
      - intros i j x y _ Hx. destruct i; discriminate.
      - intros x q [].
      - intros q Hq. lia. }
    destruct (covered_loop _ 0 [] 0%nat r ltac:(lia) H0 Hr)
      as (pl & Hm & [Hp Ht Ho Hg Ha]).
    exists pl. simpl. rewrite <- Hm.
    rewrite filterNonEmpty_truthy.
    + repeat split; try assumption.
      intros p Hv. apply Ha; [|exact Hv]. apply visibleAt_range. exact Hv.
    + apply Forall_map. exact Ht.
  - rewrite run_unfold_short by (right; exact Hl).
    exists [(0, text)]. simpl. repeat split.
    + constructor; [|constructor]. split; simpl; [lia|].
      apply slice_all.
    + intros i j x y Hij Hx Hy. destruct i, j; simpl in *; try lia;
        try (destruct i; discriminate); try (destruct j; discriminate).
      inversion Hx; inversion Hy; lia.
    + intros p Hv. exists (0, text). split; [left; reflexivity|].
      unfold covers. simpl. apply visibleAt_range. exact Hv.
  - rewrite run_unfold_short by (left; exact Et).
    exists [(0, text)]. simpl. repeat split.
    + constructor; [|constructor]. split; simpl; [lia|].
      apply slice_all.
    + intros i j x y Hij Hx Hy. destruct i, j; simpl in *; try lia;
        try (destruct i; discriminate); try (destruct j; discriminate).
      inversion Hx; inversion Hy; lia.
    + intros p Hv. exists (0, text). split; [left; reflexivity|].
      unfold covers. simpl. apply visibleAt_range. exact Hv.
Qed.

End Coverage.

Section Trimmed.

Variables (text : jsstring) (cs ov : Z).

Lemma trimmed_loop : forall fuel start acc n r,
  Forall trimmedChunk acc ->
  MemoryManager.whileLoop fuel text cs ov start acc n = Some r ->
  Forall trimmedChunk (chunks r).
Proof.
  induction fuel as [|fuel IH]; intros start acc n r Hacc H; [discriminate|].
  rewrite whileLoop_unfold in H.
  destruct (start <? len text); [|inversion H; exact Hacc].
  cbv zeta in H.
  set (chunk := trim (substring text start
                        (MemoryManager.chunkEnd text cs start))) in *.
  assert (Hacc' : Forall trimmedChunk
                    (if truthy chunk then acc ++ [chunk] else acc)).
  { destruct (truthy chunk) eqn:Et; [|exact Hacc].
    apply Forall_app. split; [exact Hacc|]. constructor; [|constructor].
    split; [apply truthy_len; exact Et|apply trim_idem]. }
  destruct (len text <=? _).
  - inversion H. exact Hacc'.
  - eapply IH; eassumption.
Qed.

Lemma filterNonEmpty_trimmed (l : list jsstring) :
  Forall trimmedChunk l -> Forall trimmedChunk (filterNonEmpty l).
Proof.
  unfold filterNonEmpty. intros H. rewrite Forall_forall in *.
  intros c Hc. apply filter_In in Hc. apply H. tauto.
Qed.

End Trimmed.

(** ** Concatenation without the overlaps *)

Section Deoverlap.

Variable text : jsstring.

Lemma visible_app a b : visible (a ++ b) = visible a ++ visible b.
Proof. unfold visible. apply filter_app. Qed.

Lemma visible_blank l :
  (forall c, In c l -> isWhiteSpace c = true) -> visible l = [].
Proof.
  induction l as [|c l IH]; intros H; [reflexivity|].
  unfold visible in *. simpl. rewrite (H c) by (left; reflexivity). simpl.
  apply IH. intros d Hd. apply H. right. exact Hd.
Qed.

Lemma suffix_split u k :
  0 <= u -> 0 <= k ->
  suffix text u = firstn (Z.to_nat k) (suffix text u) ++ suffix text (u + k).
Proof.
  intros Hu Hk. unfold suffix.
  rewrite <- (firstn_skipn (Z.to_nat k) (skipn (Z.to_nat u) text)) at 1.
  f_equal. rewrite skipn_skipn. f_equal. lia.
Qed.

Lemma In_window u k c :
  0 <= u -> In c (firstn (Z.to_nat k) (suffix text u)) ->
  exists q, u <= q < u + k /\ charAt text q = Some c.
Proof.
  intros Hu Hin. apply In_nth_error in Hin. destruct Hin as (i & Hi).
  assert (Hlt : (i < Z.to_nat k)%nat).
  { assert (i < List.length (firstn (Z.to_nat k) (suffix text u)))%nat
      by (apply nth_error_Some; congruence).
    rewrite length_firstn in H. lia. }
  rewrite nth_error_firstn in Hi.
  destruct (Nat.ltb_spec i (Z.to_nat k)) as [_|]; [|lia].
  unfold suffix in Hi. rewrite nth_error_skipn in Hi.
  exists (u + Z.of_nat i). split; [lia|].
  unfold charAt. destruct (u + Z.of_nat i <? 0) eqn:E; [lia|].
  replace (Z.to_nat (u + Z.of_nat i)) with (Z.to_nat u + i)%nat by lia.
  exact Hi.
Qed.

(** White space between two indices does not show. *)
Lemma visible_suffix_gap u v :
  0 <= u <= v ->
  (forall q, u <= q < v -> ~ visibleAt text q) ->
  visible (suffix text u) = visible (suffix text v).
Proof.
  intros Huv Hgap.
  rewrite (suffix_split u (v - u)) by lia.
  replace (u + (v - u)) with v by lia.
  rewrite visible_app, visible_blank; [reflexivity|].
  intros c Hc. apply In_window in Hc; [|lia].
  destruct Hc as (q & Hq & Hc).
  destruct (isWhiteSpace c) eqn:E; [reflexivity|].
  exfalso. apply (Hgap q); [lia|]. exists c. auto.
Qed.

Lemma placed_chunk o c :
  placedIn text (o, c) -> c = firstn (Z.to_nat (len c)) (suffix text o).
Proof.
  intros [Ho Hs]. simpl in *. unfold slice in Hs.
  replace (o + len c - o) with (len c) in Hs by lia.
  symmetry. exact Hs.
Qed.

Lemma ascending_cons_inv o l :
  ascending (o :: l) -> ascending l /\ forall x, In x l -> o <= x.
Proof.
  intros H. split.
  - intros i j x y Hij Hx Hy.
    apply (H (S i) (S j) x y); [lia|exact Hx|exact Hy].
  - intros x Hx. apply In_nth_error in Hx. destruct Hx as (i & Hi).
    apply (H 0%nat (S i) o x); [lia|reflexivity|exact Hi].
Qed.

Lemma deoverlap_visible : forall pl u,
  0 <= u ->
  Forall (placedIn text) pl -> ascending (map fst pl) ->
  (forall p, u <= p -> visibleAt text p -> exists x, In x pl /\ covers x p) ->
  visible (deoverlap u pl) = visible (suffix text u).
Proof.
  induction pl as [|[o c] r IH]; intros u Hu Hp Ho Hcov.
  - simpl. symmetry. apply visible_blank. intros c Hc.
    destruct (isWhiteSpace c) eqn:E; [reflexivity|]. exfalso.
    unfold suffix in Hc.
    rewrite <- (firstn_all (skipn (Z.to_nat u) text)) in Hc.
    replace (List.length (skipn (Z.to_nat u) text))
      with (Z.to_nat (Z.of_nat (List.length (skipn (Z.to_nat u) text)))) in Hc
      by lia.
    apply In_window in Hc; [|lia]. destruct Hc as (q & Hq & Hc).
    destruct (Hcov q ltac:(lia) (ex_intro _ c (conj Hc E))) as (x & [] & _).
  - inversion Hp as [|? ? Hpc Hpr]; subst.
    simpl map in Ho. apply ascending_cons_inv in Ho. destruct Ho as [Hor Hmin].
    pose proof (placed_chunk o c Hpc) as Hc.
    destruct Hpc as [Ho0 _]. simpl in Ho0.
    pose proof (len_nonneg c) as Hlc.
    assert (Hrest : forall u', o + len c <= u' -> u <= u' ->
              forall p, u' <= p -> visibleAt text p ->
                        exists x, In x r /\ covers x p).
    { intros u' H1 H2 p Hp' Hv.
      destruct (Hcov p ltac:(lia) Hv) as (x & [<-|Hx] & Hc').
      - unfold covers in Hc'. simpl in Hc'. lia.
      - exists x. auto. }
    simpl deoverlap. rewrite visible_app.
    destruct (Z_le_gt_dec u o) as [Hle|Hgt].
    + replace (Z.to_nat (u - o)) with 0%nat by lia. simpl skipn.
      replace (Z.max u (o + len c)) with (o + len c) by lia.
      assert (Hgap : forall q, u <= q < o -> ~ visibleAt text q).
      { intros q Hq Hv.
        destruct (Hcov q ltac:(lia) Hv) as (x & [<-|Hx] & Hc').
        - unfold covers in Hc'. simpl in Hc'. lia.
        - pose proof (Hmin (fst x) (in_map fst _ _ Hx)).
          unfold covers in Hc'. lia. }
      rewrite (IH (o + len c)); [|lia|assumption|assumption|apply Hrest; lia].
      rewrite (visible_suffix_gap u o); [|lia|exact Hgap].
      rewrite (suffix_split o (len c)) by lia.
      rewrite visible_app. rewrite <- Hc. reflexivity.
    + destruct (Z_le_gt_dec u (o + len c)) as [Hin|Hout].
      * replace (Z.max u (o + len c)) with (o + len c) by lia.
        rewrite (IH (o + len c));
          [|lia|assumption|assumption|apply Hrest; lia].
        rewrite (suffix_split u (o + len c - u)) by lia.
        replace (u + (o + len c - u)) with (o + len c) by lia.
        rewrite visible_app. f_equal. f_equal.
        rewrite Hc at 1. rewrite skipn_firstn_comm.
        unfold suffix. rewrite skipn_skipn. f_equal; [lia|]. f_equal. lia.
      * replace (Z.max u (o + len c)) with u by lia.
        rewrite (IH u); [|lia|assumption|assumption|apply Hrest; lia].
        rewrite skipn_all2; [reflexivity|]. unfold len in *. lia.
Qed.

End Deoverlap.

(** ** The chunkers: claims of the specification *)

(** The sample text with [chunkSize = 20] and [overlap = 5]: every chunk
    ends at a sentence terminator, and the loop runs five times. *)
Lemma sampleText_chunks :
  MemoryManager.splitTextIntoChunksRun sampleText 20 5
  = Some (mkRun [lit "Hello world."; lit "orld. This is a test!";
                 lit "test! Is it working?"; lit "king? yes it is fine.";
                 lit "fine."] 5).
Proof. vm_compute. reflexivity. Qed.

(** C10. For every text, chunk size and overlap, the worker-side
    [splitTextIntoChunks] and the backend [splitTextIntoChunks] return the
    same sequence of chunks. *)
Theorem worker_equals_backend (text : jsstring) (chunkSize overlap : Z) :
  DocumentWorkerProcessor.splitTextIntoChunks text chunkSize overlap
  = MemoryManager.splitTextIntoChunks text chunkSize overlap.
Proof.
  unfold DocumentWorkerProcessor.splitTextIntoChunks,
         MemoryManager.splitTextIntoChunks.
  exact (f_equal (option_map chunks) (worker_run text chunkSize overlap)).
Qed.

(** C6, as amended.  On the empty string the two [splitTextIntoChunks]
    return the one-element list holding the empty string, for every chunk
    size and overlap; [splitTextAsyncChunks], which has no short-circuit,
    returns the empty list. *)
Theorem empty_text_chunks (chunkSize overlap : Z) :
  MemoryManager.splitTextIntoChunks [] chunkSize overlap = Some [[]]
  /\ DocumentWorkerProcessor.splitTextIntoChunks [] chunkSize overlap
     = Some [[]]
  /\ OptimizedDocumentProcessor.splitTextAsyncChunks [] chunkSize overlap
     = Some [].
Proof. repeat split. Qed.

(** C6, as stated, fails for [splitTextAsyncChunks]: with the default chunk
    size and overlap the empty string gives the empty list, not the list
    holding the empty string. *)
Lemma empty_text_async_chunks :
  OptimizedDocumentProcessor.splitTextAsyncChunks [] 700 200 <> Some [[]].
Proof. vm_compute. discriminate. Qed.



(** C3, as amended.  For every text, every [chunkSize > 0] and every
    overlap with [0 <= overlap < chunkSize] the chunkers return, and the
    body of the main loop runs at most
    [ceil (length text / max 1 (chunkSize / 2 + 1 - overlap))] times, hence
    at most [length text] times: a cut at a terminator or a space may pull
    the end of a chunk back to just past the midpoint of its window. *)
Theorem iterations_bounded (text : jsstring) (chunkSize overlap : Z) :
  0 < chunkSize -> 0 <= overlap < chunkSize ->
  (exists r, MemoryManager.splitTextIntoChunksRun text chunkSize overlap
             = Some r
     /\ Z.of_nat (iterations r)
        <= ceilDiv (len text) (stride chunkSize overlap)
     /\ Z.of_nat (iterations r) <= len text)
  /\ (exists r,
        OptimizedDocumentProcessor.splitTextAsyncChunksRun
          text chunkSize overlap = Some r
        /\ Z.of_nat (iterations r)
           <= ceilDiv (len text) (stride chunkSize overlap)
        /\ Z.of_nat (iterations r) <= len text).
Proof.
  intros Hcs Hov.
  destruct (loop_from_start text chunkSize overlap) as (r & Hr).
  pose proof (whileLoop_iterations text chunkSize overlap Hcs _ 0 [] 0%nat r
                ltac:(lia) ltac:(simpl; lia) Hr) as Hit.
  pose proof (iterations_within text chunkSize overlap (iterations r) Hcs Hit)
    as Hbound.
  split.
  - destruct (truthy text) eqn:Et;
      [destruct (Z_lt_le_dec chunkSize (len text)) as [Hl|Hl]|].
    + rewrite run_unfold_long by assumption. rewrite Hr.
      eexists. split; [reflexivity|]. exact Hbound.
    + rewrite run_unfold_short by (right; exact Hl).
      eexists. split; [reflexivity|]. simpl iterations.
      apply (iterations_within text chunkSize overlap 0%nat Hcs). left.
      reflexivity.
    + rewrite run_unfold_short by (left; exact Et).
      eexists. split; [reflexivity|]. simpl iterations.
      apply (iterations_within text chunkSize overlap 0%nat Hcs). left.
      reflexivity.
  - unfold OptimizedDocumentProcessor.splitTextAsyncChunksRun.
    rewrite browser_whileLoop, Hr.
    eexists. split; [reflexivity|]. exact Hbound.
Qed.

Lemma iterations_bounded_witness :
  0 < 20 /\ 0 <= 5 < 20
  /\ (exists r, MemoryManager.splitTextIntoChunksRun sampleText 20 5 = Some r
        /\ Z.of_nat (iterations r) <= ceilDiv (len sampleText) (stride 20 5)
        /\ Z.of_nat (iterations r) <= len sampleText)
  /\ (exists r,
        OptimizedDocumentProcessor.splitTextAsyncChunksRun sampleText 20 5
        = Some r
        /\ Z.of_nat (iterations r) <= ceilDiv (len sampleText) (stride 20 5)
        /\ Z.of_nat (iterations r) <= len sampleText).
Proof.
  split; [lia|]. split; [lia|].
  apply (iterations_bounded sampleText 20 5); lia.
Defined.

(** C3, as stated, fails: no constant [c] makes
    [ceil (length text / (chunkSize - overlap)) + c] a bound on the number of
    iterations.  On ["a ".repeat(n)] with [chunkSize = 4] and [overlap = 1]
    every window is cut at its third character and the cursor advances by
    two, so the loop runs at least [n - 2] times on [2 n] characters. *)
Lemma iterations_exceed_claimed_bound :
  ~ exists c : Z, forall (text : jsstring) (chunkSize overlap : Z) (r : run),
      0 < chunkSize -> 0 <= overlap < chunkSize ->
      MemoryManager.splitTextIntoChunksRun text chunkSize overlap = Some r ->
      Z.of_nat (iterations r)
      <= ceilDiv (len text) (chunkSize - overlap) + c.
Proof.
  intros (c & H).
  set (n := Z.to_nat (3 * Z.max c 0 + 9)).
  assert (Hn : Z.of_nat n = 3 * Z.max c 0 + 9) by (unfold n; lia).
  assert (Ht : truthy (zigzag n) = true).
  { apply truthy_len. rewrite len_zigzag. lia. }
  assert (Hlen : 4 < len (zigzag n)) by (rewrite len_zigzag; lia).
  destruct (loop_from_start (zigzag n) 4 1) as (r & Hr).
  pose proof (zigzag_iterations n (n - 2) 0 _ [] 0%nat r ltac:(lia)
                ltac:(lia) Hr) as Hlow.
  specialize (H (zigzag n) 4 1
                (mkRun (filterNonEmpty (chunks r)) (iterations r))
                ltac:(lia) ltac:(lia)).
  rewrite run_unfold_long in H by assumption. rewrite Hr in H.
  specialize (H eq_refl). simpl iterations in H.
  rewrite len_zigzag in H. unfold ceilDiv in H.
  change (4 - 1) with 3 in H. divlia.
Qed.

(** C7, as amended.  When the text is longer than [chunkSize] every chunk
    returned is non-empty and carries no white space at either end; when it
    is not, the text itself is returned as the only chunk, untrimmed (so an
    empty or blank text gives a chunk that is empty after trimming).  The
    backend and the worker agree. *)
Theorem chunks_trimmed (text : jsstring) (chunkSize overlap : Z) :
  0 < chunkSize ->
  (len text <= chunkSize ->
   MemoryManager.splitTextIntoChunks text chunkSize overlap = Some [text]
   /\ DocumentWorkerProcessor.splitTextIntoChunks text chunkSize overlap
      = Some [text])
  /\ (chunkSize < len text ->
      exists l,
        MemoryManager.splitTextIntoChunks text chunkSize overlap = Some l
        /\ DocumentWorkerProcessor.splitTextIntoChunks text chunkSize overlap
           = Some l
        /\ Forall trimmedChunk l).
Proof.
  intros Hcs.
  change (DocumentWorkerProcessor.splitTextIntoChunks text chunkSize overlap)
    with (MemoryManager.splitTextIntoChunks text chunkSize overlap).
  unfold MemoryManager.splitTextIntoChunks. split.
  - intros Hl. rewrite run_unfold_short by (right; exact Hl).
    split; reflexivity.
  - intros Hl.
    assert (Ht : truthy text = true) by (apply truthy_len; lia).
    rewrite run_unfold_long by assumption.
    destruct (loop_from_start text chunkSize overlap) as (r & Hr).
    rewrite Hr. eexists. split; [reflexivity|]. split; [reflexivity|].
    simpl. apply filterNonEmpty_trimmed.
    eapply trimmed_loop; [|exact Hr]. constructor.
Qed.

Lemma chunks_trimmed_witness :
  0 < 20
  /\ (len sampleText <= 20 ->
      MemoryManager.splitTextIntoChunks sampleText 20 5 = Some [sampleText]
      /\ DocumentWorkerProcessor.splitTextIntoChunks sampleText 20 5
         = Some [sampleText])
  /\ (20 < len sampleText ->
      exists l,
        MemoryManager.splitTextIntoChunks sampleText 20 5 = Some l
        /\ DocumentWorkerProcessor.splitTextIntoChunks sampleText 20 5
           = Some l
        /\ Forall trimmedChunk l).
Proof.
  split; [lia|]. apply (chunks_trimmed sampleText 20 5). lia.
Defined.

(** C7, as stated, fails: for the empty text and for a blank text, with
    the default chunk size and overlap, the chunk returned is empty after
    trimming. *)
Lemma blank_chunk_returned :
  MemoryManager.splitTextIntoChunks [] 700 200 = Some [[]]
  /\ len (trim []) = 0
  /\ MemoryManager.splitTextIntoChunks (lit "  ") 700 200 = Some [lit "  "]
  /\ len (trim (lit "  ")) = 0
  /\ ~ (forall (text : jsstring) (chunkSize overlap : Z) l,
          0 < chunkSize -> 0 <= overlap < chunkSize ->
          MemoryManager.splitTextIntoChunks text chunkSize overlap = Some l ->
          Forall (fun c => 0 < len (trim c)) l).
Proof.
  repeat split. intros H.
  specialize (H [] 700 200 [[]] ltac:(lia) ltac:(lia) eq_refl).
  inversion H as [|c l Hc Hl]. vm_compute in Hc. discriminate.
Qed.

(** C2.  For every text, every [chunkSize > 0] and every overlap with
    [0 <= overlap < chunkSize], the chunks returned can be laid over the
    text: each chunk is the slice of the text at its index, the indices
    follow the order of the chunks, and every character of the text that is
    not white space lies inside one of the chunks.  Concatenating the
    chunks after removing the overlaps gives, white space aside, the text.
    The backend and the worker agree. *)
Theorem chunks_cover_text (text : jsstring) (chunkSize overlap : Z) :
  0 < chunkSize -> 0 <= overlap < chunkSize ->
  exists pl : list placement,
    MemoryManager.splitTextIntoChunks text chunkSize overlap
    = Some (map snd pl)
    /\ DocumentWorkerProcessor.splitTextIntoChunks text chunkSize overlap
       = Some (map snd pl)
    /\ Forall (placedIn text) pl
    /\ ascending (map fst pl)
    /\ (forall p, visibleAt text p -> exists x, In x pl /\ covers x p)
    /\ visible (deoverlap 0 pl) = visible text.
Proof.
  intros Hcs Hov.
  destruct (covered_run text chunkSize overlap Hcs ltac:(lia))
    as (pl & Hrun & Hp & Ho & Hall).
  exists pl. split; [exact Hrun|]. split.
  - change (DocumentWorkerProcessor.splitTextIntoChunks
              text chunkSize overlap)
      with (MemoryManager.splitTextIntoChunks text chunkSize overlap).
    exact Hrun.
  - split; [exact Hp|]. split; [exact Ho|]. split; [exact Hall|].
    apply (deoverlap_visible text pl 0); [lia|exact Hp|exact Ho|].
    intros p _. apply Hall.
Qed.

Lemma chunks_cover_text_witness :
  0 < 20 /\ 0 <= 5 < 20
  /\ exists pl : list placement,
       MemoryManager.splitTextIntoChunks sampleText 20 5 = Some (map snd pl)
       /\ DocumentWorkerProcessor.splitTextIntoChunks sampleText 20 5
          = Some (map snd pl)
       /\ Forall (placedIn sampleText) pl
       /\ ascending (map fst pl)
       /\ (forall p, visibleAt sampleText p ->
                     exists x, In x pl /\ covers x p)
       /\ visible (deoverlap 0 pl) = visible sampleText.
Proof.
  split; [lia|]. split; [lia|].
  apply (chunks_cover_text sampleText 20 5); lia.
Defined.

(** ** The formatter: claims of the specification *)

Section Reconstruct.

Import TextFormatter.

(** The stages of the pipeline on the examples. *)
Lemma headerExample_stages :
  formatAnalysisText headerExample
  = lit "EXPERIENCE:" ++ [10] ++ bulleted (lit "Built system X") ++ [10]
    ++ bulleted (lit "Led team Y")
  /\ filterUnwantedContent (formatAnalysisText headerExample)
     = bulleted (lit "Built system X") ++ [10] ++ bulleted (lit "Led team Y")
  /\ len (lit "EXPERIENCE:") = 11.
Proof. repeat split; vm_compute; reflexivity. Qed.

Lemma gradesExample_stages :
  formatAnalysisText gradesExample = gradesExample
  /\ filterUnwantedContent gradesExample = gradesExample
  /\ convertToBulletPoints gradesExample = gradesExample
  /\ len (lit "GPA: 3.8 of 4.0") = 15.
Proof. repeat split; vm_compute; reflexivity. Qed.

(** The lines each example leaves for classification. *)
Lemma headerExample_lines :
  structuredLines headerExample
  = Some [bulleted (lit "Built system X"); bulleted (lit "Led team Y")].
Proof. vm_compute. reflexivity. Qed.

Lemma headerExample_value :
  parseStructuredContent (JString headerExample)
  = EnhancedListDoc
      [(general,
        [mkItem listItem (lit "Built system X") high (Some general)]);
       (leadership,
        [mkItem listItem (lit "Led team Y") high (Some leadership)])].
Proof. vm_compute. reflexivity. Qed.

(** C9.  For the empty string and for [null], [parseStructuredContent]
    returns the text placeholder whose content is the message
    [No content available]; the function is total, so it returns for both
    inputs. *)
Theorem empty_input_placeholder :
  parseStructuredContent (JString []) = TextDoc noContent
  /\ parseStructuredContent JNull = TextDoc noContent
  /\ noContent = JString (lit "No content available").
Proof. repeat split. Qed.

Lemma structuredLines_truthy (text : jsstring) (lines : list jsstring) :
  structuredLines text = Some lines -> truthy text = true.
Proof.
  destruct text; [|reflexivity]. vm_compute. discriminate.
Qed.

Lemma gradesExample_lines :
  structuredLines gradesExample
  = Some [lit "GPA: 3.8 of 4.0"; lit "GPA: 3.9 of 4.0";
          lit "GPA: 3.7 of 4.0"].
Proof. vm_compute. reflexivity. Qed.

End Reconstruct.

(** * Further properties *)

(** ** The chunkers *)

Section Windows.

Variables (text : jsstring) (cs ov : Z).

Lemma truthy_nonEmpty (c : jsstring) : truthy c = (0 <? len c).
Proof. destruct c; reflexivity. Qed.

Lemma filterNonEmpty_app (a b : list jsstring) :
  filterNonEmpty (a ++ b) = filterNonEmpty a ++ filterNonEmpty b.
Proof. unfold filterNonEmpty. apply filter_app. Qed.

Lemma filterNonEmpty_idem (l : list jsstring) :
  filterNonEmpty (filterNonEmpty l) = filterNonEmpty l.
Proof.
  unfold filterNonEmpty. induction l as [|c l IH]; [reflexivity|].
  simpl. destruct (0 <? len c) eqn:E; simpl; rewrite ?E, IH; reflexivity.
Qed.

(** The loop pushes the non-empty chunks of the windows it visits and
    counts them. *)
Lemma whileLoop_windows : forall fuel start acc n r,
  MemoryManager.whileLoop fuel text cs ov start acc n = Some r ->
  filterNonEmpty (chunks r)
  = filterNonEmpty acc
    ++ filterNonEmpty (map (windowChunk text)
                           (windowsFrom fuel text cs ov start))
  /\ iterations r
     = (n + List.length (windowsFrom fuel text cs ov start))%nat.
Proof.
  induction fuel as [|fuel IH]; intros start acc n r H; [discriminate|].
  rewrite whileLoop_unfold in H. simpl windowsFrom.
  destruct (start <? len text) eqn:Es.
  - cbv zeta in H. cbv zeta.
    set (e := MemoryManager.chunkEnd text cs start) in *.
    set (chunk := trim (substring text start e)) in *.
    assert (Hacc : filterNonEmpty (if truthy chunk then acc ++ [chunk] else acc)
                   = filterNonEmpty acc ++ filterNonEmpty [chunk]).
    { pose proof (truthy_nonEmpty chunk) as Ht.
      assert (Hone : filterNonEmpty [chunk]
                     = if truthy chunk then [chunk] else []).
      { unfold filterNonEmpty. simpl. rewrite <- Ht.
        destruct (truthy chunk); reflexivity. }
      destruct (truthy chunk).
      - rewrite filterNonEmpty_app, Hone. reflexivity.
      - rewrite Hone, app_nil_r. reflexivity. }
    destruct (len text <=? Z.max (start + 1) (e - ov)) eqn:El.
    + inversion H; subst r. simpl chunks. simpl iterations. simpl map.
      split; [|simpl; lia]. rewrite Hacc. reflexivity.
    + apply IH in H. destruct H as [Hc Hi]. split.
      * rewrite Hc, Hacc. simpl map.
        change (windowChunk text (start, e)) with chunk.
        rewrite <- app_assoc. f_equal.
        symmetry. apply (filterNonEmpty_app [chunk]).
      * rewrite Hi. simpl. lia.
  - inversion H; subst r. simpl. split; [rewrite app_nil_r; reflexivity|lia].
Qed.

Hypothesis Hcs : 0 < cs.
Hypothesis Hov : 0 <= ov.

Lemma windowsFrom_shape : forall fuel start,
  0 <= start ->
  (Z.of_nat fuel > len text - start) ->
  let ws := windowsFrom fuel text cs ov start in
  linked ov ws
  /\ Forall (fun w => 0 <= fst w < len text
                      /\ fst w + cs / 2 + 1 <= snd w <= fst w + cs + 1
                      /\ (fst w + cs < len text -> snd w <= len text)
                      /\ (len text <= fst w + cs -> snd w = fst w + cs)) ws
  /\ (start < len text ->
      (exists e r, ws = (start, e) :: r)
      /\ len text <= snd (last ws (0, 0))).
Proof.
  induction fuel as [|fuel IH]; intros start Hs Hf.
  - cbv zeta. simpl. split; [exact I|]. split; [constructor|].
    intros. lia.
  - cbv zeta. simpl windowsFrom.
    destruct (start <? len text) eqn:Es.
    + apply Z.ltb_lt in Es.
      pose proof (chunkEnd_bounds text cs start Hcs Hs) as [Hb Hin].
      pose proof (chunkEnd_last text cs start) as Hraw.
      set (e := MemoryManager.chunkEnd text cs start) in *.
      destruct (len text <=? Z.max (start + 1) (e - ov)) eqn:El.
      * apply Z.leb_le in El. split; [exact I|]. split.
        -- constructor; [simpl; lia|constructor].
        -- intros _. split; [eauto|]. simpl. divlia.
      * apply Z.leb_gt in El.
        destruct (IH (Z.max (start + 1) (e - ov)) ltac:(lia) ltac:(lia))
          as (Hl & Hall & Hfirst).
        destruct (Hfirst El) as ((e' & r & Hws) & Hlast).
        rewrite Hws in *. split; [|split].
        -- simpl. split; [simpl; divlia|]. split; [simpl; lia|exact Hl].
        -- constructor; [simpl; lia|exact Hall].
        -- intros _. split; [eauto|]. exact Hlast.
    + apply Z.ltb_ge in Es. split; [exact I|]. split; [constructor|].
      intros. lia.
Qed.

End Windows.

Section MoreLoopFacts.

Variables (text : jsstring) (cs ov : Z).

Lemma whileLoop_at_most_length : forall fuel start acc n r,
  Z.of_nat n <= start ->
  MemoryManager.whileLoop fuel text cs ov start acc n = Some r ->
  iterations r = n \/ Z.of_nat (iterations r) <= len text.
Proof.
  induction fuel as [|fuel IH]; intros start acc n r Hn H; [discriminate|].
  rewrite whileLoop_unfold in H.
  destruct (start <? len text) eqn:Es; [|inversion H; auto].
  apply Z.ltb_lt in Es. cbv zeta in H.
  destruct (len text <=? _) eqn:El.
  - inversion H; subst r. simpl. right. lia.
  - apply IH in H; [|lia]. destruct H as [H|H]; [|auto].
    right. rewrite H. lia.
Qed.

Lemma trim_length (s : jsstring) : len (trim s) <= len s.
Proof.
  destruct (trim_split s) as (a & b & Hs & _ & _).
  rewrite Hs at 2. rewrite !len_app.
  pose proof (len_nonneg a). pose proof (len_nonneg b). lia.
Qed.

Lemma substring_length (s : jsstring) a b :
  0 <= a <= b -> len (substring s a b) <= b - a.
Proof.
  intros Hab. unfold substring, slice. cbv zeta. unfold len.
  rewrite length_firstn. lia.
Qed.

Lemma bounded_loop : forall fuel start acc n r,
  0 < cs -> 0 <= start ->
  Forall (fun c => len c <= cs + 1) acc ->
  MemoryManager.whileLoop fuel text cs ov start acc n = Some r ->
  Forall (fun c => len c <= cs + 1) (chunks r).
Proof.
  induction fuel as [|fuel IH]; intros start acc n r Hcs Hs Hacc H;
    [discriminate|].
  rewrite whileLoop_unfold in H.
  destruct (start <? len text); [|inversion H; exact Hacc].
  cbv zeta in H.
  pose proof (chunkEnd_bounds text cs start Hcs Hs) as [Hb _].
  set (e := MemoryManager.chunkEnd text cs start) in *.
  set (chunk := trim (substring text start e)) in *.
  assert (Hchunk : len chunk <= cs + 1).
  { pose proof (trim_length (substring text start e)).
    pose proof (substring_length text start e ltac:(divlia)).
    fold chunk in H0. lia. }
  assert (Hacc' : Forall (fun c => len c <= cs + 1)
                    (if truthy chunk then acc ++ [chunk] else acc)).
  { destruct (truthy chunk); [|exact Hacc].
    apply Forall_app. split; [exact Hacc|]. constructor; [exact Hchunk|].
    constructor. }
  destruct (len text <=? _).
  - inversion H. exact Hacc'.
  - eapply IH; [exact Hcs| |exact Hacc'|exact H]. lia.
Qed.

(** With an overlap of at least the chunk size the cursor advances by one
    character at a time. *)
Lemma crawling_loop : forall fuel start acc n r,
  0 < cs -> cs <= ov -> 0 <= start <= len text ->
  MemoryManager.whileLoop fuel text cs ov start acc n = Some r ->
  Z.of_nat (iterations r) = Z.of_nat n + (len text - start).
Proof.
  induction fuel as [|fuel IH]; intros start acc n r Hcs Hov Hs H;
    [discriminate|].
  rewrite whileLoop_unfold in H.
  destruct (start <? len text) eqn:Es.
  - apply Z.ltb_lt in Es. cbv zeta in H.
    pose proof (chunkEnd_bounds text cs start Hcs ltac:(lia)) as [Hb _].
    replace (Z.max (start + 1)
                   (MemoryManager.chunkEnd text cs start - ov))
      with (start + 1) in H by lia.
    destruct (len text <=? start + 1) eqn:El.
    + apply Z.leb_le in El. inversion H; subst r. simpl iterations. lia.
    + apply Z.leb_gt in El. apply IH in H; try assumption; lia.
  - apply Z.ltb_ge in Es. inversion H; subst r. simpl. lia.
Qed.

End MoreLoopFacts.

Lemma async_run_unfold text cs ov :
  OptimizedDocumentProcessor.splitTextAsyncChunksRun text cs ov =
  match MemoryManager.whileLoop (S (List.length text)) text cs ov 0 [] 0 with
  | Some r => Some (mkRun (filterNonEmpty (chunks r)) (iterations r))
  | None => None
  end.
Proof. reflexivity. Qed.

Lemma substring_held (s : jsstring) a b :
  0 <= a <= b -> a <= len s ->
  len (substring s a b) = Z.min b (len s) - a.
Proof.
  intros Hab Ha. rewrite substring_slice by assumption.
  unfold slice, len in *. rewrite length_firstn, length_skipn. lia.
Qed.

(** X1.  In a text longer than [chunkSize] the chunks are cut from a chain
    of windows.  The first window starts at index 0; the end of a window
    lies between [chunkSize / 2 + 1] and [chunkSize + 1] positions after
    its start; the next window starts after the start of the one before
    it, at or before its end, and shares at most [overlap] positions with
    it; the end of the last window is at or past the end of the text.  A
    window that starts more than [chunkSize] characters before the end of
    the text ends within the text, and so holds between
    [chunkSize / 2 + 1] and [chunkSize + 1] characters; any other window
    has its end at or past the end of the text and holds only the
    characters from its start to the end of the text.  The chunks returned
    are the trimmed windows that are not empty. *)
Theorem window_chain (text : jsstring) (chunkSize overlap : Z) :
  0 < chunkSize -> 0 <= overlap -> chunkSize < len text ->
  exists (e : Z) (rest : list (Z * Z)),
    let ws := (0, e) :: rest in
    MemoryManager.splitTextIntoChunks text chunkSize overlap
    = Some (filterNonEmpty (map (windowChunk text) ws))
    /\ linked overlap ws
    /\ Forall (fun w => 0 <= fst w < len text
                        /\ fst w + chunkSize / 2 + 1 <= snd w
                           <= fst w + chunkSize + 1
                        /\ len (substring text (fst w) (snd w))
                           = heldBy text w
                        /\ (fst w + chunkSize < len text ->
                            heldBy text w = snd w - fst w)
                        /\ (len text <= fst w + chunkSize ->
                            heldBy text w = len text - fst w)) ws
    /\ len text <= snd (last ws (0, 0)).
Proof.
  intros Hcs Hov Hlen.
  assert (Ht : truthy text = true) by (apply truthy_len; lia).
  destruct (loop_from_start text chunkSize overlap) as (r & Hr).
  destruct (whileLoop_windows text chunkSize overlap _ _ _ _ _ Hr)
    as [Hc _].
  destruct (windowsFrom_shape text chunkSize overlap Hcs Hov
              (S (List.length text)) 0 ltac:(lia)
              ltac:(unfold len; lia)) as (Hl & Hall & Hfirst).
  destruct (Hfirst ltac:(lia)) as ((e & rest & Hws) & Hlast).
  exists e, rest. cbv zeta. rewrite <- Hws.
  split; [|split; [exact Hl|split; [|exact Hlast]]].
  - unfold MemoryManager.splitTextIntoChunks.
    rewrite run_unfold_long by assumption. rewrite Hr. simpl.
    rewrite Hc. reflexivity.
  - eapply Forall_impl; [|exact Hall]. intros w (H1 & H2 & H3 & H4).
    assert (Hhalf : 0 <= chunkSize / 2) by (apply Z.div_pos; lia).
    split; [exact H1|]. split; [exact H2|]. unfold heldBy.
    split; [apply substring_held; lia|]. split; intros H; lia.
Qed.

Lemma window_chain_witness :
  0 < 20 /\ 0 <= 5 /\ 20 < len sampleText
  /\ exists (e : Z) (rest : list (Z * Z)),
       let ws := (0, e) :: rest in
       MemoryManager.splitTextIntoChunks sampleText 20 5
       = Some (filterNonEmpty (map (windowChunk sampleText) ws))
       /\ linked 5 ws
       /\ Forall (fun w => 0 <= fst w < len sampleText
                           /\ fst w + 20 / 2 + 1 <= snd w
                              <= fst w + 20 + 1
                           /\ len (substring sampleText (fst w) (snd w))
                              = heldBy sampleText w
                           /\ (fst w + 20 < len sampleText ->
                               heldBy sampleText w = snd w - fst w)
                           /\ (len sampleText <= fst w + 20 ->
                               heldBy sampleText w
                               = len sampleText - fst w)) ws
       /\ len sampleText <= snd (last ws (0, 0)).
Proof.
  split; [lia|]. split; [lia|]. split; [reflexivity|].
  apply (window_chain sampleText 20 5); [lia|lia|reflexivity].
Defined.

(** X2.  For every [chunkSize > 0], and every text and overlap, each chunk
    returned has at most [chunkSize + 1] characters: a window that is cut
    after a sentence terminator found at its raw end is one character
    longer than [chunkSize]. *)
Theorem chunk_length_bound (text : jsstring) (chunkSize overlap : Z) :
  0 < chunkSize ->
  (exists l, MemoryManager.splitTextIntoChunks text chunkSize overlap = Some l
     /\ Forall (fun c => len c <= chunkSize + 1) l)
  /\ (exists l,
        OptimizedDocumentProcessor.splitTextAsyncChunks text chunkSize overlap
        = Some l
        /\ Forall (fun c => len c <= chunkSize + 1) l).
Proof.
  intros Hcs.
  destruct (loop_from_start text chunkSize overlap) as (r & Hr).
  assert (Hb : Forall (fun c => len c <= chunkSize + 1)
                 (filterNonEmpty (chunks r))).
  { pose proof (bounded_loop text chunkSize overlap _ 0 [] 0%nat r Hcs
                  ltac:(lia) ltac:(constructor) Hr) as Hall.
    unfold filterNonEmpty. rewrite Forall_forall in *.
    intros c Hc. apply filter_In in Hc. apply Hall. tauto. }
  split.
  - unfold MemoryManager.splitTextIntoChunks.
    destruct (truthy text) eqn:Et;
      [destruct (Z_lt_le_dec chunkSize (len text)) as [Hl|Hl]|].
    + rewrite run_unfold_long by assumption. rewrite Hr.
      eexists. split; [reflexivity|exact Hb].
    + rewrite run_unfold_short by (right; exact Hl).
      eexists. split; [reflexivity|]. constructor; [lia|constructor].
    + rewrite run_unfold_short by (left; exact Et).
      eexists. split; [reflexivity|].
      destruct text; [|discriminate]. constructor; [|constructor].
      unfold len. simpl. lia.
  - unfold OptimizedDocumentProcessor.splitTextAsyncChunks.
    rewrite async_run_unfold, Hr. eexists. split; [reflexivity|exact Hb].
Qed.

Lemma chunk_length_bound_witness :
  0 < 20
  /\ (exists l, MemoryManager.splitTextIntoChunks sampleText 20 5 = Some l
        /\ Forall (fun c => len c <= 20 + 1) l)
  /\ (exists l,
        OptimizedDocumentProcessor.splitTextAsyncChunks sampleText 20 5
        = Some l
        /\ Forall (fun c => len c <= 20 + 1) l).
Proof. split; [lia|]. apply (chunk_length_bound sampleText 20 5). lia. Defined.

(** The bound of X2 is reached: the second chunk of the sample text has
    [chunkSize + 1] characters. *)
Lemma chunk_length_bound_reached :
  exists l c,
    MemoryManager.splitTextIntoChunks sampleText 20 5 = Some l
    /\ In c l /\ len c = 20 + 1.
Proof.
  eexists. exists (lit "orld. This is a test!").
  split; [vm_compute; reflexivity|]. split; [|reflexivity].
  right. left. reflexivity.
Qed.

(** X3.  The chunkers return for every text and every integer chunk size
    and overlap, also non-positive chunk sizes, negative overlaps and
    overlaps of the chunk size or more, and the body of the loop runs at
    most [length text] times: every iteration moves the cursor forward by
    at least one character. *)
Theorem chunkers_always_return (text : jsstring) (chunkSize overlap : Z) :
  (exists r, MemoryManager.splitTextIntoChunksRun text chunkSize overlap
             = Some r
     /\ Z.of_nat (iterations r) <= len text)
  /\ (exists r,
        OptimizedDocumentProcessor.splitTextAsyncChunksRun
          text chunkSize overlap = Some r
        /\ Z.of_nat (iterations r) <= len text).
Proof.
  destruct (loop_from_start text chunkSize overlap) as (r & Hr).
  pose proof (len_nonneg text) as Hl.
  assert (Hit : Z.of_nat (iterations r) <= len text).
  { destruct (whileLoop_at_most_length text chunkSize overlap _ 0 [] 0%nat r
                ltac:(simpl; lia) Hr) as [H|H]; [rewrite H; simpl; lia|lia]. }
  split.
  - unfold MemoryManager.splitTextIntoChunksRun.
    destruct (negb (truthy text) || (len text <=? chunkSize)).
    + eexists. split; [reflexivity|]. simpl. lia.
    + rewrite Hr. eexists. split; [reflexivity|exact Hit].
  - rewrite async_run_unfold, Hr. eexists. split; [reflexivity|exact Hit].
Qed.

(** X4.  With an overlap of at least the chunk size the cursor advances by
    exactly one character per iteration: on a text longer than [chunkSize]
    the loop of [splitTextIntoChunks] runs [length text] times, and so does
    the loop of [splitTextAsyncChunks] on every text. *)
Theorem overlap_not_below_chunk_size (text : jsstring)
    (chunkSize overlap : Z) :
  0 < chunkSize -> chunkSize <= overlap ->
  (chunkSize < len text ->
   exists r, MemoryManager.splitTextIntoChunksRun text chunkSize overlap
             = Some r
     /\ iterations r = List.length text)
  /\ (exists r,
        OptimizedDocumentProcessor.splitTextAsyncChunksRun
          text chunkSize overlap = Some r
        /\ iterations r = List.length text).
Proof.
  intros Hcs Hov.
  destruct (loop_from_start text chunkSize overlap) as (r & Hr).
  pose proof (len_nonneg text) as Hl.
  pose proof (crawling_loop text chunkSize overlap _ 0 [] 0%nat r Hcs Hov
                ltac:(lia) Hr) as Hit.
  assert (Hn : iterations r = List.length text) by (unfold len in *; lia).
  split.
  - intros Hlen.
    assert (Ht : truthy text = true) by (apply truthy_len; lia).
    rewrite run_unfold_long by assumption. rewrite Hr.
    eexists. split; [reflexivity|exact Hn].
  - rewrite async_run_unfold, Hr. eexists. split; [reflexivity|exact Hn].
Qed.

Lemma overlap_not_below_chunk_size_witness :
  0 < 20 /\ 20 <= 25
  /\ (20 < len sampleText ->
      exists r, MemoryManager.splitTextIntoChunksRun sampleText 20 25 = Some r
        /\ iterations r = List.length sampleText)
  /\ (exists r,
        OptimizedDocumentProcessor.splitTextAsyncChunksRun sampleText 20 25
        = Some r
        /\ iterations r = List.length sampleText).
Proof.
  split; [lia|]. split; [lia|].
  apply (overlap_not_below_chunk_size sampleText 20 25); lia.
Defined.

(** X5.  On a text longer than [chunkSize] the browser-side
    [splitTextAsyncChunks] returns the chunks the backend
    [splitTextIntoChunks] returns. *)
Theorem async_agrees_on_long_text (text : jsstring) (chunkSize overlap : Z) :
  0 < chunkSize -> chunkSize < len text ->
  OptimizedDocumentProcessor.splitTextAsyncChunks text chunkSize overlap
  = MemoryManager.splitTextIntoChunks text chunkSize overlap.
Proof.
  intros Hcs Hlen.
  assert (Ht : truthy text = true) by (apply truthy_len; lia).
  unfold OptimizedDocumentProcessor.splitTextAsyncChunks,
         MemoryManager.splitTextIntoChunks.
  rewrite async_run_unfold. rewrite run_unfold_long by assumption.
  reflexivity.
Qed.

Lemma async_agrees_on_long_text_witness :
  0 < 20 /\ 20 < len sampleText
  /\ OptimizedDocumentProcessor.splitTextAsyncChunks sampleText 20 5
     = MemoryManager.splitTextIntoChunks sampleText 20 5.
Proof.
  split; [lia|]. split; [reflexivity|].
  apply (async_agrees_on_long_text sampleText 20 5); [lia|reflexivity].
Defined.



(** ** Grouping and sorting of items *)

Section Grouping.

Import TextFormatter FormatterVocabulary.

Lemma Category_eqb_spec (a b : Category) : Category_eqb a b = true <-> a = b.
Proof. destruct a, b; simpl; split; intros H; congruence. Qed.

Lemma Category_eqb_refl (a : Category) : Category_eqb a a = true.
Proof. apply Category_eqb_spec. reflexivity. Qed.

Lemma Category_eqb_sym (a b : Category) : Category_eqb a b = Category_eqb b a.
Proof. destruct a, b; reflexivity. Qed.

Lemma Category_eqb_false (a b : Category) :
  Category_eqb a b = false <-> a <> b.
Proof.
  split.
  - intros H E. apply Category_eqb_spec in E. congruence.
  - intros H. destruct (Category_eqb a b) eqn:E; [|reflexivity].
    apply Category_eqb_spec in E. contradiction.
Qed.

(** *** The distinct categories *)

Lemma distinct_In (k : Category) (l : list Category) :
  In k (distinct l) <-> In k l.
Proof.
  induction l as [|a l IH]; simpl; [tauto|].
  rewrite filter_In, IH. split.
  - intros [H|[H _]]; auto.
  - intros [H|H]; [auto|].
    destruct (Category_eqb k a) eqn:E.
    + apply Category_eqb_spec in E. auto.
    + right. split; [exact H|reflexivity].
Qed.

Lemma distinct_NoDup (l : list Category) : NoDup (distinct l).
Proof.
  induction l as [|a l IH]; simpl; constructor.
  - rewrite filter_In. intros [_ H].
    rewrite Category_eqb_refl in H. discriminate.
  - apply NoDup_filter. exact IH.
Qed.

Lemma distinct_snoc (l : list Category) (k : Category) :
  distinct (l ++ [k]) = if existsb (Category_eqb k) l then distinct l
                        else distinct l ++ [k].
Proof.
  induction l as [|a l IH]; [reflexivity|].
  simpl. rewrite IH. destruct (Category_eqb k a) eqn:E; simpl.
  - destruct (existsb (Category_eqb k) l); [reflexivity|].
    rewrite filter_app. simpl. rewrite E. simpl. rewrite app_nil_r.
    reflexivity.
  - destruct (existsb (Category_eqb k) l); [reflexivity|].
    rewrite filter_app. simpl. rewrite E. reflexivity.
Qed.

Lemma existsb_In (k : Category) (l : list Category) :
  existsb (Category_eqb k) l = true <-> In k l.
Proof.
  rewrite existsb_exists. split.
  - intros (x & Hx & E). apply Category_eqb_spec in E. congruence.
  - intros H. exists k. split; [exact H|apply Category_eqb_refl].
Qed.

(** *** pushGroup on a table of groups *)

Lemma pushGroup_present f k i : forall ks,
  NoDup ks -> In k ks ->
  pushGroup k i (table f ks)
  = table (fun k' => if Category_eqb k' k then f k' ++ [i] else f k') ks.
Proof.
  induction ks as [|a ks IH]; intros Hnd Hin; [contradiction|].
  inversion Hnd as [|? ? Hna Hnd']; subst. simpl.
  destruct (Category_eqb k a) eqn:E.
  - apply Category_eqb_spec in E. subst a. rewrite Category_eqb_refl.
    f_equal. unfold table. apply map_ext_in. intros k' Hk'.
    destruct (Category_eqb k' k) eqn:E'; [|reflexivity].
    apply Category_eqb_spec in E'. subst. contradiction.
  - rewrite Category_eqb_sym, E. f_equal. apply IH; [exact Hnd'|].
    destruct Hin as [->|H]; [|exact H].
    rewrite Category_eqb_refl in E. discriminate.
Qed.

Lemma pushGroup_absent f k i : forall ks,
  ~ In k ks -> pushGroup k i (table f ks) = table f ks ++ [(k, [i])].
Proof.
  induction ks as [|a ks IH]; intros Hin; [reflexivity|].
  simpl. destruct (Category_eqb k a) eqn:E.
  - apply Category_eqb_spec in E. subst. exfalso. apply Hin. left.
    reflexivity.
  - f_equal. apply IH. intros H. apply Hin. right. exact H.
Qed.

Lemma inCategory_snoc k l i :
  inCategory k (l ++ [i])
  = if Category_eqb (categoryOf i) k then inCategory k l ++ [i]
    else inCategory k l.
Proof.
  unfold inCategory. rewrite filter_app. simpl.
  destruct (Category_eqb (categoryOf i) k); [reflexivity|apply app_nil_r].
Qed.

Lemma inCategory_none k l :
  ~ In k (map categoryOf l) -> inCategory k l = [].
Proof.
  induction l as [|a l IH]; intros H; [reflexivity|].
  unfold inCategory in *. simpl.
  destruct (Category_eqb (categoryOf a) k) eqn:E.
  - apply Category_eqb_spec in E. exfalso. apply H. left. exact E.
  - apply IH. intros H'. apply H. right. exact H'.
Qed.

Lemma pushGroup_grouped l i :
  pushGroup (categoryOf i) i (grouped l) = grouped (l ++ [i]).
Proof.
  unfold grouped. rewrite map_app. simpl. rewrite distinct_snoc.
  destruct (existsb (Category_eqb (categoryOf i)) (map categoryOf l)) eqn:E.
  - apply existsb_In in E.
    rewrite pushGroup_present;
      [|apply distinct_NoDup|apply distinct_In; exact E].
    unfold table. apply map_ext. intros k. rewrite inCategory_snoc.
    rewrite (Category_eqb_sym k). reflexivity.
  - assert (Hn : ~ In (categoryOf i) (map categoryOf l)).
    { intros H. apply existsb_In in H. congruence. }
    rewrite pushGroup_absent by (rewrite distinct_In; exact Hn).
    unfold table. rewrite map_app. simpl. f_equal.
    + apply map_ext_in. intros k Hk. rewrite inCategory_snoc.
      destruct (Category_eqb (categoryOf i) k) eqn:E'; [|reflexivity].
      apply Category_eqb_spec in E'. subst k.
      rewrite distinct_In in Hk. contradiction.
    + rewrite inCategory_snoc, Category_eqb_refl.
      rewrite inCategory_none by exact Hn. reflexivity.
Qed.

Lemma fold_grouped : forall l2 l1,
  fold_left groupStep l2 (grouped l1) = grouped (l1 ++ l2).
Proof.
  induction l2 as [|i l2 IH]; intros l1; simpl.
  - rewrite app_nil_r. reflexivity.
  - unfold groupStep at 2. rewrite pushGroup_grouped, IH.
    rewrite <- app_assoc. reflexivity.
Qed.

(** *** The stable sort *)

Lemma insert_after (i : Item) : forall A B,
  Forall (fun j => priorityOrder (priority i) <= priorityOrder (priority j))
         A ->
  Forall (fun j => priorityOrder (priority j) < priorityOrder (priority i)) B ->
  insertByPriority i (A ++ B) = A ++ i :: B.
Proof.
  induction A as [|a A IH]; intros B HA HB; simpl.
  - destruct B as [|b B]; [reflexivity|]. simpl.
    inversion HB as [|? ? Hb _]; subst.
    apply Z.ltb_lt in Hb. rewrite Hb. reflexivity.
  - inversion HA as [|? ? Ha HA']; subst.
    assert (E : (priorityOrder (priority a) <? priorityOrder (priority i))
                = false) by (apply Z.ltb_ge; exact Ha).
    rewrite E. f_equal. apply IH; assumption.
Qed.

Lemma Priority_eqb_spec (a b : Priority) : Priority_eqb a b = true <-> a = b.
Proof. destruct a, b; simpl; split; intros H; congruence. Qed.

Lemma withPriority_all p l :
  Forall (fun j => priority j = p) (withPriority p l).
Proof.
  unfold withPriority. apply Forall_forall. intros j Hj.
  apply filter_In in Hj. apply Priority_eqb_spec. tauto.
Qed.

Lemma withPriority_snoc p l i :
  withPriority p (l ++ [i])
  = if Priority_eqb (priority i) p then withPriority p l ++ [i]
    else withPriority p l.
Proof.
  unfold withPriority. rewrite filter_app. simpl.
  destruct (Priority_eqb (priority i) p); [reflexivity|apply app_nil_r].
Qed.

Lemma Forall_rank (P : Z -> Prop) p l :
  P (priorityOrder p) ->
  Forall (fun j => P (priorityOrder (priority j))) (withPriority p l).
Proof.
  intros H. eapply Forall_impl; [|apply withPriority_all].
  intros j Hj. simpl in Hj. rewrite Hj. exact H.
Qed.

Lemma insert_byPriority l i :
  insertByPriority i (byPriority l) = byPriority (l ++ [i]).
Proof.
  unfold byPriority. rewrite !withPriority_snoc.
  destruct (priority i) eqn:Ep; simpl.
  - rewrite <- app_assoc. apply insert_after.
    + rewrite Ep. apply (Forall_rank (fun z => 3 <= z)). simpl. lia.
    + rewrite Ep. apply Forall_app. split.
      * apply (Forall_rank (fun z => z < 3)). simpl. lia.
      * apply (Forall_rank (fun z => z < 3)). simpl. lia.
  - rewrite (app_assoc (withPriority high l)).
    rewrite (app_assoc (withPriority high l) (withPriority medium l ++ [i])).
    rewrite (app_assoc (withPriority high l) (withPriority medium l) [i]).
    rewrite <- (app_assoc _ [i]). simpl. apply insert_after.
    + rewrite Ep. apply Forall_app. split.
      * apply (Forall_rank (fun z => 2 <= z)). simpl. lia.
      * apply (Forall_rank (fun z => 2 <= z)). simpl. lia.
    + rewrite Ep. apply (Forall_rank (fun z => z < 2)). simpl. lia.
  - rewrite !app_assoc.
    rewrite <- (app_nil_r ((withPriority high l ++ withPriority medium l)
                             ++ withPriority low l)) at 1.
    rewrite insert_after; [reflexivity| |constructor].
    rewrite Ep. apply Forall_app. split; [apply Forall_app; split|].
    + apply (Forall_rank (fun z => 1 <= z)). simpl. lia.
    + apply (Forall_rank (fun z => 1 <= z)). simpl. lia.
    + apply (Forall_rank (fun z => 1 <= z)). simpl. lia.
Qed.

Lemma fold_byPriority : forall l2 l1,
  fold_left (fun sorted i => insertByPriority i sorted) l2 (byPriority l1)
  = byPriority (l1 ++ l2).
Proof.
  induction l2 as [|i l2 IH]; intros l1; simpl.
  - rewrite app_nil_r. reflexivity.
  - rewrite insert_byPriority, IH, <- app_assoc. reflexivity.
Qed.

Lemma sortByPriority_byPriority l : sortByPriority l = byPriority l.
Proof. exact (fold_byPriority l []). Qed.

End Grouping.

Section GroupingTheorems.

Import TextFormatter FormatterVocabulary.

Lemma groupSimilarContent_fold l :
  groupSimilarContent l
  = map (fun g => (fst g, sortByPriority (snd g)))
        (fold_left groupStep l []).
Proof. reflexivity. Qed.

Lemma folded_groups (l : list Item) : fold_left groupStep l [] = grouped l.
Proof.
  change (@nil (Category * list Item)) with (grouped []).
  rewrite fold_grouped. reflexivity.
Qed.

Lemma groups_as_table (l : list Item) :
  groupSimilarContent l
  = table (fun k => byPriority (inCategory k l)) (distinct (map categoryOf l)).
Proof.
  rewrite groupSimilarContent_fold, folded_groups. unfold grouped, table.
  rewrite map_map. apply map_ext. intros k. simpl.
  rewrite sortByPriority_byPriority. reflexivity.
Qed.

Lemma insertByPriority_perm i : forall s,
  Permutation (insertByPriority i s) (i :: s).
Proof.
  induction s as [|j s IH]; simpl; [reflexivity|].
  destruct (_ <? _); [reflexivity|].
  rewrite IH. apply perm_swap.
Qed.

Lemma sortByPriority_perm l : Permutation (sortByPriority l) l.
Proof.
  unfold sortByPriority.
  assert (H : forall l s,
             Permutation
               (fold_left (fun sorted i => insertByPriority i sorted) l s)
               (l ++ s)).
  { clear l. induction l as [|i l IH]; intros s; simpl; [reflexivity|].
    rewrite IH. rewrite insertByPriority_perm.
    symmetry. apply Permutation_middle. }
  rewrite H. rewrite app_nil_r. reflexivity.
Qed.

Lemma pushGroup_perm k i : forall G,
  Permutation (allItems (pushGroup k i G)) (i :: allItems G).
Proof.
  unfold allItems. induction G as [|[k' g] G IH]; simpl; [reflexivity|].
  destruct (Category_eqb k k'); simpl.
  - rewrite <- app_assoc. simpl. symmetry. apply Permutation_middle.
  - rewrite IH. symmetry. apply Permutation_middle.
Qed.

Lemma fold_groupStep_perm : forall l G,
  Permutation (allItems (fold_left groupStep l G)) (l ++ allItems G).
Proof.
  induction l as [|i l IH]; intros G; simpl; [reflexivity|].
  rewrite IH. unfold groupStep. rewrite pushGroup_perm.
  symmetry. apply Permutation_middle.
Qed.

Lemma sorted_groups_perm : forall G,
  Permutation (allItems (map (fun g => (fst g, sortByPriority (snd g))) G))
              (allItems G).
Proof.
  unfold allItems. induction G as [|g G IH]; simpl; [reflexivity|].
  apply Permutation_app; [apply sortByPriority_perm|exact IH].
Qed.

Lemma byPriority_In i l : In i (byPriority l) <-> In i l.
Proof.
  rewrite <- sortByPriority_byPriority.
  split; apply Permutation_in;
    [apply sortByPriority_perm|symmetry; apply sortByPriority_perm].
Qed.

Lemma sorted_app (A B : list Item) :
  StronglySorted notBelow A -> StronglySorted notBelow B ->
  (forall a b, In a A -> In b B -> notBelow a b) ->
  StronglySorted notBelow (A ++ B).
Proof.
  induction A as [|a A IH]; intros HA HB H; simpl; [exact HB|].
  inversion HA as [|? ? HA' Hall]; subst. constructor.
  - apply IH; [exact HA'|exact HB|]. intros x y Hx Hy. apply H; [right|];
      assumption.
  - apply Forall_app. split; [exact Hall|].
    apply Forall_forall. intros y Hy. apply H; [left; reflexivity|exact Hy].
Qed.

Lemma sorted_same p (A : list Item) :
  Forall (fun j => priority j = p) A -> StronglySorted notBelow A.
Proof.
  induction 1 as [|a A Ha Hall IH]; constructor; [exact IH|].
  eapply Forall_impl; [|exact Hall]. intros b Hb. simpl in Hb.
  unfold notBelow. rewrite Ha, Hb. lia.
Qed.

Lemma byPriority_sorted l : StronglySorted notBelow (byPriority l).
Proof.
  unfold byPriority.
  pose proof (withPriority_all high l) as Hh.
  pose proof (withPriority_all medium l) as Hm.
  pose proof (withPriority_all low l) as Hl.
  rewrite Forall_forall in Hh, Hm, Hl.
  apply sorted_app; [eapply sorted_same; apply withPriority_all| |].
  - apply sorted_app; try (eapply sorted_same; apply withPriority_all).
    intros a b Ha Hb. unfold notBelow. rewrite (Hm a Ha), (Hl b Hb).
    simpl. lia.
  - intros a b Ha Hb. unfold notBelow. rewrite (Hh a Ha).
    apply in_app_or in Hb. destruct Hb as [Hb|Hb];
      [rewrite (Hm b Hb)|rewrite (Hl b Hb)]; simpl; lia.
Qed.

Lemma groups_perm (l : list Item) :
  Permutation (allItems (groupSimilarContent l)) l.
Proof.
  rewrite groupSimilarContent_fold. rewrite sorted_groups_perm.
  rewrite fold_groupStep_perm. unfold allItems. simpl.
  rewrite app_nil_r. reflexivity.
Qed.

Lemma groups_members (l : list Item) :
  Forall (fun g =>
            snd g <> []
            /\ Forall (fun i => categoryOf i = fst g) (snd g)
            /\ StronglySorted notBelow (snd g)) (groupSimilarContent l).
Proof.
  rewrite groups_as_table. unfold table. apply Forall_forall.
  intros g Hg. apply in_map_iff in Hg. destruct Hg as (k & <- & Hk).
  simpl. split; [|split].
  - rewrite distinct_In in Hk. apply in_map_iff in Hk.
    destruct Hk as (i & Hi & Hin).
    assert (Hc : In i (byPriority (inCategory k l))).
    { apply byPriority_In. unfold inCategory. apply filter_In.
      split; [exact Hin|]. apply Category_eqb_spec. exact Hi. }
    intros E. rewrite E in Hc. contradiction.
  - apply Forall_forall. intros i Hi. rewrite byPriority_In in Hi.
    unfold inCategory in Hi. apply filter_In in Hi.
    apply Category_eqb_spec. tauto.
  - apply byPriority_sorted.
Qed.

Lemma processed_items (pat : Regex.re) : forall lines,
  Forall2 (itemOfLine pat) (keptLines pat lines)
    (flat_map (fun line =>
       if Regex.test pat line then
         let content := trim (Regex.replaceFirst pat [] line) in
         let priority := assessContentPriority content in
         [mkItem listItem content priority
                 (Some (categorizeContent content))]
       else if 10 <? len line then
         [mkItem description line (assessContentPriority line) None]
       else []) lines).
Proof.
  induction lines as [|line lines IH]; [constructor|].
  unfold keptLines in *. cbn [flat_map filter].
  destruct (Regex.test pat line) eqn:Et; cbn [orb app].
  - constructor; [|exact IH]. left. cbn [itemType content priority category].
    repeat split; try reflexivity. exact Et.
  - destruct (10 <? len line) eqn:El; cbn [app]; [|exact IH].
    constructor; [|exact IH]. right.
    cbn [itemType content priority category]. apply Z.ltb_lt in El.
    repeat split; try reflexivity; assumption.
Qed.

(** X7.  [groupSimilarContent] returns one group for each category that
    occurs among the items (an item without a category counts as general),
    in the order in which the categories first occur; the group of a
    category holds the items of that category, the high ones first, then
    the medium ones, then the low ones, each run in the order of the
    input: the sort is stable. *)
Theorem groupSimilarContent_spec (l : list Item) :
  groupSimilarContent l
  = map (fun k => (k, byPriority (inCategory k l)))
        (distinct (map categoryOf l)).
Proof.
  rewrite groupSimilarContent_fold, folded_groups. unfold grouped, table.
  rewrite map_map. apply map_ext. intros k. cbn [fst snd].
  apply f_equal. apply sortByPriority_byPriority.
Qed.

(** X8.  [groupSimilarContent] loses and invents nothing: the items of all
    groups together are a rearrangement of the items given.  No category
    has two groups, no group is empty, every item lies in the group of its
    own category, and within a group no item comes before an item of
    higher priority. *)
Theorem groupSimilarContent_groups (l : list Item) :
  let groups := groupSimilarContent l in
  Permutation (allItems groups) l
  /\ NoDup (map fst groups)
  /\ Forall (fun g =>
               snd g <> []
               /\ Forall (fun i => categoryOf i = fst g) (snd g)
               /\ StronglySorted notBelow (snd g)) groups.
Proof.
  cbv zeta. split; [apply groups_perm|]. split; [|apply groups_members].
  rewrite groups_as_table. unfold table. rewrite map_map. cbn [fst].
  rewrite map_id. apply distinct_NoDup.
Qed.

(** X9.  [parseListContent] keeps the lines that match the list pattern
    and the other lines of more than ten characters, and drops the rest.
    Of every line kept it makes exactly one item, in the order of the
    lines: of a list line a list item whose content is the line without
    its marker, trimmed, with the priority and the category of that
    content; of another line a description whose content is the line,
    with the priority of the line and no category.  The groups of the
    result hold exactly these items, each in the group of its category,
    a description in the group general, and no category has two
    groups. *)
Theorem parseListContent_items (lines : list jsstring) (pat : Regex.re) :
  exists groups its,
    parseListContent lines pat = EnhancedListDoc groups
    /\ Forall2 (itemOfLine pat) (keptLines pat lines) its
    /\ Permutation (allItems groups) its
    /\ NoDup (map fst groups)
    /\ Forall (fun g => Forall (fun i => categoryOf i = fst g) (snd g))
              groups.
Proof.
  unfold parseListContent. cbv zeta.
  set (items := flat_map _ lines).
  exists (groupSimilarContent items), items. split; [reflexivity|].
  split; [apply processed_items|].
  split; [apply groups_perm|].
  split.
  - rewrite groups_as_table. unfold table. rewrite map_map. cbn [fst].
    rewrite map_id. apply distinct_NoDup.
  - eapply Forall_impl; [|apply groups_members].
    intros g (_ & H & _). exact H.
Qed.

End GroupingTheorems.

(** ** Sections *)

Section Sections.

Import TextFormatter FormatterVocabulary.

Lemma sectionStep_header state line :
  Regex.test sectionHeader line = true ->
  openSections (sectionStep state line)
  = openSections state ++ [mkSection (headerTitle line) []].
Proof.
  intros H. destruct state as [secs cur]. unfold sectionStep. rewrite H.
  unfold openSections. destruct cur; simpl; rewrite ?app_nil_r; reflexivity.
Qed.

Lemma sectionStep_other state line :
  Regex.test sectionHeader line = false ->
  map title (openSections (sectionStep state line))
  = map title (openSections state)
  /\ (snd state = None -> sectionStep state line = state)
  /\ (Forall (fun s => Forall plainBullet (items s)) (openSections state) ->
      Forall (fun s => Forall plainBullet (items s))
             (openSections (sectionStep state line))).
Proof.
  intros H. destruct state as [secs cur]. unfold sectionStep. rewrite H.
  destruct cur as [s|]; [|repeat split; auto].
  assert (Hpush : forall new,
            Forall plainBullet new ->
            map title (openSections (secs, Some (pushItems s new)))
            = map title (openSections (secs, Some s))
            /\ (Forall (fun s => Forall plainBullet (items s))
                       (openSections (secs, Some s)) ->
                Forall (fun s => Forall plainBullet (items s))
                       (openSections (secs, Some (pushItems s new))))).
  { intros new Hnew. unfold openSections. simpl. split.
    - rewrite !map_app. reflexivity.
    - intros Hall. apply Forall_app in Hall. destruct Hall as [H1 H2].
      apply Forall_app. split; [exact H1|]. constructor; [|constructor].
      simpl. apply Forall_app. split; [|exact Hnew].
      inversion H2; assumption. }
  destruct (Regex.test bulletOrNumber line).
  - destruct (Hpush [mkItem bullet
                       (trim (Regex.replaceFirst bulletOrNumber [] line))
                       (assessContentPriority
                          (trim (Regex.replaceFirst bulletOrNumber [] line)))
                       None]) as [H1 H2].
    { constructor; [split; reflexivity|constructor]. }
    split; [exact H1|]. split; [discriminate|exact H2].
  - destruct (15 <? len line); [|repeat split; auto; discriminate].
    cbv zeta.
    destruct (100 <? len (trim (Regex.replaceFirst bulletsAndSpaces [] line))).
    + match goal with
      | |- context [pushItems s ?new] => destruct (Hpush new) as [H1 H2]
      end.
      { apply Forall_forall. intros i Hi. apply in_map_iff in Hi.
        destruct Hi as (x & <- & _). split; reflexivity. }
      split; [exact H1|]. split; [discriminate|exact H2].
    + match goal with
      | |- context [pushItems s ?new] => destruct (Hpush new) as [H1 H2]
      end.
      { constructor; [split; reflexivity|constructor]. }
      split; [exact H1|]. split; [discriminate|exact H2].
Qed.

Lemma fold_sectionStep : forall lines state,
  Forall (fun s => Forall plainBullet (items s)) (openSections state) ->
  map title (openSections (fold_left sectionStep lines state))
  = map title (openSections state)
    ++ map headerTitle (filter (Regex.test sectionHeader) lines)
  /\ Forall (fun s => Forall plainBullet (items s))
            (openSections (fold_left sectionStep lines state)).
Proof.
  induction lines as [|line lines IH]; intros state Hst; simpl.
  - rewrite app_nil_r. auto.
  - destruct (Regex.test sectionHeader line) eqn:E.
    + pose proof (sectionStep_header state line E) as Hh.
      destruct (IH (sectionStep state line)) as [H1 H2].
      { rewrite Hh. apply Forall_app. split; [exact Hst|].
        constructor; [constructor|constructor]. }
      split; [|exact H2]. rewrite H1, Hh, map_app. simpl.
      rewrite <- app_assoc. reflexivity.
    + destruct (sectionStep_other state line E) as (Ht & _ & Hb).
      destruct (IH (sectionStep state line) (Hb Hst)) as [H1 H2].
      split; [|exact H2]. rewrite H1, Ht. reflexivity.
Qed.

Lemma parseStructuredSections_open lines :
  parseStructuredSections lines
  = SectionsDoc
      (map (fun s => mkSection (title s) (map forceBullet (items s)))
           (openSections (fold_left sectionStep lines ([], None)))).
Proof.
  unfold parseStructuredSections, openSections.
  destruct (fold_left sectionStep lines ([], None)) as [secs cur].
  simpl. destruct cur; rewrite ?app_nil_r; reflexivity.
Qed.

(** X10.  [parseStructuredSections] opens one section for every line that
    matches the header pattern of line 192, in order, titled with that line
    less its number prefix and its final colon; every item of every section
    is a bullet without a category. *)
Theorem section_titles (lines : list jsstring) :
  exists sections,
    parseStructuredSections lines = SectionsDoc sections
    /\ map title sections
       = map headerTitle (filter (Regex.test sectionHeader) lines)
    /\ Forall (fun s => Forall plainBullet (items s)) sections.
Proof.
  rewrite parseStructuredSections_open. eexists. split; [reflexivity|].
  destruct (fold_sectionStep lines ([], None)) as [H1 H2]; [constructor|].
  split.
  - rewrite map_map. simpl. exact H1.
  - apply Forall_forall. intros s Hs. apply in_map_iff in Hs.
    destruct Hs as (s0 & <- & Hs0). simpl.
    rewrite Forall_forall in H2. specialize (H2 s0 Hs0).
    apply Forall_forall. intros i Hi. apply in_map_iff in Hi.
    destruct Hi as (i0 & <- & Hi0). rewrite Forall_forall in H2.
    destruct (H2 i0 Hi0) as [_ Hc]. split; [reflexivity|exact Hc].
Qed.

Lemma fold_preamble : forall pre,
  Forall (fun line => Regex.test sectionHeader line = false) pre ->
  fold_left sectionStep pre ([], None) = ([], None).
Proof.
  induction 1 as [|line pre Hl _ IH]; [reflexivity|].
  cbn [fold_left].
  destruct (sectionStep_other ([], None) line Hl) as (_ & Hs & _).
  rewrite (Hs eq_refl). exact IH.
Qed.

(** X11.  Whatever comes before the first header line is discarded: lines
    that do not match the header pattern, put in front of a document, do not
    change what [parseStructuredSections] returns. *)
Theorem preamble_discarded (pre lines : list jsstring) :
  Forall (fun line => Regex.test sectionHeader line = false) pre ->
  parseStructuredSections (pre ++ lines) = parseStructuredSections lines.
Proof.
  intros Hpre. unfold parseStructuredSections.
  rewrite fold_left_app, (fold_preamble pre Hpre). reflexivity.
Qed.

Lemma preamble_discarded_witness :
  Forall (fun line => Regex.test sectionHeader line = false)
         [lit "An opening remark"; lit "- and a bullet"]
  /\ parseStructuredSections
       ([lit "An opening remark"; lit "- and a bullet"]
        ++ [lit "SKILLS:"; lit "- Python"])
     = parseStructuredSections [lit "SKILLS:"; lit "- Python"].
Proof.
  assert (H : Forall (fun line => Regex.test sectionHeader line = false)
                     [lit "An opening remark"; lit "- and a bullet"]).
  { repeat constructor. }
  split; [exact H|].
  apply (preamble_discarded [lit "An opening remark"; lit "- and a bullet"]
           [lit "SKILLS:"; lit "- Python"] H).
Defined.

(** X12.  The header test that classifies a document as Sectioned accepts a
    numbered header that is followed by more text on its line, and the
    header test that opens sections does not.  When the lines of a document
    pass the first test and none passes the second, [parseStructuredContent]
    returns a Sectioned document without any section: every line is
    lost. *)
Theorem sectioned_without_sections (text : jsstring)
    (lines : list jsstring) :
  structuredLines text = Some lines ->
  hasHeaders lines = true ->
  Forall (fun line => Regex.test sectionHeader line = false) lines ->
  parseStructuredContent (JString text) = SectionsDoc [].
Proof.
  intros Hlines Hh Hno.
  pose proof (structuredLines_truthy text lines Hlines) as Ht.
  unfold parseStructuredContent. rewrite Ht, Hlines, Hh. simpl negb.
  cbv iota.
  unfold parseStructuredSections. rewrite (fold_preamble lines Hno).
  reflexivity.
Qed.

Lemma sectioned_without_sections_witness :
  parseStructuredContent (JString numberedHeaderExample) = SectionsDoc [].
Proof.
  apply (sectioned_without_sections numberedHeaderExample
           numberedHeaderLines).
  - vm_compute. reflexivity.
  - vm_compute. reflexivity.
  - repeat constructor.
Defined.

End Sections.

(** ** The rating helpers *)

Section Ratings.

Import TextFormatterRating RatingVocabulary.

Lemma Qle_bool_false (x y : Q) : Qle_bool x y = false -> (y < x)%Q.
Proof.
  intros H. apply Qnot_le_lt. intros Hle.
  apply Qle_bool_iff in Hle. congruence.
Qed.

Ltac orders :=
  repeat match goal with
  | H : Qle_bool _ _ = true |- _ => apply Qle_bool_iff in H
  | H : Qle_bool _ _ = false |- _ => apply Qle_bool_false in H
  | H : Qeq_bool _ _ = true |- _ => apply Qeq_bool_iff in H
  end.

(** *** forEach with push is a filter *)

Lemma push_if_filter {A B : Type} (p : A -> bool) (f : A -> B) :
  forall l acc,
    fold_left (fun acc x => if p x then acc ++ [f x] else acc) l acc
    = acc ++ map f (filter p l).
Proof.
  induction l as [|x l IH]; intros acc; simpl.
  - rewrite app_nil_r. reflexivity.
  - rewrite IH. destruct (p x); simpl; [|reflexivity].
    rewrite <- app_assoc. reflexivity.
Qed.

Lemma strengths_filter (r : Rating) :
  identifyRatingStrengths r
  = map snd (filter (fun c => geq (get r (fst c)) 2) categories).
Proof.
  unfold identifyRatingStrengths.
  apply (push_if_filter (fun c => geq (get r (fst c)) 2) snd categories []).
Qed.

Lemma weaknesses_filter (r : Rating) :
  identifyRatingWeaknesses r
  = sort (fun a b => minus (score a) (score b))
      (map (weaknessOf r)
         (filter (fun c => leq (get r (fst c)) 1) categories)).
Proof.
  unfold identifyRatingWeaknesses. cbv zeta. f_equal.
  apply (push_if_filter (fun c => leq (get r (fst c)) 1) (weaknessOf r)
           categories []).
Qed.

(** *** The stable sort *)

Lemma insertSorted_perm {A : Type} (cmp : A -> A -> number) (x : A) :
  forall s, Permutation (insertSorted cmp x s) (x :: s).
Proof.
  induction s as [|y s IH]; simpl; [reflexivity|].
  destruct (negative _); [reflexivity|].
  rewrite IH. apply perm_swap.
Qed.

Lemma sort_perm {A : Type} (cmp : A -> A -> number) (l : list A) :
  Permutation (sort cmp l) l.
Proof.
  unfold sort.
  assert (H : forall l s,
             Permutation
               (fold_left (fun sorted x => insertSorted cmp x sorted) l s)
               (l ++ s)).
  { clear l. induction l as [|x l IH]; intros s; simpl; [reflexivity|].
    rewrite IH. rewrite insertSorted_perm.
    symmetry. apply Permutation_middle. }
  rewrite H. rewrite app_nil_r. reflexivity.
Qed.

Lemma insertSorted_ascending (x : Weakness) (q : Q) :
  score x = Some q ->
  forall s,
    Forall (fun w => exists y, score w = Some y) s ->
    StronglySorted ascendingScore s ->
    StronglySorted ascendingScore (insertSorted byScore x s).
Proof.
  intros Hx. induction s as [|y s IH]; intros Hnum Hs; simpl.
  - constructor; constructor.
  - inversion Hnum as [|? ? [qy Hy] Hnum']; subst.
    inversion Hs as [|? ? Hs' Hall]; subst.
    unfold byScore at 1. rewrite Hx, Hy. simpl.
    destruct (Qle_bool 0 (q - qy)) eqn:E; simpl.
    + constructor; [apply IH; assumption|].
      apply Forall_forall. intros w Hw.
      apply (Permutation_in _ (insertSorted_perm byScore x s)) in Hw.
      destruct Hw as [<-|Hw].
      * exists qy, q. orders. repeat split; try assumption. lra.
      * rewrite Forall_forall in Hall. apply Hall. exact Hw.
    + constructor; [exact Hs|].
      orders. constructor.
      * exists q, qy. repeat split; try assumption. lra.
      * eapply Forall_impl; [|exact Hall].
        intros w (a & b & Ha & Hb & Hab). rewrite Hy in Ha.
        injection Ha as <-. exists q, b. repeat split; try assumption. lra.
Qed.

Lemma sort_ascending : forall l s,
  Forall (fun w => exists y, score w = Some y) l ->
  Forall (fun w => exists y, score w = Some y) s ->
  StronglySorted ascendingScore s ->
  StronglySorted ascendingScore
    (fold_left (fun sorted x => insertSorted byScore x sorted) l s).
Proof.
  induction l as [|x l IH]; intros s Hl Hnum Hs; simpl; [exact Hs|].
  inversion Hl as [|? ? [q Hx] Hl']; subst.
  apply IH; [exact Hl'| |apply (insertSorted_ascending x q Hx); assumption].
  apply Forall_forall. intros w Hw.
  apply (Permutation_in _ (insertSorted_perm byScore x s)) in Hw.
  destruct Hw as [<-|Hw]; [exists q; exact Hx|].
  rewrite Forall_forall in Hnum. apply Hnum. exact Hw.
Qed.

Lemma leq_number (x : number) (c : Q) :
  leq x c = true -> exists q, x = Some q.
Proof. destruct x as [q|]; [exists q; reflexivity|discriminate]. Qed.

(** *** The table of categories *)

Lemma categories_key (k : Key) : In (k, nameOf k) categories.
Proof.
  unfold categories.
  destruct k;
    [left|right; left|do 2 right; left|do 3 right; left|do 4 right; left];
    vm_compute; reflexivity.
Qed.

Lemma categories_name (k : Key) (c : Key * jsstring) :
  In c categories -> snd c = nameOf k -> fst c = k.
Proof.
  intros Hc. simpl in Hc.
  destruct Hc as [<-|[<-|[<-|[<-|[<-|[]]]]]]; destruct k;
    intros H; try reflexivity; vm_compute in H; discriminate H.
Qed.

Lemma weakness_areas (r : Rating) (w : Weakness) :
  In w (identifyRatingWeaknesses r)
  <-> exists c, In c categories /\ leq (get r (fst c)) 1 = true
                /\ w = weaknessOf r c.
Proof.
  rewrite weaknesses_filter. split.
  - intros H. apply (Permutation_in _ (sort_perm _ _)) in H.
    apply in_map_iff in H. destruct H as (c & <- & Hc).
    apply filter_In in Hc. exists c. tauto.
  - intros (c & Hc & Hle & ->).
    apply (Permutation_in _ (Permutation_sym (sort_perm _ _))).
    apply in_map. apply filter_In. tauto.
Qed.

(** X13.  The grade of [getGradeInfo] never falls when the score rises:
    the thresholds 9, 7, 5 and 3 are tested from the highest down. *)
Theorem grade_monotone (a b : Q) :
  (a <= b)%Q ->
  gradeRank (letter (getGradeInfo (Some a)))
  <= gradeRank (letter (getGradeInfo (Some b))).
Proof.
  intros Hab. unfold getGradeInfo, geq.
  destruct (Qle_bool 9 a) eqn:A9; destruct (Qle_bool 9 b) eqn:B9;
    try (vm_compute; discriminate); try (exfalso; orders; lra);
  destruct (Qle_bool 7 a) eqn:A7; destruct (Qle_bool 7 b) eqn:B7;
    try (vm_compute; discriminate); try (exfalso; orders; lra);
  destruct (Qle_bool 5 a) eqn:A5; destruct (Qle_bool 5 b) eqn:B5;
    try (vm_compute; discriminate); try (exfalso; orders; lra);
  destruct (Qle_bool 3 a) eqn:A3; destruct (Qle_bool 3 b) eqn:B3;
    try (vm_compute; discriminate); try (exfalso; orders; lra).
Qed.

Lemma grade_monotone_witness :
  (13 # 2 <= 7)%Q
  /\ gradeRank (letter (getGradeInfo (Some (13 # 2)%Q)))
     <= gradeRank (letter (getGradeInfo (Some 7%Q))).
Proof.
  assert (H : (13 # 2 <= 7)%Q) by (vm_compute; discriminate).
  split; [exact H|]. apply (grade_monotone (13 # 2)%Q 7%Q H).
Defined.

(** X14.  A category is named among the strengths exactly when its score
    is at least 2, and among the weaknesses exactly when its score is at
    most 1, never among both; a category whose score is missing, or lies
    strictly between 1 and 2, is named among neither.  The weakness of a
    category carries its score, and is critical exactly when the score is
    0. *)
Theorem strengths_and_weaknesses (r : Rating) (k : Key) :
  (In (nameOf k) (identifyRatingStrengths r) <-> geq (get r k) 2 = true)
  /\ ((exists w, In w (identifyRatingWeaknesses r) /\ area w = nameOf k)
      <-> leq (get r k) 1 = true)
  /\ (forall w, In w (identifyRatingWeaknesses r) -> area w = nameOf k ->
        score w = get r k
        /\ weaknessPriority w
           = if strictEq (get r k) 0 then lit "critical"
             else lit "important")
  /\ ~ (geq (get r k) 2 = true /\ leq (get r k) 1 = true).
Proof.
  split; [|split; [|split]].
  - rewrite strengths_filter. rewrite in_map_iff. split.
    + intros (c & Hn & Hc). apply filter_In in Hc. destruct Hc as [Hc Hp].
      rewrite <- (categories_name k c Hc Hn). exact Hp.
    + intros Hp. exists (k, nameOf k). split; [reflexivity|].
      apply filter_In. split; [apply categories_key|exact Hp].
  - split.
    + intros (w & Hw & Hn). apply weakness_areas in Hw.
      destruct Hw as (c & Hc & Hle & ->). simpl in Hn.
      rewrite <- (categories_name k c Hc Hn). exact Hle.
    + intros Hle. exists (weaknessOf r (k, nameOf k)).
      split; [|reflexivity]. apply weakness_areas.
      exists (k, nameOf k). split; [apply categories_key|].
      split; [exact Hle|reflexivity].
  - intros w Hw Hn. apply weakness_areas in Hw.
    destruct Hw as (c & Hc & Hle & ->). simpl in Hn.
    pose proof (categories_name k c Hc Hn) as <-. split; reflexivity.
  - intros [Hge Hle]. destruct (get r k) as [q|]; [|discriminate].
    simpl in Hge, Hle. orders. lra.
Qed.

(** X15.  The weaknesses come out of the sort with numeric scores in
    ascending order: a category whose score is missing is never among
    them, so that the comparator [a.score - b.score] never yields NaN. *)
Theorem weaknesses_ascending (r : Rating) :
  StronglySorted ascendingScore (identifyRatingWeaknesses r).
Proof.
  rewrite weaknesses_filter. unfold sort.
  apply (sort_ascending _ []); [|constructor|constructor].
  apply Forall_forall. intros w Hw. apply in_map_iff in Hw.
  destruct Hw as (c & <- & Hc). apply filter_In in Hc.
  destruct Hc as [_ Hle]. simpl. apply (leq_number _ 1 Hle).
Qed.

Lemma weaknesses_count (r : Rating) :
  List.length (identifyRatingWeaknesses r)
  = List.length (filter (fun c => leq (get r (fst c)) 1) categories).
Proof.
  rewrite weaknesses_filter. rewrite (Permutation_length (sort_perm _ _)).
  apply length_map.
Qed.

(** X16.  [suggestNextSteps] never returns an empty list: it gives one step
    for each weakness that [identifyRatingWeaknesses] reports, and the
    step of general polish exactly when there is no weakness. *)
Theorem next_steps (r : Rating) :
  suggestNextSteps r <> []
  /\ List.length (suggestNextSteps r)
     = Nat.max 1 (List.length (identifyRatingWeaknesses r))
  /\ (In fallbackStep (suggestNextSteps r)
      <-> identifyRatingWeaknesses r = []).
Proof.
  assert (Hnil : identifyRatingWeaknesses r = []
                 <-> List.length (identifyRatingWeaknesses r) = 0%nat).
  { destruct (identifyRatingWeaknesses r); simpl; split; intros H;
      try reflexivity; discriminate. }
  rewrite Hnil. rewrite weaknesses_count.
  unfold suggestNextSteps, categories. cbn [filter fst get].
  destruct (leq (contentQuality r) 1);
  destruct (leq (impactLanguage r) 1);
  destruct (leq (atsCompatibility r) 1);
  destruct (leq (structureOrganization r) 1);
  destruct (leq (formattingDesign r) 1);
  (split; [vm_compute; discriminate|]);
  (split; [reflexivity|]);
  (split; [|try (intros H; discriminate H);
            intros _; vm_compute; tauto]);
  try (intros _; reflexivity);
  vm_compute; intuition discriminate.
Qed.

Lemma overall_insight (r : Rating) :
  map insightType (skipn 2 (generateRatingInsights r))
  = [if geq (totalScore r) 8 then lit "success"
     else if geq (totalScore r) 6 then lit "info" else lit "warning"].
Proof.
  unfold generateRatingInsights. cbv zeta. cbn [app skipn map].
  destruct (geq (totalScore r) 8); [reflexivity|].
  destruct (geq (totalScore r) 6); reflexivity.
Qed.

(** X27.  [generateRatingInsights] always gives three insights, and the
    third agrees with the grade of [getGradeInfo]: a total score graded
    A+ is reported as a success, and one graded D or F, or missing, as a
    warning. *)
Theorem insights_agree_with_grade (r : Rating) :
  List.length (generateRatingInsights r) = 3%nat
  /\ (gradeRank (letter (getGradeInfo (totalScore r))) = 4 ->
      map insightType (skipn 2 (generateRatingInsights r))
      = [lit "success"])
  /\ (gradeRank (letter (getGradeInfo (totalScore r))) <= 1 ->
      map insightType (skipn 2 (generateRatingInsights r))
      = [lit "warning"]).
Proof.
  split; [reflexivity|]. rewrite overall_insight.
  unfold getGradeInfo. destruct (totalScore r) as [q|]; cbn [geq].
  - destruct (Qle_bool 9 q) eqn:E9.
    { apply Qle_bool_iff in E9.
      assert (E8 : Qle_bool 8 q = true) by (apply Qle_bool_iff; lra).
      rewrite E8. split; [reflexivity|].
      intros H. vm_compute in H. contradiction H. reflexivity. }
    destruct (Qle_bool 7 q) eqn:E7;
      [split; intros H; vm_compute in H;
       [discriminate H|contradiction H; reflexivity]|].
    destruct (Qle_bool 5 q) eqn:E5;
      [split; intros H; vm_compute in H;
       [discriminate H|contradiction H; reflexivity]|].
    apply Qle_bool_false in E5.
    assert (E8 : Qle_bool 8 q = false).
    { destruct (Qle_bool 8 q) eqn:E; [|reflexivity].
      apply Qle_bool_iff in E. lra. }
    assert (E6 : Qle_bool 6 q = false).
    { destruct (Qle_bool 6 q) eqn:E; [|reflexivity].
      apply Qle_bool_iff in E. lra. }
    rewrite E8, E6.
    destruct (Qle_bool 3 q); (split; [|reflexivity]);
      intros H; vm_compute in H; discriminate H.
  - split; [|reflexivity]. intros H. vm_compute in H. discriminate H.
Qed.

End Ratings.

(** ** The sections of the backend *)

Section BasicSections.

Import Regex BackendSections SectionsVocabulary.

Variable toLowerCase : jsstring -> jsstring.

Lemma exec_class (p : char -> bool) : forall aft bef,
  (exists r, exec (Class p) bef aft = Some r) <-> existsb p aft = true.
Proof.
  induction aft as [|a aft IH]; intros bef.
  - simpl. split; [intros [r H]; discriminate|discriminate].
  - cbn [exec]. unfold matchAt. cbn [matcher snd fst existsb].
    destruct (p a); simpl.
    + split; [reflexivity|]. intros _. eexists. reflexivity.
    + apply IH.
Qed.

Lemma test_class (p : char -> bool) (s : jsstring) :
  test (Class p) s = existsb p s.
Proof.
  unfold test. pose proof (exec_class p s []) as H.
  destruct (exec (Class p) [] s) as [r|]; destruct (existsb p s);
    try reflexivity.
  - symmetry. apply H. exists r. reflexivity.
  - destruct H as [_ H]. destruct (H eq_refl) as [r Hr]. discriminate.
Qed.

Lemma atOrDot_test (paragraph : jsstring) :
  In 46 paragraph \/ In 64 paragraph -> test atOrDot paragraph = true.
Proof.
  intros H. unfold atOrDot. rewrite test_class. apply existsb_exists.
  destruct H as [H|H]; [exists 46|exists 64]; split; try exact H;
    reflexivity.
Qed.

Lemma punctuated_contact (paragraph : jsstring) :
  In 46 paragraph \/ In 64 paragraph ->
  sectionOf toLowerCase paragraph = Contact.
Proof.
  intros H. unfold sectionOf, sectionPatterns. cbn [assign Field_eqb].
  rewrite (atOrDot_test paragraph H). rewrite orb_true_r. reflexivity.
Qed.

Lemma place_sectionOf (sections : Sections) (paragraph : jsstring) :
  place toLowerCase sections paragraph
  = append sections (sectionOf toLowerCase paragraph) (paragraph ++ [10; 10]).
Proof.
  unfold place, sectionOf. cbv zeta.
  destruct (assign _ _ _); reflexivity.
Qed.

Lemma fold_place (key : Field) : forall paragraphs sections,
  fold_left (place toLowerCase) paragraphs sections key
  = sections key
    ++ blocks (filter (fun p => Field_eqb (sectionOf toLowerCase p) key)
                      paragraphs).
Proof.
  induction paragraphs as [|p ps IH]; intros sections.
  - simpl. rewrite app_nil_r. reflexivity.
  - cbn [fold_left filter]. rewrite IH, place_sectionOf. unfold append.
    assert (E : Field_eqb key (sectionOf toLowerCase p)
                = Field_eqb (sectionOf toLowerCase p) key).
    { destruct key, (sectionOf toLowerCase p); reflexivity. }
    rewrite E. destruct (Field_eqb (sectionOf toLowerCase p) key);
      [|reflexivity].
    unfold blocks. cbn [map List.concat]. rewrite <- !app_assoc.
    reflexivity.
Qed.

Lemma filter_all {A : Type} (p : A -> bool) (l : list A) :
  Forall (fun x => p x = true) l -> filter p l = l.
Proof.
  induction 1 as [|x l Hx _ IH]; simpl; [reflexivity|].
  rewrite Hx, IH. reflexivity.
Qed.

Lemma filter_none {A : Type} (p : A -> bool) (l : list A) :
  Forall (fun x => p x = false) l -> filter p l = [].
Proof.
  induction 1 as [|x l Hx _ IH]; simpl; [reflexivity|].
  rewrite Hx, IH. reflexivity.
Qed.

End BasicSections.

Section BasicSectionsTheorems.

Import Regex BackendSections SectionsVocabulary.

(** X17.  [extractBasicSections] files every paragraph under exactly one
    key: the text of a key is made of the paragraphs whose first
    successful test is the test of that key (of the paragraphs none of
    whose tests succeeds, for the key other), in the order of the text,
    each followed by an empty line, and trimmed as a whole. *)
Theorem sections_partition (toLowerCase : jsstring -> jsstring)
    (text : jsstring) (key : Field) :
  extractBasicSections toLowerCase text key
  = trim (blocks (filter (fun p => Field_eqb (sectionOf toLowerCase p) key)
                         (paragraphsOf text))).
Proof.
  unfold extractBasicSections. cbv zeta. rewrite fold_place.
  reflexivity.
Qed.

(** X18.  A paragraph that holds a full stop or an at sign is filed under
    contact, whatever its words: the test of the first key accepts it.  A
    text all of whose paragraphs hold one has all its paragraphs under
    contact, and nothing under the other keys. *)
Theorem punctuation_means_contact (toLowerCase : jsstring -> jsstring)
    (text : jsstring) :
  Forall (fun p => In 46 p \/ In 64 p) (paragraphsOf text) ->
  extractBasicSections toLowerCase text Contact
  = trim (blocks (paragraphsOf text))
  /\ forall key, key <> Contact ->
       extractBasicSections toLowerCase text key = [].
Proof.
  intros H. unfold extractBasicSections. cbv zeta. split.
  - rewrite fold_place. rewrite filter_all; [reflexivity|].
    eapply Forall_impl; [|exact H]. intros p Hp. cbv beta.
    rewrite (punctuated_contact toLowerCase p Hp). reflexivity.
  - intros key Hkey. rewrite fold_place. rewrite filter_none; [reflexivity|].
    eapply Forall_impl; [|exact H]. intros p Hp. cbv beta.
    rewrite (punctuated_contact toLowerCase p Hp).
    destruct key; try reflexivity. contradiction.
Qed.

Lemma punctuation_means_contact_witness :
  Forall (fun p => In 46 p \/ In 64 p)
         (paragraphsOf punctuatedResume)
  /\ extractBasicSections asciiLowerCase punctuatedResume
       Skills = [].
Proof.
  assert (H : Forall (fun p => In 46 p \/ In 64 p)
                     (paragraphsOf punctuatedResume)).
  { vm_compute. repeat constructor; left; tauto. }
  split; [exact H|].
  apply (punctuation_means_contact asciiLowerCase
           punctuatedResume H).
  discriminate.
Defined.

End BasicSectionsTheorems.

(** ** The improvements and the file checks *)

Section Improvements.

Import JSStrings TextFormatterImprovements.

Variable toLowerCase : jsstring -> jsstring.

Lemma fold_categorize : forall l c,
  let r :=
    fold_left (fun categories improvement =>
                 if isCritical toLowerCase improvement then
                   mkImprovements (critical categories ++ [improvement])
                                  (important categories) (minor categories)
                 else if isImportant toLowerCase improvement then
                   mkImprovements (critical categories)
                                  (important categories ++ [improvement])
                                  (minor categories)
                 else
                   mkImprovements (critical categories)
                                  (important categories)
                                  (minor categories ++ [improvement]))
              l c in
  critical r = critical c ++ filter (isCritical toLowerCase) l
  /\ important r
     = important c
       ++ filter (fun i => negb (isCritical toLowerCase i)
                           && isImportant toLowerCase i) l
  /\ minor r
     = minor c
       ++ filter (fun i => negb (isCritical toLowerCase i)
                           && negb (isImportant toLowerCase i)) l.
Proof.
  induction l as [|i l IH]; intros c; cbv zeta.
  - simpl. rewrite !app_nil_r. repeat split.
  - cbn [fold_left filter].
    destruct (isCritical toLowerCase i);
      [|destruct (isImportant toLowerCase i)];
      match goal with |- context [fold_left _ l ?c'] =>
        destruct (IH c') as (H1 & H2 & H3) end;
      rewrite H1, H2, H3; cbn [critical important minor negb andb];
      rewrite <- ?app_assoc; repeat split.
Qed.

Lemma three_way_perm {A : Type} (p q : A -> bool) : forall l : list A,
  Permutation
    (filter p l ++ filter (fun i => negb (p i) && q i) l
     ++ filter (fun i => negb (p i) && negb (q i)) l) l.
Proof.
  induction l as [|i l IH]; [reflexivity|].
  cbn [filter]. destruct (p i); cbn [negb andb].
  - simpl. apply perm_skip. exact IH.
  - destruct (q i); cbn [negb app].
    + symmetry. apply Permutation_cons_app. symmetry. exact IH.
    + rewrite app_assoc. symmetry. apply Permutation_cons_app.
      rewrite <- app_assoc. symmetry. exact IH.
Qed.

End Improvements.

Section ImprovementsTheorems.

Import JSStrings TextFormatterImprovements.

(** X19.  [categorizeImprovements] puts every improvement into exactly one
    of the three lists, and keeps the order of the input in each: the
    critical ones are those that mention a critical word, the important
    ones those that mention an important word and no critical one, the
    minor ones the rest.  The three lists together are a rearrangement of
    the input. *)
Theorem improvements_partition (toLowerCase : jsstring -> jsstring)
    (improvements : list jsstring) :
  let c := categorizeImprovements toLowerCase improvements in
  critical c = filter (isCritical toLowerCase) improvements
  /\ important c
     = filter (fun i => negb (isCritical toLowerCase i)
                        && isImportant toLowerCase i) improvements
  /\ minor c
     = filter (fun i => negb (isCritical toLowerCase i)
                        && negb (isImportant toLowerCase i)) improvements
  /\ Permutation (critical c ++ important c ++ minor c) improvements.
Proof.
  cbv zeta. unfold categorizeImprovements.
  destruct (fold_categorize toLowerCase improvements
              (mkImprovements [] [] [])) as (H1 & H2 & H3).
  cbn [critical important minor app] in H1, H2, H3.
  rewrite H1, H2, H3. repeat split. apply three_way_perm.
Qed.

End ImprovementsTheorems.

Section Validation.

Import JSStrings FileValidation ValidationVocabulary.

Lemma eqb_eq (a b : jsstring) : eqb a b = true <-> a = b.
Proof.
  unfold eqb. destruct (list_eq_dec Z.eq_dec a b); split; intros H;
    try reflexivity; try assumption; try discriminate; contradiction.
Qed.

(** X20.  [validateFile] reports the file type that [getFileType] gives,
    and accepts a file exactly when it is not empty, holds at most 50 MB
    and has a type that [getFileType] knows; it never reports more than
    two errors. *)
Theorem validation_agrees (toLowerCase : jsstring -> jsstring)
    (file : File) :
  let v := validateFile toLowerCase file in
  fileType v = getFileType toLowerCase file
  /\ (isValid v = true
      <-> size file <> 0 /\ size file <= maxSize
          /\ getFileType toLowerCase file <> lit "unknown")
  /\ (isValid v = true <-> errors v = [])
  /\ (List.length (errors v) <= 2)%nat.
Proof.
  cbv zeta. unfold validateFile, getFileType. cbv zeta.
  set (isPDF := eqb _ pdfMime || _).
  set (isDOCX := eqb _ docxMime || _ || _).
  cbn [fileType isValid errors].
  destruct (maxSize <? size file) eqn:Emax;
    [apply Z.ltb_lt in Emax|apply Z.ltb_ge in Emax];
  (destruct (size file =? 0) eqn:E0;
     [apply Z.eqb_eq in E0|apply Z.eqb_neq in E0]);
  try (exfalso; unfold maxSize in Emax; lia);
  destruct isPDF; destruct isDOCX; cbn [negb andb app len List.length];
  (split; [reflexivity|]);
  (split; [|split; [|lia]]);
  try (split; [intros H; discriminate H|]);
  try (intros H; discriminate H);
  try (intros (H1 & H2 & H3); first [lia|contradiction]);
  try (split; [|reflexivity]; intros _; repeat split; try assumption;
       vm_compute; discriminate);
  try (split; [|reflexivity]; reflexivity).
Qed.

Lemma oversized_rejected :
  errors (validateFile (map Regex.toLower) oversizedFile)
  = [lit "File size must be less than 50MB. Current size: 60.00MB"].
Proof. vm_compute. reflexivity. Qed.

End Validation.

(** ** The job titles *)

Section MatcherForward.

Import Regex JobsVocabulary.







End MatcherForward.

Section Includes.

Import JSStrings.








End Includes.

Section JobTitles.

Import Regex JSStrings TextFormatterJobs JobsVocabulary.




(** A carriage return is no line break for [formatJobTitles]: the two
    lines it separates come back as one title. *)
Lemma carriage_return_kept :
  formatJobTitles
    (lit "1. Data Engineer" ++ [13] ++ lit "2. Backend Developer")
  = [lit "Data Engineer" ++ [13] ++ lit "2. Backend Developer"].
Proof. vm_compute. reflexivity. Qed.

End JobTitles.

(** ** The memory monitor *)

Section Monitor.

Import MemoryMonitor MonitorVocabulary.

Variable Percentage : Type.
Variable percentage : Z -> Z -> Percentage.

Lemma sliceLast_short {A : Type} (n : nat) (a : list A) :
  (List.length a <= n)%nat -> sliceLast n a = a.
Proof.
  intros H. unfold sliceLast.
  replace (List.length a - n)%nat with 0%nat by lia. reflexivity.
Qed.

Lemma sliceLast_length {A : Type} (n : nat) (a : list A) :
  List.length (sliceLast n a) = Nat.min n (List.length a).
Proof. unfold sliceLast. rewrite length_skipn. lia. Qed.

Lemma sliceLast_push {A : Type} (n : nat) (a : list A) (x : A) :
  (0 < n)%nat ->
  sliceLast n (sliceLast n a ++ [x]) = sliceLast n (a ++ [x]).
Proof.
  intros Hn.
  destruct (Nat.le_gt_cases (List.length a) n) as [Hle|Hgt].
  - rewrite (sliceLast_short n a Hle). reflexivity.
  - unfold sliceLast at 1 3. rewrite !length_app.
    rewrite sliceLast_length. cbn [List.length].
    replace (Nat.min n (List.length a) + 1 - n)%nat with 1%nat by lia.
    unfold sliceLast.
    rewrite !skipn_app. rewrite length_skipn. rewrite skipn_skipn.
    replace (1 - (List.length a - (List.length a - n)))%nat with 0%nat
      by lia.
    replace (List.length a + 1 - n - List.length a)%nat with 0%nat by lia.
    replace (1 + (List.length a - n))%nat
      with (List.length a + 1 - n)%nat by lia.
    reflexivity.
Qed.

Lemma getMemoryUsage_history (env : Env)
    (history : list (MemInfo Percentage)) :
  snd (getMemoryUsage percentage env history)
  = match fst (getMemoryUsage percentage env []) with
    | Supported m => sliceLast 50 (history ++ [m])
    | Unsupported _ => history
    end.
Proof.
  unfold getMemoryUsage. destruct (memory env) as [heap|]; [|reflexivity].
  cbv zeta. cbn [fst snd]. unfold len.
  destruct (50 <? _) eqn:E; [reflexivity|].
  apply Z.ltb_ge in E. symmetry. apply sliceLast_short. lia.
Qed.

Lemma history_from (envs : list Env) :
  forall seen : list (MemInfo Percentage),
    fold_left (fun history env =>
                 snd (getMemoryUsage percentage env history))
              envs (sliceLast 50 seen)
    = sliceLast 50 (seen ++ measurements percentage envs).
Proof.
  induction envs as [|env envs IH]; intros seen.
  - simpl. rewrite app_nil_r. reflexivity.
  - cbn [fold_left measurements flat_map].
    rewrite getMemoryUsage_history.
    destruct (fst (getMemoryUsage percentage env [])) as [msg|m].
    + apply IH.
    + rewrite sliceLast_push by lia. rewrite IH.
      rewrite <- app_assoc. reflexivity.
Qed.

End Monitor.

Section MonitorTheorems.

Import MemoryMonitor MonitorVocabulary.

(** X22.  After any series of calls of [getMemoryUsage] the history holds
    the last 50 of the measurements made, the most recent one last, and so
    never more than 50 entries; a call in a browser without the memory API
    leaves it as it is. *)
Theorem history_window (Percentage : Type)
    (percentage : Z -> Z -> Percentage) (envs : list Env) :
  historyAfter percentage envs
  = sliceLast 50 (measurements percentage envs)
  /\ (List.length (historyAfter percentage envs) <= 50)%nat.
Proof.
  assert (H : historyAfter percentage envs
              = sliceLast 50 (measurements percentage envs)).
  { unfold historyAfter.
    apply (history_from Percentage percentage envs []). }
  split; [exact H|]. rewrite H, sliceLast_length. lia.
Qed.

(** X23.  The recommended chunk size is at least 300 and at most 1000, and
    it does not fall when more memory is available; asking for it records
    one more measurement in the history. *)
Theorem recommended_chunk_size (Percentage : Type)
    (percentage : Z -> Z -> Percentage) (env1 env2 : Env)
    (history : list (MemInfo Percentage)) :
  memory env1 <> None -> memory env2 <> None ->
  availableMB (heapAt env1) <= availableMB (heapAt env2) ->
  300 <= fst (getRecommendedChunkSize percentage env1 history)
      <= fst (getRecommendedChunkSize percentage env2 history)
  /\ fst (getRecommendedChunkSize percentage env2 history) <= 1000
  /\ snd (getRecommendedChunkSize percentage env1 history)
     = snd (getMemoryUsage percentage env1 history).
Proof.
  unfold getRecommendedChunkSize, getMemoryUsage, availableMB, heapAt.
  destruct (memory env1) as [h1|]; [|contradiction].
  destruct (memory env2) as [h2|]; [|contradiction].
  intros _ _ H. cbv zeta. cbn [fst snd limitMB usedMB].
  repeat match goal with
         | |- context [?a <? ?b] =>
           destruct (Z.ltb_spec a b)
         end; repeat split; lia.
Qed.

Lemma recommended_chunk_size_witness :
  let env1 := mkEnv (Some (mkHeap 900000000 950000000 1000000000)) 1 in
  let env2 := mkEnv (Some (mkHeap 100000000 950000000 1000000000)) 2 in
  availableMB (heapAt env1) <= availableMB (heapAt env2)
  /\ 300 <= fst (getRecommendedChunkSize (fun _ _ => tt) env1 [])
          <= fst (getRecommendedChunkSize (fun _ _ => tt) env2 []).
Proof.
  intros env1 env2.
  assert (H1 : memory env1 <> None) by discriminate.
  assert (H2 : memory env2 <> None) by discriminate.
  assert (H3 : availableMB (heapAt env1) <= availableMB (heapAt env2))
    by (vm_compute; discriminate).
  split; [exact H3|].
  apply (recommended_chunk_size unit (fun _ _ => tt) env1 env2 []
           H1 H2 H3).
Defined.

End MonitorTheorems.

(** ** smartTextChunking *)

Section SmartChunks.

Import Regex TextFormatterChunking ChunkingVocabulary.

Lemma trimmed_snoc (chunks : list jsstring) (c : jsstring) :
  Forall trimmed chunks -> Forall trimmed (chunks ++ [trim c]).
Proof.
  intros H. apply Forall_app. split; [exact H|].
  constructor; [apply trim_idem|constructor].
Qed.

Lemma placeParts_trimmed : forall parts idx chunks currentChunk,
  Forall trimmed chunks ->
  Forall trimmed (fst (placeParts parts idx chunks currentChunk)).
Proof.
  induction parts as [|part rest IH]; intros idx chunks cur H;
    cbn [placeParts]; [exact H|].
  destruct (truthy (trim part)); [|apply IH; exact H].
  destruct (idx =? 0); apply IH; [exact H|].
  apply trimmed_snoc. exact H.
Qed.

Lemma placeWords_trimmed (maxLength : Z) : forall words chunks tempChunk,
  Forall trimmed chunks ->
  Forall trimmed (fst (placeWords words maxLength chunks tempChunk)).
Proof.
  induction words as [|word rest IH]; intros chunks temp H;
    cbn [placeWords]; [exact H|].
  destruct (_ <=? _); apply IH; [exact H|].
  destruct (truthy temp); [apply trimmed_snoc|]; exact H.
Qed.

Lemma placeSentence_trimmed (maxLength : Z)
    (state : list jsstring * jsstring) (sentence : jsstring) :
  Forall trimmed (fst state) ->
  Forall trimmed (fst (placeSentence maxLength state sentence)).
Proof.
  destruct state as [chunks cur]. cbn [fst]. intros H.
  unfold placeSentence. cbv zeta.
  destruct (_ <=? maxLength); [exact H|].
  destruct (truthy cur); [apply trimmed_snoc; exact H|].
  destruct (1 <? len (split conjunctionGap sentence));
    [apply placeParts_trimmed; exact H|].
  destruct (1 <? len (split commaGap sentence));
    [apply placeParts_trimmed; exact H|].
  apply placeWords_trimmed. exact H.
Qed.

Lemma fold_placeSentence_trimmed (maxLength : Z) : forall sentences state,
  Forall trimmed (fst state) ->
  Forall trimmed
    (fst (fold_left (placeSentence maxLength) sentences state)).
Proof.
  induction sentences as [|s rest IH]; intros state H; [exact H|].
  cbn [fold_left]. apply IH. apply placeSentence_trimmed. exact H.
Qed.

(** X24.  On a text that is longer than [maxLength], every chunk that
    [smartTextChunking] returns is non-empty and has no white space at
    either end: every chunk is trimmed when it is pushed, and the empty
    ones are filtered out at the end. *)
Theorem smart_chunks_trimmed (text : jsstring) (maxLength : Z) :
  text <> [] -> maxLength < len text ->
  Forall trimmedChunk (smartTextChunking text maxLength).
Proof.
  intros Hne Hlen. unfold smartTextChunking.
  assert (E1 : truthy text = true)
    by (destruct text; [contradiction|reflexivity]).
  assert (E2 : (len text <=? maxLength) = false)
    by (apply Z.leb_gt; exact Hlen).
  rewrite E1, E2. cbn [negb orb]. cbv zeta.
  pose proof (fold_placeSentence_trimmed maxLength
                (split afterSentence text) ([], []) (Forall_nil _)) as H.
  destruct (fold_left _ _ _) as [chunks cur]. cbn [fst] in H.
  assert (H' : Forall trimmed
                 (if truthy cur then chunks ++ [trim cur] else chunks)).
  { destruct (truthy cur); [apply trimmed_snoc|]; exact H. }
  unfold filterNonEmpty. apply Forall_forall. intros c Hc.
  apply filter_In in Hc. destruct Hc as [Hc Hpos].
  rewrite Forall_forall in H'. split; [apply Z.ltb_lt; exact Hpos|].
  apply H'. exact Hc.
Qed.

Lemma smart_chunks_trimmed_witness :
  longSentence <> [] /\ 40 < len longSentence
  /\ Forall trimmedChunk (smartTextChunking longSentence 40).
Proof.
  assert (H1 : longSentence <> []) by (vm_compute; discriminate).
  assert (H2 : 40 < len longSentence) by reflexivity.
  split; [exact H1|]. split; [exact H2|].
  apply (smart_chunks_trimmed longSentence 40 H1 H2).
Defined.

Lemma longSentence_chunks :
  smartTextChunking longSentence 40
  = [lit "The team shipped the new billing system";
     lit "it cut costs. Then they moved on!"].
Proof. vm_compute. reflexivity. Qed.

End SmartChunks.

(** ** The job recommendations *)

Section Recommendations.

Import Regex JSStrings TextFormatterJobCategories RecommendationsVocabulary.

Lemma mutate_length ref f (l : list JobCategory) :
  List.length (mutate ref f l) = List.length l.
Proof.
  unfold mutate. destruct (nth_error l ref) as [c|] eqn:E; [|reflexivity].
  assert (Hlt : (ref < List.length l)%nat).
  { apply nth_error_Some. congruence. }
  rewrite !length_app, length_firstn, length_skipn. simpl. lia.
Qed.

Lemma Forall_take {A : Type} (P : A -> Prop) : forall n (l : list A),
  Forall P l -> Forall P (firstn n l).
Proof.
  induction n as [|n IH]; intros l H; [constructor|].
  destruct H as [|x l Hx Hl]; [constructor|].
  simpl. constructor; [exact Hx|apply IH; exact Hl].
Qed.

Lemma Forall_drop {A : Type} (P : A -> Prop) : forall n (l : list A),
  Forall P l -> Forall P (skipn n l).
Proof.
  induction n as [|n IH]; intros l H; [exact H|].
  destruct H as [|x l Hx Hl]; [constructor|].
  simpl. apply IH. exact Hl.
Qed.

Lemma mutate_wellFormed ref f (l : list JobCategory) :
  (forall c, wellFormed c -> wellFormed (f c)) ->
  Forall wellFormed l -> Forall wellFormed (mutate ref f l).
Proof.
  intros Hf Hl. unfold mutate.
  destruct (nth_error l ref) as [c|] eqn:E; [|exact Hl].
  apply Forall_app. split; [apply Forall_take; exact Hl|].
  apply Forall_app. split; [|apply Forall_drop; exact Hl].
  constructor; [|constructor]. apply Hf.
  rewrite Forall_forall in Hl. apply Hl.
  eapply nth_error_In. exact E.
Qed.

Lemma pushJob_wellFormed (job : jsstring) (c : JobCategory) :
  trim job = job -> 3 < len job < 80 ->
  wellFormed c -> wellFormed (pushJob job c).
Proof.
  intros Ht Hl (Hn & Hj & Hd). unfold wellFormed, pushJob.
  cbn [name jobs description]. split; [exact Hn|]. split; [|exact Hd].
  apply Forall_app. split; [exact Hj|]. constructor; [|constructor].
  split; assumption.
Qed.

Lemma setDescription_wellFormed (line : jsstring) (c : JobCategory) :
  10 < len line -> wellFormed c -> wellFormed (setDescription line c).
Proof.
  intros Hl (Hn & Hj & Hd). unfold wellFormed, setDescription.
  cbn [name jobs description]. split; [exact Hn|]. split; [exact Hj|].
  right. exact Hl.
Qed.

Lemma placeLine_wellFormed (state : list JobCategory * option nat)
    (line : jsstring) :
  Forall wellFormed (fst state) ->
  Forall wellFormed (fst (placeLine state line)).
Proof.
  destruct state as [cats cur]. cbn [fst]. intros H.
  unfold placeLine. cbv zeta.
  destruct (isCategoryHeader line).
  - cbn [fst]. apply Forall_app. split; [exact H|].
    constructor; [|constructor]. unfold wellFormed.
    cbn [name jobs description]. split; [apply trim_idem|].
    split; [constructor|left; reflexivity].
  - destruct cur as [ref|]; [|exact H].
    destruct (isJobTitle line).
    + destruct (_ && _) eqn:E; [|exact H]. cbn [fst].
      apply andb_true_iff in E. destruct E as [E1 E2].
      apply Z.ltb_lt in E1, E2.
      apply mutate_wellFormed; [|exact H]. intros c.
      apply pushJob_wellFormed; [apply trim_idem|lia].
    + destruct (nth_error cats ref) as [current|]; [|exact H].
      destruct (_ && _) eqn:E; [|exact H]. cbn [fst].
      apply andb_true_iff in E. destruct E as [E1 _].
      apply Z.ltb_lt in E1.
      apply mutate_wellFormed; [|exact H]. intros c.
      apply setDescription_wellFormed. exact E1.
Qed.

Lemma placeLine_count (state : list JobCategory * option nat)
    (line : jsstring) :
  List.length (fst (placeLine state line))
  = (List.length (fst state)
     + if isCategoryHeader line then 1 else 0)%nat.
Proof.
  destruct state as [cats cur]. cbn [fst]. unfold placeLine. cbv zeta.
  destruct (isCategoryHeader line).
  - cbn [fst]. rewrite length_app. reflexivity.
  - destruct cur as [ref|]; [|cbn [fst]; lia].
    destruct (isJobTitle line).
    + destruct (_ && _); cbn [fst]; rewrite ?mutate_length; lia.
    + destruct (nth_error cats ref); [|cbn [fst]; lia].
      destruct (_ && _); cbn [fst]; rewrite ?mutate_length; lia.
Qed.

Lemma fold_placeLine : forall lines state,
  Forall wellFormed (fst state) ->
  Forall wellFormed (fst (fold_left placeLine lines state))
  /\ List.length (fst (fold_left placeLine lines state))
     = (List.length (fst state)
        + List.length (filter isCategoryHeader lines))%nat.
Proof.
  induction lines as [|line lines IH]; intros state H.
  - simpl. split; [exact H|lia].
  - cbn [fold_left filter].
    destruct (IH (placeLine state line) (placeLine_wellFormed state line H))
      as [H1 H2].
    split; [exact H1|]. rewrite H2, placeLine_count.
    destruct (isCategoryHeader line); simpl; lia.
Qed.

Lemma total_jobs : forall (l : list JobCategory) sum,
  fold_left (fun sum cat => sum + len (jobs cat)) l sum
  = sum + len (allJobs l).
Proof.
  induction l as [|c l IH]; intros sum.
  - simpl. unfold len. simpl. lia.
  - cbn [fold_left]. rewrite IH. unfold allJobs. cbn [map List.concat].
    unfold len. rewrite length_app. lia.
Qed.

Lemma no_current_category : forall lines,
  Forall (fun line => isCategoryHeader line = false) lines ->
  fold_left placeLine lines ([], None) = ([], None).
Proof.
  induction 1 as [|line lines Hl _ IH]; [reflexivity|].
  cbn [fold_left]. unfold placeLine at 2. rewrite Hl. exact IH.
Qed.

(** X25.  Every category [formatJobRecommendations] returns has at least
    one job; its name is trimmed, each of its jobs is trimmed and between 4
    and 79 characters long, and its description is empty or longer than 10
    characters.  The total is the number of jobs of the categories
    returned, and there are no more categories than header lines. *)
Theorem recommendations_well_formed (jobTitles : jsstring) :
  let r := formatJobRecommendations jobTitles in
  Forall (fun c => wellFormed c /\ jobs c <> []) (categories r)
  /\ total r = len (allJobs (categories r))
  /\ (List.length (categories r)
      <= List.length (filter isCategoryHeader (linesOf jobTitles)))%nat.
Proof.
  cbv zeta. unfold formatJobRecommendations.
  destruct (negb (truthy jobTitles)).
  - cbn [categories total]. split; [constructor|]. split; [reflexivity|].
    simpl. lia.
  - cbv zeta.
    destruct (fold_placeLine (linesOf jobTitles) ([], None) (Forall_nil _))
      as [H1 H2].
    destruct (fold_left placeLine _ _) as [cats cur]. cbn [fst] in H1, H2.
    cbn [categories total]. split; [|split].
    + apply Forall_forall. intros c Hc. apply filter_In in Hc.
      destruct Hc as [Hc Hj]. rewrite Forall_forall in H1.
      split; [apply H1; exact Hc|]. intros E. rewrite E in Hj.
      discriminate.
    + apply total_jobs.
    + simpl in H2. rewrite <- H2. apply filter_length_le.
Qed.

(** X26.  A job that is listed before the first category header belongs to
    no category and is dropped: when no line of the text is a category
    header, no category is returned, the total is 0 and the display text
    is empty. *)
Theorem jobs_without_header_dropped (jobTitles : jsstring) :
  jobTitles <> [] ->
  Forall (fun line => isCategoryHeader line = false) (linesOf jobTitles) ->
  formatJobRecommendations jobTitles = mkRecommendations [] 0 (Some []).
Proof.
  intros Hne H. unfold formatJobRecommendations.
  destruct jobTitles as [|a s]; [contradiction|]. cbn [truthy negb].
  cbv zeta. rewrite (no_current_category _ H). reflexivity.
Qed.

Lemma jobs_without_header_dropped_witness :
  bareJobList <> []
  /\ Forall (fun line => isCategoryHeader line = false) (linesOf bareJobList)
  /\ formatJobRecommendations bareJobList = mkRecommendations [] 0 (Some []).
Proof.
  assert (H1 : bareJobList <> []) by (vm_compute; discriminate).
  assert (H2 : Forall (fun line => isCategoryHeader line = false)
                      (linesOf bareJobList)).
  { assert (E : linesOf bareJobList
                = [lit "- Data Engineer"; lit "- Backend Developer"])
      by (vm_compute; reflexivity).
    rewrite E.
    constructor; [vm_compute; reflexivity|].
    constructor; [vm_compute; reflexivity|constructor]. }
  split; [exact H1|]. split; [exact H2|].
  apply (jobs_without_header_dropped bareJobList H1 H2).
Defined.

End Recommendations.

(** ** The classification of a document *)

Section Classification.

Import TextFormatter FormatterVocabulary.

Lemma filter_some {A : Type} (p : A -> bool) (l : list A) :
  0 < len (filter p l) <-> Exists (fun x => p x = true) l.
Proof.
  induction l as [|x l IH]; simpl.
  - unfold len. simpl. split; [lia|]. intros H. inversion H.
  - destruct (p x) eqn:E.
    + split; [intros _; left; exact E|]. intros _. unfold len. simpl. lia.
    + rewrite IH. split; [intros H; right; exact H|].
      intros H. inversion H; subst; [congruence|assumption].
Qed.

Lemma hasHeaders_someHeader (lines : list jsstring) :
  hasHeaders lines = true <-> someHeader lines.
Proof.
  unfold hasHeaders, headerLines, someHeader.
  rewrite Z.ltb_lt, filter_some. split; intros H;
    (eapply Exists_impl; [|exact H]); intros line; cbv beta;
    apply orb_true_iff.
Qed.

Lemma sections_class (lines : list jsstring) :
  sectionedDoc (parseStructuredSections lines).
Proof. rewrite parseStructuredSections_open. eexists. reflexivity. Qed.

Lemma list_class (lines : list jsstring) (pat : Regex.re) :
  enhancedListDoc (parseListContent lines pat).
Proof.
  unfold parseListContent. cbv zeta. set (its := flat_map _ lines).
  exists (groupSimilarContent its). split; [reflexivity|].
  pose proof (groups_perm its) as Hperm.
  pose proof (groups_members its) as Hall.
  rewrite Forall_forall in *. intros g Hg.
  destruct (Hall g Hg) as (Hne & _ & _). split; [exact Hne|].
  apply Forall_forall. intros i Hi.
  assert (Hin : In i its).
  { eapply Permutation_in; [exact Hperm|].
    unfold allItems. apply in_concat. exists (snd g).
    split; [apply in_map; exact Hg|exact Hi]. }
  unfold its in Hin. apply in_flat_map in Hin.
  destruct Hin as (line & _ & Hi').
  destruct (Regex.test pat line).
  - destruct Hi' as [<-|[]]. left. reflexivity.
  - destruct (10 <? len line); [|contradiction].
    destruct Hi' as [<-|[]]. right. reflexivity.
Qed.

Lemma bullets_class (lines : list jsstring) :
  bulletFallbackDoc (parseAsBulletList lines).
Proof.
  unfold parseAsBulletList. cbv zeta. eexists. split; [reflexivity|].
  apply Forall_forall. intros i Hi. apply in_map_iff in Hi.
  destruct Hi as (line & <- & _). reflexivity.
Qed.

Lemma sectioned_apart (d : Document) :
  sectionedDoc d -> ~ enhancedListDoc d /\ ~ bulletFallbackDoc d.
Proof.
  intros [s ->]. split.
  - intros (g & H & _). discriminate.
  - intros (i & H & _). discriminate.
Qed.

Lemma enhanced_apart (d : Document) :
  enhancedListDoc d -> ~ bulletFallbackDoc d.
Proof.
  intros (groups & -> & Hg) (its & E & Hb). injection E as ->.
  inversion Hg as [|g r [Hne Hty] _]; subst. cbn [snd] in *.
  destruct its as [|i its]; [contradiction|].
  inversion Hb as [|? ? Hi _]; subst. inversion Hty as [|? ? Ht _]; subst.
  rewrite Hi in Ht. destruct Ht; discriminate.
Qed.

Ltac item_types :=
  repeat (apply Forall_cons;
          [first [left; reflexivity|right; reflexivity]|]);
  apply Forall_nil.

Ltac list_groups :=
  repeat (apply Forall_cons; [split; [discriminate|item_types]|]);
  apply Forall_nil.

Lemma gradesExample_value :
  parseStructuredContent (JString gradesExample)
  = EnhancedListDoc
      [(general,
        [mkItem description (lit "GPA: 3.8 of 4.0") low None;
         mkItem description (lit "GPA: 3.9 of 4.0") low None;
         mkItem description (lit "GPA: 3.7 of 4.0") low None])].
Proof. vm_compute. reflexivity. Qed.

Lemma gradesExample_no_header :
  ~ someHeader [lit "GPA: 3.8 of 4.0"; lit "GPA: 3.9 of 4.0";
                lit "GPA: 3.7 of 4.0"].
Proof.
  intros H. apply hasHeaders_someHeader in H. vm_compute in H.
  discriminate.
Qed.


(** C1, as amended.  In the input
    [EXPERIENCE:], [- Built system X], [- Led team Y] the header line has
    eleven characters and is not a bullet, so the noise filter removes it
    before classification: the two bullet lines are what is left, and the
    document is an Enhanced list of two items, both of priority high, one
    in group general and one in group leadership. *)
Theorem header_example_classification :
  meaningfulLine (lit "EXPERIENCE:") = false
  /\ structuredLines headerExample
     = Some [bulleted (lit "Built system X"); bulleted (lit "Led team Y")]
  /\ parseStructuredContent (JString headerExample)
     = EnhancedListDoc
         [(general,
           [mkItem listItem (lit "Built system X") high (Some general)]);
          (leadership,
           [mkItem listItem (lit "Led team Y") high (Some leadership)])]
  /\ enhancedListDoc (parseStructuredContent (JString headerExample)).
Proof.
  split; [vm_compute; reflexivity|].
  split; [exact headerExample_lines|].
  split; [exact headerExample_value|].
  rewrite headerExample_value. eexists. split; [reflexivity|].
  list_groups.
Qed.

(** C1, as stated, fails: the document is not a Sectioned one with a section
    titled [EXPERIENCE]. *)
Lemma header_example_not_sectioned :
  ~ exists its,
      parseStructuredContent (JString headerExample)
      = SectionsDoc [mkSection (lit "EXPERIENCE") its]
      /\ List.length its = 2%nat
      /\ Forall (fun i => priority i = high) its.
Proof.
  intros (its & H & _). rewrite headerExample_value in H. discriminate.
Qed.



(** C4, as amended.  The document is classified by the lines that are left
    after cleaning, bulletization, trimming and the removal of the empty
    lines, not by the lines of the input.  When the text is empty, or
    cleaning leaves nothing, a text placeholder is returned and no class
    applies.  Otherwise the checks run in the order Sectioned, Enhanced
    list, Bullet fallback and the first that holds decides: the document
    returned is Sectioned exactly when some line left matches a header
    pattern; it is an Enhanced list exactly when no line left matches a
    header pattern and either more than one of them matches the list
    pattern or more than two lines are left; it is a Bullet fallback
    exactly when no line left matches a header pattern, at most one
    matches the list pattern and at most two lines are left.  The document
    of a class is the one the parser of that class gives for the lines
    left. *)
Theorem classification_order (text : jsstring) :
  let d := parseStructuredContent (JString text) in
  match structuredLines text with
  | None => d = TextDoc (if truthy text then notProcessed else noContent)
  | Some lines =>
    (sectionedDoc d <-> someHeader lines)
    /\ (enhancedListDoc d <->
        ~ someHeader lines
        /\ (1 < len (listLines lines) \/ 2 < len lines))
    /\ (bulletFallbackDoc d <->
        ~ someHeader lines
        /\ len (listLines lines) <= 1 /\ len lines <= 2)
    /\ (sectionedDoc d -> d = parseStructuredSections lines)
    /\ (enhancedListDoc d -> d = parseListContent lines listPattern)
    /\ (bulletFallbackDoc d -> d = parseAsBulletList lines)
  end.
Proof.
  cbv zeta. destruct (structuredLines text) as [lines|] eqn:Hl.
  - pose proof (structuredLines_truthy text lines Hl) as Ht.
    unfold parseStructuredContent. rewrite Ht, Hl. cbn [negb].
    pose proof (hasHeaders_someHeader lines) as Hh.
    pose proof (sections_class lines) as Cs.
    pose proof (list_class lines listPattern) as Cl.
    pose proof (bullets_class lines) as Cb.
    pose proof (sectioned_apart _ Cs) as [As1 As2].
    pose proof (enhanced_apart _ Cl) as Al.
    assert (Asl : ~ sectionedDoc (parseListContent lines listPattern)).
    { intros S. destruct (sectioned_apart _ S) as [N _]. exact (N Cl). }
    assert (Asb : ~ sectionedDoc (parseAsBulletList lines)).
    { intros S. destruct (sectioned_apart _ S) as [_ N]. exact (N Cb). }
    assert (Alb : ~ enhancedListDoc (parseAsBulletList lines)).
    { intros E. exact (enhanced_apart _ E Cb). }
    unfold hasList.
    destruct (hasHeaders lines).
    + assert (H : someHeader lines) by (apply Hh; reflexivity).
      repeat split; intros; try tauto; try reflexivity.
    + assert (H : ~ someHeader lines).
      { intros H. apply Hh in H. discriminate. }
      destruct (1 <? len (listLines lines)) eqn:E1;
        [apply Z.ltb_lt in E1|apply Z.ltb_ge in E1];
        (destruct (2 <? len lines) eqn:E2;
           [apply Z.ltb_lt in E2|apply Z.ltb_ge in E2]);
        cbn [orb];
        repeat split; intros; try tauto; try reflexivity;
        try (exfalso; intuition lia).
  - destruct text as [|a s]; [reflexivity|].
    unfold parseStructuredContent. cbn [truthy negb]. rewrite Hl.
    reflexivity.
Qed.

Lemma classification_order_witness :
  structuredLines gradesExample
  = Some [lit "GPA: 3.8 of 4.0"; lit "GPA: 3.9 of 4.0";
          lit "GPA: 3.7 of 4.0"]
  /\ enhancedListDoc (parseStructuredContent (JString gradesExample)).
Proof.
  split; [exact gradesExample_lines|].
  pose proof (classification_order gradesExample) as H.
  cbv zeta in H. rewrite gradesExample_lines in H.
  destruct H as (_ & [_ H] & _). apply H.
  split; [exact gradesExample_no_header|].
  right. vm_compute. reflexivity.
Defined.

(** C4, as stated, fails: three lines of fifteen characters, none of which
    matches the list pattern or a header pattern, are classified as an
    Enhanced list (by the number of lines), not as a Bullet fallback. *)
Lemma enhanced_list_without_list_lines :
  ~ (forall text lines,
       structuredLines text = Some lines ->
       (enhancedListDoc (parseStructuredContent (JString text)) ->
        ~ someHeader lines /\ 1 < len (listLines lines))
       /\ (~ someHeader lines -> len (listLines lines) <= 1 ->
           bulletFallbackDoc (parseStructuredContent (JString text)))).
Proof.
  intros H. destruct (H _ _ gradesExample_lines) as [H1 _].
  assert (Hc : enhancedListDoc
                 (parseStructuredContent (JString gradesExample))).
  { rewrite gradesExample_value. eexists. split; [reflexivity|].
    list_groups. }
  destruct (H1 Hc) as [_ Hl]. vm_compute in Hl. discriminate.
Qed.

End Classification.
